(** * yaofang — the rule / config-item framework ([extension/content/ruleset/rule.js])

    A shallow embedding of the configuration-item hierarchy of [rule.js]:
    the template tokenizer, the config binding ([getConfig]), the typed
    variants' [normalize], the Tab / Group / Rule constructors, [query] and
    [Rule.execute] / [rule.init].

    Conventions.
    - JavaScript values are the inductive [JsVal].  The finite numbers of
      the model are the doubles that are whole numbers ([Fin z]); [NaN]
      and the two infinities are separate constructors.  Subtraction
      rounds its exact result to the nearest double ([to_double]), the
      remainder [%] is exact, and numbers print as [Number::toString]
      prints them.  Numbers with a fraction (a [step] of 0.1, say) are not
      part of the model: the results on numbers speak of whole numbers
      only, and say so.
    - Arrays and objects are values without identity: a value read from the
      store is never the same object as one written in a declaration, so
      [===] between two of them is [false].
    - Code that can throw lives in the monad [M]: a state transformer whose
      result is either an exception or a value, the state surviving the
      exception, as it does in JavaScript. *)

From Stdlib Require Import ZArith Ascii String.
From stdpp Require Import gmap strings list pretty.

#[local] Set Warnings "-register-all,-clear-no-such-hyp".

Local Open Scope string_scope.
Local Open Scope Z_scope.
Local Open Scope list_scope.

(** ** JavaScript values *)

Inductive Num : Type :=
| NaN
| PInf
| NInf
| Fin (z : Z).

Inductive JsVal : Type :=
| VUndef
| VNull
| VBool (b : bool)
| VNum (n : Num)
| VStr (s : string)
| VArr (items : list JsVal)
| VObj (fields : list (string * JsVal)).

#[global] Instance Num_eq_dec : EqDecision Num.
Proof. solve_decision. Defined.

(** [ToBoolean]: the truthiness test of [if], [&&], [||] and [!]. *)
Definition truthy (v : JsVal) : bool :=
  match v with
  | VUndef | VNull => false
  | VBool b => b
  | VNum NaN => false
  | VNum (Fin z) => negb (z =? 0)
  | VNum _ => true
  | VStr s => negb (bool_decide (s = ""))
  | VArr _ | VObj _ => true
  end.

(** [Number.isFinite] on a number. *)
Definition isFinite (n : Num) : bool :=
  match n with Fin _ => true | _ => false end.

(** *** Doubles

    The numbers of JavaScript are the doubles of IEEE 754.  The finite
    numbers of the model are the whole numbers among them: [Fin z] stands
    for the double whose value is the whole number [z], and the two zeros
    count as one, since the file never divides and so never sees the sign
    of a zero.  Numbers with a fraction are not part of the model; the
    results on numbers speak of whole numbers.

    Double precision holds a whole number when it has at most 53
    significant bits and lies below [2^1024]: every whole number up to
    [2^53] in magnitude, and above that every second, fourth, ... one.  An
    operation returns the double nearest to its exact result, a tie going
    to the even significand, and an infinity beyond the largest double. *)

(** The nearest whole number of at most 53 significant bits to [a],
    for [a] not negative. *)
Definition round_magnitude (a : Z) : Z :=
  if a <? 2 ^ 53 then a
  else
    let e := Z.log2 a - 52 in
    let q := Z.shiftr a e in
    let r := Z.land a (Z.ones e) in
    let half := Z.shiftl 1 (e - 1) in
    let q' := if r <? half then q
              else if half <? r then q + 1
              else if Z.even q then q else q + 1 in
    Z.shiftl q' e.

(** The double nearest to the whole number [z]. *)
Definition to_double (z : Z) : Num :=
  let a := round_magnitude (Z.abs z) in
  if 2 ^ 1024 <=? a then (if z <? 0 then NInf else PInf)
  else Fin (Z.sgn z * a).

(** The whole number [z] is a double: rounding leaves it as it is. *)
Definition double (z : Z) : Prop := to_double z = Fin z.

Arguments to_double : simpl never.

(** *** [Number::toString]

    A whole number up to [2^53] prints with all its digits.  Above, the
    digits are those of the shortest decimal [s * 10^(n-k)] that double
    precision reads back as the number, the one nearest to it when there
    are several; below [10^21] zeros follow the digits, from there on the
    exponent is printed. *)

Definition decimal_digits (z : Z) : Z := Z.of_nat (String.length (pretty z)).

(** The shortest decimal that reads back as the double [z] above [2^53],
    among those of [k] digits and more; [n] is the number of digits of
    [z], and [fuel] the number of lengths left to try. *)
Fixpoint shortest_decimal (fuel : nat) (k n z : Z) : Z :=
  match fuel with
  | O => z
  | S fuel' =>
      let scale := 10 ^ (n - k) in
      let lo := z / scale * scale in
      let hi := lo + scale in
      let ok_lo := bool_decide (to_double lo = Fin z) in
      let ok_hi := bool_decide (to_double hi = Fin z) in
      if ok_lo && ok_hi then
        if z - lo <? hi - z then lo
        else if hi - z <? z - lo then hi
        else if Z.even (z / scale) then lo else hi
      else if ok_lo then lo
      else if ok_hi then hi
      else shortest_decimal fuel' (k + 1) n z
  end.

(** A string of digits without its zeros at the end. *)
Fixpoint strip_zeros (s : string) : string :=
  match s with
  | "" => ""
  | String c s' =>
      match strip_zeros s' with
      | "" => if bool_decide (c = "0"%char) then "" else String c ""
      | rest => String c rest
      end
  end.

(** [d.ddde+x] *)
Definition exponent_form (v : Z) : string :=
  match strip_zeros (pretty v) with
  | "" => pretty v
  | String d "" => String d "" +:+ "e+" +:+ pretty (decimal_digits v - 1)
  | String d ds => String d ("." +:+ ds) +:+ "e+" +:+ pretty (decimal_digits v - 1)
  end.

Definition whole_toString (z : Z) : string :=
  if Z.abs z <=? 2 ^ 53 then pretty z
  else
    let a := Z.abs z in
    let v := shortest_decimal (String.length (pretty a)) 1 (decimal_digits a) a in
    (if z <? 0 then "-" else "") +:+
    (if decimal_digits v <=? 21 then pretty v else exponent_form v).

Definition Num_toString (n : Num) : string :=
  match n with
  | NaN => "NaN"
  | PInf => "Infinity"
  | NInf => "-Infinity"
  | Fin z => whole_toString z
  end.

Fixpoint join (sep : string) (l : list string) : string :=
  match l with
  | [] => ""
  | [x] => x
  | x :: l' => x +:+ sep +:+ join sep l'
  end.

(** [Array.prototype.join]: [null] and [undefined] elements print as the
    empty string, the others with [str]. *)
Definition join_with (str : JsVal -> string) (sep : string) (items : list JsVal) : string :=
  join sep (map (fun x => match x with
                          | VUndef | VNull => ""
                          | _ => str x
                          end) items).

(** [ToString]; an array prints as its elements joined by a comma, a plain
    object as ["[object Object]"]. *)
Fixpoint ToString (v : JsVal) : string :=
  match v with
  | VUndef => "undefined"
  | VNull => "null"
  | VBool true => "true"
  | VBool false => "false"
  | VNum n => Num_toString n
  | VStr s => s
  | VArr items => join_with ToString "," items
  | VObj _ => "[object Object]"
  end.

(** Strict equality [===].  [NaN] differs from itself; arrays and objects
    compare by identity, which two values of the model never share. *)
Definition strict_eq (a b : JsVal) : bool :=
  match a, b with
  | VUndef, VUndef | VNull, VNull => true
  | VBool x, VBool y => bool_decide (x = y)
  | VNum NaN, VNum _ | VNum _, VNum NaN => false
  | VNum x, VNum y => bool_decide (x = y)
  | VStr x, VStr y => bool_decide (x = y)
  | _, _ => false
  end.

(** Property read [v.key] of an own data property; [None] is the
    [TypeError] of reading a property of [undefined] or [null]. *)
Definition get_prop (v : JsVal) (key : string) : option JsVal :=
  match v with
  | VUndef | VNull => None
  | VObj fields =>
      Some (default VUndef (snd <$> find (fun kv => bool_decide (fst kv = key)) fields))
  | _ => Some VUndef
  end.

(** *** Arithmetic on numbers *)

(** The subtraction [-]: the exact difference of two whole numbers is a
    whole number, and the result is the double nearest to it. *)
Definition Num_sub (a b : Num) : Num :=
  match a, b with
  | NaN, _ | _, NaN => NaN
  | PInf, PInf | NInf, NInf => NaN
  | PInf, _ => PInf
  | NInf, _ => NInf
  | Fin _, PInf => NInf
  | Fin _, NInf => PInf
  | Fin x, Fin y => to_double (x - y)
  end.

(** The remainder [%]: the result has the sign of the dividend.  The
    remainder of two doubles is a double, so this operation is exact. *)
Definition Num_rem (a b : Num) : Num :=
  match a, b with
  | NaN, _ | _, NaN => NaN
  | PInf, _ | NInf, _ => NaN
  | Fin x, PInf | Fin x, NInf => Fin x
  | Fin x, Fin y => if y =? 0 then NaN else Fin (Z.rem x y)
  end.

Definition Num_lt (a b : Num) : bool :=
  match a, b with
  | NaN, _ | _, NaN => false
  | _, NInf | PInf, _ => false
  | NInf, _ | _, PInf => true
  | Fin x, Fin y => x <? y
  end.

Definition Num_gt (a b : Num) : bool := Num_lt b a.

(** *** [JSON.stringify] *)

Definition hex_digit (n : N) : ascii :=
  match n with
  | 0 => "0" | 1 => "1" | 2 => "2" | 3 => "3" | 4 => "4" | 5 => "5"
  | 6 => "6" | 7 => "7" | 8 => "8" | 9 => "9" | 10 => "a" | 11 => "b"
  | 12 => "c" | 13 => "d" | 14 => "e" | _ => "f"
  end%N%char.

Definition quote_char : ascii := ascii_of_N 34.
Definition backslash_char : ascii := ascii_of_N 92.

Definition json_escape_char (c : ascii) : string :=
  let n := N_of_ascii c in
  let esc (x : ascii) := String backslash_char (String x "") in
  if (n =? 34)%N then esc quote_char
  else if (n =? 92)%N then esc backslash_char
  else if (n =? 8)%N then esc "b"%char
  else if (n =? 9)%N then esc "t"%char
  else if (n =? 10)%N then esc "n"%char
  else if (n =? 12)%N then esc "f"%char
  else if (n =? 13)%N then esc "r"%char
  else if (n <? 32)%N then
    String backslash_char
      ("u00" +:+ String (hex_digit (n / 16)) (String (hex_digit (n mod 16)) ""))
  else String c "".

Fixpoint json_escape (s : string) : string :=
  match s with
  | "" => ""
  | String c s' => json_escape_char c +:+ json_escape s'
  end.

Definition json_quote (s : string) : string :=
  String quote_char (json_escape s) +:+ String quote_char "".

(** [JSON.stringify(v)]; [None] is the [undefined] it returns for
    [undefined].  Inside an array [undefined] prints as [null]; inside
    an object a property whose value is [undefined] is left out. *)
Fixpoint JSON_stringify (v : JsVal) : option string :=
  match v with
  | VUndef => None
  | VNull => Some "null"
  | VBool true => Some "true"
  | VBool false => Some "false"
  | VNum (Fin z) => Some (whole_toString z)
  | VNum _ => Some "null"
  | VStr s => Some (json_quote s)
  | VArr items =>
      Some ("[" +:+ join "," (map (fun x => default "null" (JSON_stringify x)) items) +:+ "]")
  | VObj fields =>
      Some ("{" +:+
            join "," (omap (fun kv => match JSON_stringify (snd kv) with
                                      | Some j => Some (json_quote (fst kv) +:+ ":" +:+ j)
                                      | None => None
                                      end) fields)
            +:+ "}")
  end.


(** ** The template engine: [tokenize] and [filteredTokens] *)

Module Template.

(** [{ type: string, value: string }] *)
Record TemplateToken : Type := { type : string; value : string }.

(** The longest prefix of [s] whose characters satisfy [p], and the rest:
    what a greedy character class followed by [+] consumes. *)
Fixpoint span (p : ascii -> bool) (s : string) : string * string :=
  match s with
  | String c s' =>
      if p c then let (run, rest) := span p s' in (String c run, rest)
      else ("", s)
  | "" => ("", "")
  end.

Definition is_char (c d : ascii) : bool := bool_decide (c = d).

(** An alternative of the shape [oo([^c]+)cc], as in [\{\{([^\}]+)\}\}]:
    the class cannot run over a closing character, so the greedy run is
    the only candidate. *)
Definition match_bracketed (o c : ascii) (s : string) : option (string * string) :=
  match s with
  | String a (String b s1) =>
      if is_char a o && is_char b o then
        match span (fun x => negb (is_char x c)) s1 with
        | ("", _) => None
        | (run, String e (String f rest)) =>
            if is_char e c && is_char f c then Some (run, rest) else None
        | _ => None
        end
      else None
  | _ => None
  end.

(** [(\|\||\|)] *)
Definition match_splitter (s : string) : option (string * string) :=
  match s with
  | String a s1 =>
      if is_char a "|" then
        match s1 with
        | String b s2 => if is_char b "|" then Some ("||", s2) else Some ("|", s1)
        | "" => Some ("|", s1)
        end
      else None
  | "" => None
  end.

(** [([^\|\[\{\&]+|&[^;]+;)] *)
Definition match_text (s : string) : option (string * string) :=
  match span (fun x => negb (is_char x "|" || is_char x "[" || is_char x "{" || is_char x "&")) s with
  | (String c run, rest) => Some (String c run, rest)
  | ("", _) =>
      match s with
      | String a s1 =>
          if is_char a "&" then
            match span (fun x => negb (is_char x ";")) s1 with
            | ("", _) => None
            | (run, String e rest) =>
                if is_char e ";" then Some (String a run +:+ ";", rest) else None
            | _ => None
            end
          else None
      | "" => None
      end
  end.

(** A match of [parseReg] anchored at the head of [s]: the match array
    [[whole, child, rule, splitter, text]] (a group that took no part is
    [undefined], here [None]) and the input after the match.  The
    alternatives are tried in the order of the pattern. *)
Definition match_here (s : string) : option (list (option string) * string) :=
  match match_bracketed "{" "}" s with
  | Some (g, rest) => Some ([Some ("{{" +:+ g +:+ "}}"); Some g; None; None; None], rest)
  | None =>
  match match_bracketed "[" "]" s with
  | Some (g, rest) => Some ([Some ("[[" +:+ g +:+ "]]"); None; Some g; None; None], rest)
  | None =>
  match match_splitter s with
  | Some (g, rest) => Some ([Some g; None; None; Some g; None], rest)
  | None =>
  match match_text s with
  | Some (g, rest) => Some ([Some g; None; None; None; Some g], rest)
  | None => None
  end end end end.

(** [parseReg.exec(template)] from the current [lastIndex]: the leftmost
    position at which the pattern matches. *)
Fixpoint exec (s : string) : option (list (option string) * string) :=
  match match_here s with
  | Some r => Some r
  | None =>
      match s with
      | String _ s' => exec s'
      | "" => None
      end
  end.

(** The [while (true)] loop collecting the matches; every match consumes
    at least one character, so [fuel] above the length of the input is
    never exhausted. *)
Fixpoint matches_loop (fuel : nat) (s : string) : list (list (option string)) :=
  match fuel with
  | O => []
  | S fuel' =>
      match exec s with
      | None => []
      | Some (m, rest) => m :: matches_loop fuel' rest
      end
  end.

Definition types : list string := ["child"; "rule"; "splitter"; "text"].

(** [typed.findIndex(x => x)]: the first group that is a non-empty string. *)
Fixpoint findIndex (typed : list (option string)) : option nat :=
  match typed with
  | [] => None
  | x :: typed' =>
      if truthy (from_option VStr VUndef x) then Some O
      else S <$> findIndex typed'
  end.

(** The callback of [matches.map]; [None] is the [null] that the
    following [filter(token => token)] removes. *)
Definition to_token (m : list (option string)) : option TemplateToken :=
  let typed := tail m in
  match findIndex typed with
  | None => None
  | Some index =>
      match types !! index, typed !! index with
      | Some ty, Some (Some v) => Some {| type := ty; value := v |}
      | _, _ => None
      end
  end.

Definition tokenize (template : string) : list TemplateToken :=
  omap to_token (matches_loop (S (String.length template)) template).

Definition filteredTokens (tokens : list TemplateToken) (acceptTypes : list string)
  : list TemplateToken :=
  filter (fun token => type token ∈ acceptTypes) tokens.

(** The mode table of [itemRender]. *)
Definition mode_types (mode : string) : option (list string) :=
  if bool_decide (mode = "normal") then Some ["child"; "splitter"; "text"]
  else if bool_decide (mode = "recursive") then Some ["child"; "splitter"; "text"; "rule"]
  else if bool_decide (mode = "text") then Some ["child"; "text"]
  else None.

(** The token kinds [itemRender] accepts: with a mode, the table entry,
    which also becomes the remembered [acceptTypes]; without one, the
    remembered kinds less ["rule"].  The result pairs the kinds with the
    new [acceptTypes]; [None] is the [TypeError] of a mode that is not in
    the table. *)
Definition itemRender_types (mode : option string) (acceptTypes : list string)
  : option (list string * list string) :=
  let inherited := filter (fun ty => ty ≠ "rule") acceptTypes in
  match mode with
  | Some m =>
      if truthy (VStr m) then
        match mode_types m with
        | Some ts => Some (ts, ts)
        | None => None
        end
      else Some (inherited, acceptTypes)
  | None => Some (inherited, acceptTypes)
  end.

(** The tokens [itemRender] renders for a template in a mode. *)
Definition itemRender_tokens (template : string) (mode : option string)
    (acceptTypes : list string) : option (list TemplateToken) :=
  match itemRender_types mode acceptTypes with
  | Some (ts, _) => Some (filteredTokens (tokenize template) ts)
  | None => None
  end.

(** The mode [ruleRender] picks. *)
Definition ruleRender_mode (fullDom isRoot : bool) : string :=
  if fullDom then (if isRoot then "recursive" else "normal") else "text".

End Template.

(** ** Exceptions and the state-and-exception monad *)

Inductive Exn : Type :=
| TypeError (msg : string)
| RangeError (msg : string)
| Error (msg : string)
| Thrown (v : JsVal).

(** A computation over a state [S]: it ends in a value or in an exception,
    and the state it leaves is kept in both cases. *)
Definition M (S A : Type) : Type := S -> (Exn + A) * S.

Definition ret {S A} (a : A) : M S A := fun s => (inr a, s).
Definition throw {S A} (e : Exn) : M S A := fun s => (inl e, s).
Definition bind {S A B} (c : M S A) (k : A -> M S B) : M S B :=
  fun s => match c s with
           | (inr a, s') => k a s'
           | (inl e, s') => (inl e, s')
           end.
Definition get_state {S} : M S S := fun s => (inr s, s).
Definition put_state {S} (s : S) : M S unit := fun _ => (inr tt, s).
Definition modify {S} (f : S -> S) : M S unit := fun s => (inr tt, f s).

(** [try { c } catch (e) { h e }] *)
Definition try_catch {S A} (c : M S A) (h : Exn -> M S A) : M S A :=
  fun s => match c s with
           | (inr a, s') => (inr a, s')
           | (inl e, s') => h e s'
           end.

(** Run a computation on a part of the state. *)
Definition zoom {S T A} (proj : S -> T) (upd : T -> S -> S) (c : M T A) : M S A :=
  fun s => let (r, t) := c (proj s) in (r, upd t s).

(** A pure computation that may throw. *)
Definition lift_sum {S A} (r : Exn + A) : M S A :=
  match r with inl e => throw e | inr a => ret a end.

Notation "'let!' x ':=' c 'in' k" := (bind c (fun x => k))
  (at level 10, x pattern, c at level 100, k at level 200).
Notation "c ';;' k" := (bind c (fun _ => k))
  (at level 100, k at level 200, right associativity).

(** [items.forEach(f)]: the calls run in order and the first exception
    ends the loop. *)
Fixpoint forEach {S A} (f : A -> M S unit) (items : list A) : M S unit :=
  match items with
  | [] => ret tt
  | x :: items' => f x ;; forEach f items'
  end.

(** ** The environment of the framework

    The file calls collaborators that it does not define: the persistent
    store ([yawf.config]), the style injector ([util.css]) and the debug
    log ([util.debug]).  Their state is the environment [Env].

    [store] holds the persisted value of every key that has one;
    [store_writes] records the calls of [set], latest first, so that a
    write of an unchanged value is still seen; [listeners] records the
    calls of [addListener].  [rule_style] is the text appended to the style
    sheet [rule.style], [None] while [rule.init] has not created it.
    [page] is the part of the page that the callbacks of the rules act
    on. *)
Record Env : Type := {
  store : gmap string JsVal;
  store_writes : list (string * JsVal);
  listeners : list string;
  rule_style : option (list string);
  debug_log : list (nat * Exn);
  page : list string;
}.

Definition empty_env : Env :=
  {| store := ∅; store_writes := []; listeners := []; rule_style := None;
     debug_log := []; page := [] |}.

(** Modelled from the spec: [get(key) -> rawValue] of the persistent
    store, which the file reaches through [config.user.key(id)] and does
    not define.  The read is synchronous and leaves the store as it is; a
    key without a value reads as [undefined]. *)
Definition config_get (key : string) : M Env JsVal :=
  fun env => (inr (default VUndef (store env !! key)), env).

(** Modelled from the spec: [set(key, value) -> void] of the persistent
    store.  The value is stored under the key.  The change notification
    that follows re-synchronises the rendered instances of the item; no
    document is modelled, so the notification has no further effect. *)
Definition config_set (key : string) (v : JsVal) : M Env unit :=
  modify (fun env =>
    {| store := <[key := v]> (store env);
       store_writes := (key, v) :: store_writes env;
       listeners := listeners env; rule_style := rule_style env;
       debug_log := debug_log env; page := page env |}).

(** Modelled from the spec: [addListener(key, cb)] of the persistent
    store; the subscription is recorded. *)
Definition config_addListener (key : string) : M Env unit :=
  modify (fun env =>
    {| store := store env; store_writes := store_writes env;
       listeners := key :: listeners env; rule_style := rule_style env;
       debug_log := debug_log env; page := page env |}).

(** Modelled from the spec: [append(cssText)] of the style injector, as
    [rule.style.append(text)] calls it.  Before [rule.init] there is no
    [rule.style], and the call is a [TypeError]. *)
Definition style_append (text : string) : M Env unit :=
  fun env =>
    match rule_style env with
    | None => (inl (TypeError "rule.style is undefined"), env)
    | Some sheet =>
        (inr tt,
         {| store := store env; store_writes := store_writes env;
            listeners := listeners env; rule_style := Some (sheet ++ [text])%list;
            debug_log := debug_log env; page := page env |})
    end.

(** Modelled from the spec: the developer-console log of a rule whose
    execution failed, [util.debug('Error while execute rule %o: %o', this, e)].
    The entry names the rule and the exception. *)
Definition util_debug (who : nat) (e : Exn) : M Env unit :=
  modify (fun env =>
    {| store := store env; store_writes := store_writes env;
       listeners := listeners env; rule_style := rule_style env;
       debug_log := (debug_log env ++ [(who, e)])%list; page := page env |}).

(** ** The typed variants *)

(** The attributes a declaration of a number item may set; the class
    getters give [min = 0], [max = Infinity], [step = 1]. *)
Record NumberAttrs : Type := { min : JsVal; max : JsVal; step : JsVal }.

Definition default_number : NumberAttrs :=
  {| min := VNum (Fin 0); max := VNum PInf; step := VNum (Fin 1) |}.

(** The class of a config item, with the attributes its methods read. *)
Inductive Variant : Type :=
| PlainItem
| BooleanItem
| SelectItem (select : JsVal)
| NumberItem (attrs : NumberAttrs)
| RangeItem (attrs : NumberAttrs).

(** [l[0]] and [Array.isArray]. *)
Definition get_first (v : JsVal) : JsVal :=
  match v with
  | VArr (x :: _) => x
  | VStr (String c _) => VStr (String c "")
  | VObj _ => default VUndef (get_prop v "0")
  | _ => VUndef
  end.

Definition isArray (v : JsVal) : bool :=
  match v with VArr _ => true | _ => false end.

(** A conversion of strings to numbers that reads decimal integers, as
    the double nearest to them, the empty string and the infinities, and
    is [NaN] elsewhere.  It serves as the conversion of the examples. *)
Definition digit_value (c : ascii) : option Z :=
  let n := N_of_ascii c in
  if ((48 <=? n) && (n <=? 57))%N then Some (Z.of_N n - 48) else None.

Fixpoint read_digits (acc : Z) (s : string) : option Z :=
  match s with
  | "" => Some acc
  | String c s' =>
      match digit_value c with
      | Some d => read_digits (10 * acc + d) s'
      | None => None
      end
  end.

Definition integer_StringToNumber (s : string) : Num :=
  match s with
  | "" => Fin 0
  | "Infinity" => PInf
  | "-Infinity" => NInf
  | String "-" (String c s') =>
      from_option (fun z => to_double (- z)) NaN (read_digits 0 (String c s'))
  | _ => from_option to_double NaN (read_digits 0 s)
  end.

(** A case analysis on the kind of a token that is one of the four. *)
Ltac by_token_type Ht :=
  unfold Template.types in Ht; simpl in Ht;
  rewrite !elem_of_cons, elem_of_nil in Ht;
  destruct Ht as [Ht|[Ht|[Ht|[Ht|[]]]]]; rewrite Ht;
  rewrite ?elem_of_cons, ?elem_of_nil; naive_solver.

Section Framework.

(** [StringToNumber] of ECMAScript, the conversion of a string to a
    number, is left open: the results below hold for every one. *)
Variable StringToNumber : string -> Num.

(** The unary [+]: [ToNumber]. *)
Definition ToNumber (v : JsVal) : Num :=
  match v with
  | VUndef => NaN
  | VNull => Fin 0
  | VBool true => Fin 1
  | VBool false => Fin 0
  | VNum n => n
  | VStr s => StringToNumber s
  | VArr _ | VObj _ => StringToNumber (ToString v)
  end.

(** [+x === x]: [x] is a number and not [NaN]; then its value. *)
Definition as_number (x : JsVal) : option Num :=
  if strict_eq (VNum (ToNumber x)) x then Some (ToNumber x) else None.

(** *** [initial] *)

Definition SelectConfigItem_initial (select : JsVal) : JsVal :=
  if negb (truthy select) then VNull
  else if negb (truthy (get_first select)) then VNull
  else default VUndef (get_prop (get_first select) "value").

Definition initial (v : Variant) : JsVal :=
  match v with
  | PlainItem => VNull
  | BooleanItem => VBool false
  | SelectItem select => SelectConfigItem_initial select
  | NumberItem a | RangeItem a => min a
  end.

(** *** [normalize] *)

Definition BooleanConfigItem_normalize (value : JsVal) : JsVal :=
  match value with
  | VUndef | VNull => initial BooleanItem
  | _ => VBool (truthy value)
  end.

(** [select.find(item => item.value === value)]; reading [value] of a
    [null] or [undefined] option throws. *)
Fixpoint select_find (items : list JsVal) (value : JsVal) : Exn + option JsVal :=
  match items with
  | [] => inr None
  | item :: items' =>
      match get_prop item "value" with
      | None => inl (TypeError "item is undefined")
      | Some v =>
          if strict_eq v value then inr (Some item) else select_find items' value
      end
  end.

Definition SelectConfigItem_normalize (select value : JsVal) : Exn + JsVal :=
  match select with
  | VArr items =>
      match select_find items value with
      | inl e => inl e
      | inr found =>
          if truthy (default VUndef found) then inr value
          else inr (SelectConfigItem_initial select)
      end
  | _ => inr VNull
  end.

Definition NumberConfigItem_normalize (a : NumberAttrs) (value : JsVal) : JsVal :=
  let number := ToNumber value in
  if negb (isFinite number) then initial (NumberItem a)
  else
    let number :=
      match as_number (min a) with
      | Some m => if Num_lt number m then m else number
      | None => number
      end in
    let number :=
      match as_number (max a) with
      | Some m => if Num_gt number m then m else number
      | None => number
      end in
    let number :=
      match as_number (step a) with
      | Some st =>
          if isFinite st
          then Num_sub number (Num_rem (Num_sub number (ToNumber (min a))) st)
          else number
      | None => number
      end in
    VNum number.

Definition normalize (v : Variant) (value : JsVal) : Exn + JsVal :=
  match v with
  | PlainItem => inr value
  | BooleanItem => inr (BooleanConfigItem_normalize value)
  | SelectItem select => SelectConfigItem_normalize select value
  | NumberItem a | RangeItem a => inr (NumberConfigItem_normalize a value)
  end.


(** *** Declarations and the objects built from them *)

(** The declaration object handed to a constructor: [type] selects the
    class in [configItemBuilder]; an attribute that is not declared is
    [None] and the class getter is read instead; [ref] holds the
    declarations of the nested items. *)
Inductive ItemDecl : Type := Build_ItemDecl {
  d_type : JsVal;
  d_id : option string;
  d_config : option string;
  d_select : JsVal;
  d_min : option JsVal;
  d_max : option JsVal;
  d_step : option JsVal;
  d_ref : list (string * ItemDecl);
}.

(** The part of a [ConfigItem] that the config binding reads and
    writes: [config] is the store key the binding [config.user.key(id)]
    stands for. *)
Record Binding : Type := {
  id : option string;
  configId : nat;
  configInitialized : bool;
  config : option string;
}.

Inductive Item : Type :=
| ConfigItemObj (v : Variant) (b : Binding) (ref : list (string * Item))
| BubbleObj (bubble_id : option string) (ref : list (string * Item)).

Definition id_truthy (i : option string) : bool :=
  truthy (from_option VStr VUndef i).

Definition number_attrs (item : ItemDecl) : NumberAttrs :=
  {| min := default (min default_number) (d_min item);
     max := default (max default_number) (d_max item);
     step := default (step default_number) (d_step item) |}.

(** [nextConfigId()]: the state is the counter behind it.  The source
    draws the identifiers at random; the model hands out the counter. *)
Definition nextConfigId : M nat nat := fun n => (inr n, S n).

(** The checks of the [SelectConfigItem] constructor. *)
Fixpoint select_some_not_string (items : list JsVal) : Exn + bool :=
  match items with
  | [] => inr false
  | item :: items' =>
      match get_prop item "value" with
      | None => inl (TypeError "item is undefined")
      | Some v =>
          if negb (strict_eq v (VStr ("" +:+ ToString v))) then inr true
          else select_some_not_string items'
      end
  end.

Definition SelectConfigItem_check (select : JsVal) : Exn + unit :=
  if negb (truthy select) || negb (isArray select) then
    inl (TypeError "`select` attribute is required for select config item")
  else
    match select with
    | VArr items =>
        match select_some_not_string items with
        | inl e => inl e
        | inr true => inl (TypeError "Select options' value should be string")
        | inr false => inr tt
        end
    | _ => inr tt
    end.

Definition item_type_is (item : ItemDecl) (ty : string) : bool :=
  strict_eq (d_type item) (VStr ty).

(** The [id] of a declaration once its context has looked at it:
    [if (!self.ref[key].id) self.ref[key].id = key]. *)
Definition own_id (item : ItemDecl) (key : option string) : option string :=
  if id_truthy (d_id item) then d_id item
  else match key with Some k => Some k | None => d_id item end.

(** The loop of [BaseConfigItem] over [Object.keys(self.ref)]: every
    nested declaration is built with [self] as its context. *)
Fixpoint build_refs (builder : ItemDecl -> option string -> option (option string) -> M nat Item)
    (context : option string) (decls : list (string * ItemDecl))
  : M nat (list (string * Item)) :=
  match decls with
  | [] => ret []
  | (k, d) :: decls' =>
      let! built := builder d (Some k) (Some context) in
      let! rest := build_refs builder context decls' in
      ret ((k, built) :: rest)
  end.

(** The [ConfigItem] constructor after [super(item)]: the [id] is
    prefixed with the one of the context, then the [configId] is drawn. *)
Definition ConfigItem_init (item : ItemDecl) (key : option string)
    (context : option (option string)) : M nat Binding :=
  let full_id :=
    match context with
    | Some cid =>
        if id_truthy (own_id item key)
        then Some (ToString (from_option VStr VUndef cid) +:+ "." +:+
                   default "" (own_id item key))
        else own_id item key
    | None => own_id item key
    end in
  let! cid := nextConfigId in
  ret {| id := full_id; configId := cid; configInitialized := false;
         config := d_config item |}.

(** [configItemBuilder(item, parent)] with the constructors it calls.
    [key] is the key of the declaration in the [ref] of its context,
    [context] the [id] of that context at the time of the call, [None]
    when there is no context.  A bubble is a [BaseConfigItem] only; a
    select item checks its options after the [ConfigItem] constructor. *)
Fixpoint configItemBuilder (item : ItemDecl) (key : option string)
    (context : option (option string)) : M nat Item :=
  let! ref := build_refs configItemBuilder (own_id item key) (d_ref item) in
  if item_type_is item "boolean" then
    let! b := ConfigItem_init item key context in
    ret (ConfigItemObj BooleanItem b ref)
  else if item_type_is item "select" then
    let! b := ConfigItem_init item key context in
    lift_sum (SelectConfigItem_check (d_select item)) ;;
    ret (ConfigItemObj (SelectItem (d_select item)) b ref)
  else if item_type_is item "number" then
    let! b := ConfigItem_init item key context in
    ret (ConfigItemObj (NumberItem (number_attrs item)) b ref)
  else if item_type_is item "range" then
    let! b := ConfigItem_init item key context in
    ret (ConfigItemObj (RangeItem (number_attrs item)) b ref)
  else if item_type_is item "bubble" then
    ret (BubbleObj (own_id item key) ref)
  else
    let! b := ConfigItem_init item key context in
    ret (ConfigItemObj PlainItem b ref).

(** [new ConfigItem(item, context)], as [super(item, parent)] of the
    classes below runs it. *)
Definition ConfigItem_new (item : ItemDecl) (key : option string)
    (context : option (option string)) : M nat (Binding * list (string * Item)) :=
  let! ref := build_refs configItemBuilder (own_id item key) (d_ref item) in
  let! b := ConfigItem_init item key context in
  ret (b, ref).

(** [new SelectConfigItem(item, parent)] *)
Definition SelectConfigItem_new (item : ItemDecl) (key : option string)
    (context : option (option string)) : M nat Item :=
  let! (b, ref) := ConfigItem_new item key context in
  lift_sum (SelectConfigItem_check (d_select item)) ;;
  ret (ConfigItemObj (SelectItem (d_select item)) b ref).

(** *** The config binding *)

Definition on_env {A} (c : M Env A) : M (Binding * Env) A :=
  zoom snd (fun env s => (fst s, env)) c.

Definition on_binding {A} (c : M Binding A) : M (Binding * Env) A :=
  zoom fst (fun b s => (b, snd s)) c.

(** [initConfig()]: on the first call the item is bound to the key of its
    [id], unless the declaration brought a binding, and the listener that
    keeps the rendered instances in step is added; an item without an [id]
    cannot be bound. *)
Definition initConfig : M (Binding * Env) unit :=
  let! s := get_state in
  let b := fst s in
  if configInitialized b then ret tt
  else
    let! key :=
      match config b with
      | Some key => ret key
      | None =>
          match id b with
          | Some i =>
              if id_truthy (Some i) then ret i
              else throw (Error "id is required to init config")
          | None => throw (Error "id is required to init config")
          end
      end in
    on_binding (modify (fun b =>
      {| id := id b; configId := configId b; configInitialized := true;
         config := Some key |})) ;;
    on_env (config_addListener key).

(** The test of [getConfig]:
    [value && JSON.stringify(value) !== normalize && JSON.stringify(normalize)] *)
Definition getConfig_writes_back (value normalized : JsVal) : bool :=
  truthy value
  && negb (strict_eq (from_option VStr VUndef (JSON_stringify value)) normalized)
  && truthy (from_option VStr VUndef (JSON_stringify normalized)).

(** [getConfig()] *)
Definition getConfig (v : Variant) : M (Binding * Env) JsVal :=
  initConfig ;;
  let! s := get_state in
  match config (fst s) with
  | None => throw (TypeError "this.config is undefined")
  | Some key =>
      let! value := on_env (config_get key) in
      let! normalized := lift_sum (normalize v value) in
      (if getConfig_writes_back value normalized
       then on_env (config_set key normalized)
       else ret tt) ;;
      ret normalized
  end.

(** [setConfig(value)] *)
Definition setConfig (v : Variant) (value : JsVal) : M (Binding * Env) JsVal :=
  initConfig ;;
  let! s := get_state in
  match config (fst s) with
  | None => throw (TypeError "this.config is undefined")
  | Some key =>
      let! normalized := lift_sum (normalize v value) in
      on_env (config_set key normalized) ;;
      ret normalized
  end.

(** [addConfigListener(callback)]: the callback is subscribed to the
    binding of the item. *)
Definition addConfigListener : M (Binding * Env) unit :=
  initConfig ;;
  let! s := get_state in
  match config (fst s) with
  | None => throw (TypeError "this.config is undefined")
  | Some key => on_env (config_addListener key)
  end.

(** ** The rule tree *)

Inductive NodeClass : Type := TabClass | GroupClass | RuleClass | TextClass.

#[global] Instance NodeClass_eq_dec : EqDecision NodeClass.
Proof. solve_decision. Defined.

(** The [parent] of a declaration: absent, a node of the tree (by its
    index in the heap), or some other value. *)
Inductive Parent : Type :=
| NoParent
| ParentNode (r : nat)
| ParentValue (v : JsVal).

(** [css] and [acss]: a string, or a function that computes the text. *)
Inductive StyleField : Type :=
| NoStyle
| StyleString (text : string)
| StyleFunction (f : M Env JsVal).

(** The declaration of a Tab, Group, Rule or Text.  The callbacks act on
    the environment (store, style sheet, page), not on the tree. *)
Record RuleDecl : Type := {
  r_item : ItemDecl;
  r_parent : Parent;
  r_always : option bool;
  r_css : StyleField;
  r_acss : StyleField;
  r_init : option (M Env unit);
  r_ainit : option (M Env unit);
}.

(** A node of the tree; [children] is [None] while the node has no
    [children] array (a Rule never gets one). *)
Record Node : Type := {
  cls : NodeClass;
  binding : Binding;
  node_ref : list (string * Item);
  parent : Parent;
  own_always : option bool;
  children : option (list nat);
  css : StyleField;
  acss : StyleField;
  init : option (M Env unit);
  ainit : option (M Env unit);
}.

(** The objects of the tree live in [heap], a node being named by its
    index; [tabs] is [rule.tabs]; [configIds] is the counter behind
    [nextConfigId]. *)
Record World : Type := {
  heap : list Node;
  tabs : list nat;
  configIds : nat;
  env : Env;
}.

Definition empty_world : World :=
  {| heap := []; tabs := []; configIds := 0; env := empty_env |}.

Definition set_heap (h : list Node) (w : World) : World :=
  {| heap := h; tabs := tabs w; configIds := configIds w; env := env w |}.
Definition set_tabs (t : list nat) (w : World) : World :=
  {| heap := heap w; tabs := t; configIds := configIds w; env := env w |}.
Definition set_configIds (n : nat) (w : World) : World :=
  {| heap := heap w; tabs := tabs w; configIds := n; env := env w |}.
Definition set_env (e : Env) (w : World) : World :=
  {| heap := heap w; tabs := tabs w; configIds := configIds w; env := e |}.

Definition set_children (c : option (list nat)) (n : Node) : Node :=
  {| cls := cls n; binding := binding n; node_ref := node_ref n; parent := parent n;
     own_always := own_always n; children := c; css := css n; acss := acss n;
     init := init n; ainit := ainit n |}.
Definition set_own_always (a : option bool) (n : Node) : Node :=
  {| cls := cls n; binding := binding n; node_ref := node_ref n; parent := parent n;
     own_always := a; children := children n; css := css n; acss := acss n;
     init := init n; ainit := ainit n |}.
Definition set_binding (b : Binding) (n : Node) : Node :=
  {| cls := cls n; binding := b; node_ref := node_ref n; parent := parent n;
     own_always := own_always n; children := children n; css := css n; acss := acss n;
     init := init n; ainit := ainit n |}.

Definition is_Tab (c : NodeClass) : bool := bool_decide (c = TabClass).
Definition is_Group (c : NodeClass) : bool := bool_decide (c = GroupClass).
(** [Text] extends [Rule]. *)
Definition is_Rule (c : NodeClass) : bool :=
  bool_decide (c = RuleClass) || bool_decide (c = TextClass).

(** [x instanceof C] for a node index [x]. *)
Definition node_instanceof (h : list Node) (x : nat) (C : NodeClass -> bool) : bool :=
  match h !! x with
  | Some n => C (cls n)
  | None => false
  end.

(** [item.parent instanceof C] *)
Definition parent_instanceof (h : list Node) (p : Parent) (C : NodeClass -> bool) : bool :=
  match p with
  | ParentNode r => node_instanceof h r C
  | _ => false
  end.

(** [this.parent.children.push(this)] of the [RuleItem] constructor,
    run when [this.parent] is truthy.  A parent without a [children]
    array makes [push] a [TypeError]; a parent outside the tree that has
    one is not tracked. *)
Definition push_to_parent (p : Parent) (this : nat) : M World unit :=
  match p with
  | NoParent => ret tt
  | ParentNode r =>
      let! w := get_state in
      match heap w !! r with
      | Some n =>
          match children n with
          | Some cs =>
              put_state (set_heap (<[r := set_children (Some (cs ++ [this])%list) n]> (heap w)) w)
          | None => throw (TypeError "this.parent.children is undefined")
          end
      | None => throw (TypeError "this.parent.children is undefined")
      end
  | ParentValue v =>
      if truthy v then
        match get_prop v "children" with
        | Some (VArr _) => ret tt
        | _ => throw (TypeError "this.parent.children is undefined")
        end
      else ret tt
  end.

(** [new RuleItem(item)]: the [BooleanConfigItem] constructor with no
    context, then the registration with the parent.  The result is the
    index of the new node, the next free one.  The node enters the heap
    once the registration went through: a constructor that throws hands
    its object to nobody. *)
Definition RuleItem_new (c : NodeClass) (d : RuleDecl) : M World nat :=
  let! (b, ref) := zoom configIds set_configIds (ConfigItem_new (r_item d) None None) in
  let! w := get_state in
  let this := length (heap w) in
  push_to_parent (r_parent d) this ;;
  modify (fun w => set_heap (heap w ++ [
    {| cls := c; binding := b; node_ref := ref; parent := r_parent d;
       own_always := r_always d; children := None; css := r_css d; acss := r_acss d;
       init := r_init d; ainit := r_ainit d |}])%list w) ;;
  ret this.

Definition update_node (this : nat) (f : Node -> Node) : M World unit :=
  modify (fun w => set_heap (alter f this (heap w)) w).

(** [rule.Tab(item)] *)
Definition tabBuilder (d : RuleDecl) : M World nat :=
  let! this := RuleItem_new TabClass d in
  update_node this (set_children (Some [])) ;;
  modify (fun w => set_tabs (tabs w ++ [this])%list w) ;;
  ret this.

(** [rule.Group(item)] *)
Definition groupBuilder (d : RuleDecl) : M World nat :=
  let! w := get_state in
  if negb (parent_instanceof (heap w) (r_parent d) is_Tab) then
    throw (TypeError "Group must in some Tab")
  else
    let! this := RuleItem_new GroupClass d in
    update_node this (set_children (Some [])) ;;
    ret this.

(** [new Rule(item)], shared by [rule.Rule] and [rule.Text]. *)
Definition Rule_new (c : NodeClass) (d : RuleDecl) : M World nat :=
  let! w := get_state in
  if negb (parent_instanceof (heap w) (r_parent d) is_Group) then
    throw (TypeError "Rule must in some Group")
  else RuleItem_new c d.

(** [rule.Rule(item)] *)
Definition ruleBuilder (d : RuleDecl) : M World nat := Rule_new RuleClass d.

(** [rule.Text(item)] *)
Definition textBuilder (d : RuleDecl) : M World nat :=
  let! this := Rule_new TextClass d in
  update_node this (set_own_always (Some true)) ;;
  ret this.

(** *** [query] *)

(** [result.add(item)] on a [Set], kept in insertion order. *)
Definition set_add (item : nat) (result : list nat) : list nat :=
  if bool_decide (item ∈ result) then result else (result ++ [item])%list.

(** The recursive walk of [query].  [fuel] bounds the depth of the
    recursion; [None] is a walk that did not finish within it. *)
Fixpoint query_walk (fuel : nat) (h : list Node) (items : list nat) (result : list nat)
  : option (list nat) :=
  match fuel with
  | O => None
  | S fuel' =>
      (fix each (items : list nat) (result : list nat) : option (list nat) :=
         match items with
         | [] => Some result
         | item :: items' =>
             match
               (if node_instanceof h item is_Tab || node_instanceof h item is_Group
                then query_walk fuel' h (default [] (h !! item ≫= children)) result
                else Some result)
             with
             | None => None
             | Some result1 =>
                 each items'
                   (if negb (node_instanceof h item is_Rule) then result1
                    else set_add item result1)
             end
         end) items result
  end.

(** [rule.query({ base })]; the depth of a tree built by the
    constructors is below the number of its nodes. *)
Definition query_in (h : list Node) (base : list nat) : option (list nat) :=
  query_walk (S (length h)) h base [].

Definition query (base : option (list nat)) : M World (list nat) :=
  let! w := get_state in
  match query_in (heap w) (default (tabs w) base) with
  | Some result => ret result
  | None => throw (RangeError "too much recursion")
  end.

(** *** [Rule.execute] and [rule.init] *)

Definition on_world {A} (c : M Env A) : M World A := zoom env set_env c.

(** A method of the config binding run on the node [this]. *)
Definition on_node {A} (this : nat) (c : M (Binding * Env) A) : M World A :=
  fun w =>
    match heap w !! this with
    | None => (inl (TypeError "this is undefined"), w)
    | Some n =>
        let '(r, (b, e)) := c (binding n, env w) in
        (r, set_env e (set_heap (<[this := set_binding b n]> (heap w)) w))
    end.

(** [this.always]: the getter of Tab and Group, else the own property. *)
Definition node_always (n : Node) : bool :=
  match own_always n with
  | Some a => a
  | None => is_Tab (cls n) || is_Group (cls n)
  end.

(** [isEnabled()]: [this.always || this.getConfig()] *)
Definition isEnabled (this : nat) : M World JsVal :=
  let! w := get_state in
  match heap w !! this with
  | None => throw (TypeError "this is undefined")
  | Some n =>
      if node_always n then ret (VBool true)
      else on_node this (getConfig BooleanItem)
  end.

(** What a style field pushes to [styles]. *)
Definition collect_style (f : StyleField) : M Env (list JsVal) :=
  match f with
  | NoStyle => ret []
  | StyleString text => ret [VStr text]
  | StyleFunction g => let! text := g in ret [text]
  end.

Definition call_if_function (f : option (M Env unit)) : M Env unit :=
  match f with
  | Some g => g
  | None => ret tt
  end.

Definition newline : string := String (ascii_of_N 10) "".

(** The body of the [try] block of [execute]. *)
Definition execute_body (n : Node) (enabled : JsVal) : M Env unit :=
  let! styles := collect_style (css n) in
  let! styles :=
    (if truthy enabled
     then let! more := collect_style (acss n) in ret (styles ++ more)%list
     else ret styles) in
  style_append (join_with ToString newline styles) ;;
  call_if_function (init n) ;;
  (if truthy enabled then call_if_function (ainit n) else ret tt).

(** [Rule.prototype.execute] *)
Definition execute (this : nat) : M World unit :=
  let! enabled := isEnabled this in
  let! w := get_state in
  match heap w !! this with
  | None => throw (TypeError "this is undefined")
  | Some n =>
      on_world (try_catch (execute_body n enabled) (fun e => util_debug this e))
  end.

(** Modelled from the spec: the style injector hands out a fresh, empty
    style sheet, [rule.style = css.add('')]. *)
Definition new_rule_style : M Env unit :=
  modify (fun e =>
    {| store := store e; store_writes := store_writes e; listeners := listeners e;
       rule_style := Some []; debug_log := debug_log e; page := page e |}).

(** [rule.init] *)
Definition rule_init : M World unit :=
  on_world new_rule_style ;;
  let! rules := query None in
  forEach execute rules.


(** ** Notions of the specification *)

(** [normalize] applied twice. *)
Definition normalize_twice (v : Variant) (value : JsVal) : Exn + JsVal :=
  match normalize v value with
  | inr once => normalize v once
  | inl e => inl e
  end.

(** Double arithmetic is exact between [m] and [c]: the two whole
    numbers and their difference are at most [2^53] in magnitude, so that
    every whole number between them, and its distance from [m], is a
    double. *)
Definition exact_spanb (m c : Z) : bool :=
  (Z.abs m <=? 2 ^ 53) && (Z.abs c <=? 2 ^ 53) && (Z.abs (c - m) <=? 2 ^ 53).

Definition exact_span (m c : Z) : Prop := exact_spanb m c = true.

(** Number attributes under which [normalize] lands on the grid: [min] is
    a whole number, [max] does not lie below it, double arithmetic is
    exact between the two, and [step] is not zero.  A [max] that is not a
    number, or is [Infinity] as by default, switches the clamp off: then
    [min] is at most [2^53] in magnitude, and the input has to stay in
    range.  A [step] that is not a finite number switches the snap off. *)
Definition number_attrs_ok (a : NumberAttrs) : bool :=
  match min a with
  | VNum (Fin m) =>
      match max a with
      | VNum (Fin M) => (m <=? M) && exact_spanb m M
      | VNum NInf => false
      | _ => exact_spanb m m
      end
      && match step a with
         | VNum (Fin s) => negb (s =? 0)
         | _ => true
         end
  | _ => false
  end.

(** An option list as the specification wants it: an array whose
    options all carry a string [value]. *)
Definition option_value_is_string (item : JsVal) : bool :=
  match get_prop item "value" with
  | Some (VStr _) => true
  | _ => false
  end.

Definition select_valid (select : JsVal) : bool :=
  match select with
  | VArr items => forallb option_value_is_string items
  | _ => false
  end.

(** The items a constructor can have built. *)
Definition variant_ok (v : Variant) : Prop :=
  match v with
  | PlainItem | BooleanItem => True
  | SelectItem select => SelectConfigItem_check select = inr tt
  | NumberItem a | RangeItem a => number_attrs_ok a = true
  end.

(** [z] lies in [[m, M]] and on the grid of [s] through [m]. *)
Definition on_grid (m M s : Z) (r : JsVal) : Prop :=
  exists z k, r = VNum (Fin z) /\ m <= z <= M /\ z = m + k * s.

(** The value changed structurally: the two serializations differ. *)
Definition changed_structurally (value normalized : JsVal) : Prop :=
  JSON_stringify value <> JSON_stringify normalized.

(** The key [initConfig] binds an item to: the declared binding, else
    the [id] when there is one. *)
Definition binding_key (b : Binding) : option string :=
  match config b with
  | Some key => Some key
  | None =>
      if configInitialized b then None
      else if id_truthy (id b) then id b else None
  end.


(** The finite upper bound and the finite step of the attributes, when
    they have one. *)
Definition max_bound (a : NumberAttrs) : option Z :=
  match max a with VNum (Fin M) => Some M | _ => None end.
Definition step_size (a : NumberAttrs) : option Z :=
  match step a with VNum (Fin s) => Some s | _ => None end.

(** The result of [normalize] on a finite number, by its three steps. *)
Definition clamp_snap (m : Z) (M s : option Z) (x : Z) : Z :=
  let x1 := if x <? m then m else x in
  let x2 := match M with
            | Some M => if M <? x1 then M else x1
            | None => x1
            end in
  match s with
  | Some s => x2 - Z.rem (x2 - m) s
  | None => x2
  end.

(** An input in the range of a Number or Range item.  With a finite
    [max] every input is, since the clamp brings it between [min] and
    [max]; without one, double arithmetic has to be exact between [min]
    and an input above it. *)
Definition input_in_range (a : NumberAttrs) (value : JsVal) : bool :=
  match min a, max_bound a, ToNumber value with
  | VNum (Fin m), None, Fin x => exact_spanb m (Z.max m x)
  | _, _, _ => true
  end.

Definition input_ok (v : Variant) (value : JsVal) : Prop :=
  match v with
  | NumberItem a | RangeItem a => input_in_range a value = true
  | _ => True
  end.

(** Some declared option has the value [value]. *)
Definition has_option (items : list JsVal) (value : JsVal) : Prop :=
  exists item, item ∈ items /\ get_prop item "value" = Some value.

(** The config read of [isEnabled] cannot throw on this node: it is an
    always-item, or it has a key to bind. *)
Definition can_readb (h : list Node) (this : nat) : bool :=
  match h !! this with
  | Some n => node_always n || bool_decide (is_Some (binding_key (binding n)))
  | None => false
  end.

Definition can_read (h : list Node) (this : nat) : Prop := can_readb h this = true.

(** *** The steps of the specification

    The execution of a rule as the specification lists it.  Step 2
    collects the static style text, from a [css] that is a literal or is
    computed; step 3, when the rule is enabled, collects the conditional
    style text of [acss] as well, and the text collected is appended to
    the style sheet; step 4 calls [init] when there is one; step 5, when
    the rule is enabled, calls [ainit] when there is one. *)
Definition style_text (f : StyleField) : M Env (list JsVal) :=
  match f with
  | NoStyle => ret []
  | StyleString text => ret [VStr text]
  | StyleFunction compute => let! text := compute in ret [text]
  end.

Definition callback (f : option (M Env unit)) : M Env unit :=
  match f with
  | Some call => call
  | None => ret tt
  end.

Definition steps_2_to_5 (n : Node) (enabled : bool) : M Env unit :=
  let! static := style_text (css n) in
  let! conditional := (if enabled then style_text (acss n) else ret []) in
  style_append (join_with ToString newline (static ++ conditional)) ;;
  callback (init n) ;;
  (if enabled then callback (ainit n) else ret tt).

(** Step 6: an exception of the steps is caught and logged with the
    rule; what the steps did before it stays. *)
Definition isolated (this : nat) (steps : M Env unit) (e : Env) : Env :=
  match steps e with
  | (inr _, e') => e'
  | (inl exn, e') => snd (util_debug this exn e')
  end.

(** One rule of the batch: step 1 reads the enabled state, then the
    steps 2 to 5 of the rule run, isolated. *)
Definition rule_executed (r : nat) (w : World) : World :=
  match isEnabled r w with
  | (inr enabled, w1) =>
      match heap w1 !! r with
      | Some n => set_env (isolated r (steps_2_to_5 n (truthy enabled)) (env w1)) w1
      | None => w1
      end
  | (inl _, w1) => w1
  end.

(** The batch: every rule executed, one after the other. *)
Definition batch_executed (rules : list nat) (w : World) : World :=
  foldl (fun w r => rule_executed r w) w rules.

(** The world in which [rule.init] starts the batch. *)
Definition with_rule_style (w : World) : World :=
  set_env (snd (new_rule_style (env w))) w.

(** A heap as the constructors build it: the children of a node were
    all created after the node. *)
Definition wf_heap (h : list Node) : Prop :=
  forall i n cs c, h !! i = Some n -> children n = Some cs -> c ∈ cs -> (i < c)%nat.

(** The same as a check that runs; [i] is the index of the head. *)
Fixpoint wf_from (i : nat) (h : list Node) : bool :=
  match h with
  | [] => true
  | n :: h' =>
      forallb (fun c => (i <? c)%nat) (default [] (children n)) && wf_from (S i) h'
  end.

Definition wf_heapb (h : list Node) : bool := wf_from 0 h.

(** The nodes [query] descends into from a node, and what the node
    itself contributes. *)
Definition children_of (h : list Node) (item : nat) : list nat :=
  if node_instanceof h item is_Tab || node_instanceof h item is_Group
  then default [] (h !! item ≫= children)
  else [].

Definition rule_self (h : list Node) (item : nat) : list nat :=
  if node_instanceof h item is_Rule then [item] else [].

(** The depth-first order: the Rule nodes in the order a depth-first
    walk of [items] meets them, a node met twice listed twice. *)
Inductive Walk (h : list Node) : list nat -> list nat -> Prop :=
| Walk_nil : Walk h [] []
| Walk_cons (item : nat) (items below rest : list nat) :
    Walk h (children_of h item) below ->
    Walk h items rest ->
    Walk h (item :: items) (below ++ rule_self h item ++ rest).

(** The nodes that can be reached from [items] through the children of
    Tab and Group nodes. *)
Inductive Reach (h : list Node) (items : list nat) : nat -> Prop :=
| Reach_base (r : nat) : r ∈ items -> Reach h items r
| Reach_child (p c : nat) :
    Reach h items p -> c ∈ children_of h p -> Reach h items c.

(** Every element at its first occurrence only, the elements of [seen]
    counting as met already. *)
Fixpoint first_occurrences (seen order : list nat) : list nat :=
  match order with
  | [] => []
  | x :: order' =>
      if bool_decide (x ∈ seen) then first_occurrences seen order'
      else x :: first_occurrences (seen ++ [x]) order'
  end.

(** [result.add] for each element of [order] in turn. *)
Definition add_all (result order : list nat) : list nat :=
  foldl (fun acc x => set_add x acc) result order.

(** ** Sample declarations and worlds *)

Definition sample_item (i : option string) : ItemDecl :=
  Build_ItemDecl VUndef i None VUndef None None None [].

Definition sample_decl (i : option string) (p : Parent) : RuleDecl :=
  {| r_item := sample_item i; r_parent := p; r_always := None;
     r_css := NoStyle; r_acss := NoStyle; r_init := None; r_ainit := None |}.

(** A callback that leaves a mark on the page. *)
Definition mark (text : string) : M Env unit :=
  modify (fun e =>
    {| store := store e; store_writes := store_writes e; listeners := listeners e;
       rule_style := rule_style e; debug_log := debug_log e;
       page := page e ++ [text] |}).

(** Rule [a]: its [init] throws. *)
Definition sample_rule_a (i : option string) (p : Parent) : RuleDecl :=
  {| r_item := sample_item i; r_parent := p; r_always := None;
     r_css := StyleString ".a{}"; r_acss := NoStyle;
     r_init := Some (throw (Thrown (VStr "boom"))); r_ainit := Some (mark "a.ainit") |}.

(** Rule [b], declared after [a]. *)
Definition sample_rule_b (p : Parent) : RuleDecl :=
  {| r_item := sample_item (Some "b"); r_parent := p; r_always := None;
     r_css := StyleString ".x{color:red}"; r_acss := StyleString ".x{display:none}";
     r_init := Some (mark "b.init"); r_ainit := Some (mark "b.ainit") |}.

Definition run {A} (c : M World A) (w : World) : World := snd (c w).

Definition sample_store : Env :=
  {| store := {["b" := VBool true]}; store_writes := []; listeners := [];
     rule_style := None; debug_log := []; page := [] |}.

(** Tab 0, Group 1 in it, and the rules 2 and 3 in the group; the store
    holds [true] for rule [b].  Rule 2 has the id ["a"] when [with_id]
    is set and none otherwise. *)
Definition sample_world (with_id : bool) : World :=
  run (ruleBuilder (sample_rule_b (ParentNode 1)))
    (run (ruleBuilder (sample_rule_a (if with_id then Some "a" else None) (ParentNode 1)))
       (run (groupBuilder (sample_decl (Some "g") (ParentNode 0)))
          (run (tabBuilder (sample_decl (Some "t") NoParent))
             (set_env sample_store empty_world)))).

Definition sample_binding : Binding :=
  {| id := Some "r"; configId := 0; configInitialized := false; config := None |}.

Definition stored (key : string) (v : JsVal) : Env :=
  {| store := {[key := v]}; store_writes := []; listeners := [];
     rule_style := None; debug_log := []; page := [] |}.

Definition sample_options : JsVal :=
  VArr [VObj [("text", VStr "A"); ("value", VStr "a")];
        VObj [("text", VStr "B"); ("value", VStr "b")]].

Definition sample_select (opts : JsVal) : ItemDecl :=
  Build_ItemDecl (VStr "select") (Some "s") None opts None None None [].

Definition zero_step : NumberAttrs :=
  {| min := VNum (Fin 0); max := VNum (Fin 10); step := VNum (Fin 0) |}.

(** ** Further notions *)

(** The clamp of [normalize] alone: [x] brought into [[m, M]]. *)
Definition clamp (m M x : Z) : Z := clamp_snap m (Some M) None x.

(** A declaration of the host, by the constructor it goes to. *)
Inductive Declaration : Type :=
| DeclTab (d : RuleDecl)
| DeclGroup (d : RuleDecl)
| DeclRule (d : RuleDecl)
| DeclText (d : RuleDecl).

Definition declare (x : Declaration) : M World nat :=
  match x with
  | DeclTab d => tabBuilder d
  | DeclGroup d => groupBuilder d
  | DeclRule d => ruleBuilder d
  | DeclText d => textBuilder d
  end.

Definition declared_class (x : Declaration) : NodeClass :=
  match x with
  | DeclTab _ => TabClass
  | DeclGroup _ => GroupClass
  | DeclRule _ => RuleClass
  | DeclText _ => TextClass
  end.

Definition declared (x : Declaration) : RuleDecl :=
  match x with DeclTab d | DeclGroup d | DeclRule d | DeclText d => d end.

(** A run of declarations, one after the other; a declaration that throws
    leaves the world as its exception left it, and the run goes on. *)
Fixpoint declare_all (xs : list Declaration) (w : World) : World :=
  match xs with
  | [] => w
  | x :: xs' => declare_all xs' (snd (declare x w))
  end.

(** The class the parent of a node must have; a Tab needs none. *)
Definition parent_class (c : NodeClass) : option NodeClass :=
  match c with
  | TabClass => None
  | GroupClass => Some TabClass
  | RuleClass | TextClass => Some GroupClass
  end.

(** The node [i] is where the tree expects it: a Tab in the registry of
    Tabs, any other node among the children of its parent, which is a node
    of the class required. *)
Definition node_registered (h : list Node) (ts : list nat) (i : nat) (n : Node) : Prop :=
  match parent_class (cls n) with
  | None => i ∈ ts
  | Some pc =>
      exists p np cs,
        parent n = ParentNode p /\ h !! p = Some np /\ cls np = pc /\
        children np = Some cs /\ i ∈ cs
  end.

Definition registered (w : World) : Prop :=
  forall i n, heap w !! i = Some n -> node_registered (heap w) (tabs w) i n.

(** The heap after [this.parent.children.push(this)] went through. *)
Definition pushed (p : Parent) (this : nat) (h : list Node) : list Node :=
  match p with
  | ParentNode r =>
      match h !! r with
      | Some n =>
          match children n with
          | Some cs => <[r := set_children (Some (cs ++ [this])) n]> h
          | None => h
          end
      | None => h
      end
  | _ => h
  end.

(** A declaration whose node can be asked for its enabled state: only
    a Rule reads its config then, and it needs a key to bind, its [id] or
    a binding of its own, unless it is declared [always]. *)
Definition declaration_readable (x : Declaration) : bool :=
  match x with
  | DeclRule d =>
      id_truthy (d_id (r_item d))
      || bool_decide (is_Some (d_config (r_item d)))
      || bool_decide (r_always d = Some true)
  | _ => true
  end.

(** A declaration of an always-item: a Text, a Rule declared [always],
    a Tab or a Group whose declaration does not shadow the getter with
    [always: false]. *)
Definition always_declared (x : Declaration) : bool :=
  match x with
  | DeclText _ => true
  | DeclRule d => bool_decide (r_always d = Some true)
  | DeclTab d | DeclGroup d => negb (bool_decide (r_always d = Some false))
  end.

(** Every Rule and Text of the heap can be asked for its enabled state. *)
Definition rules_readable (h : list Node) : Prop :=
  forall r, node_instanceof h r is_Rule = true -> can_read h r.

(** Every character of [s] satisfies [p]. *)
Fixpoint all_chars (p : ascii -> bool) (s : string) : bool :=
  match s with
  | String c s' => p c && all_chars p s'
  | "" => true
  end.

(** A character plain text may hold: none of the four that start a
    token of another kind or an entity. *)
Definition plain_char (x : ascii) : bool :=
  negb (Template.is_char x "|" || Template.is_char x "[" ||
        Template.is_char x "{" || Template.is_char x "&").

(** An entity as the pattern takes it: an ampersand, at least one
    character other than the semicolon, and the semicolon. *)
Definition entity_shape (v : string) : bool :=
  match v with
  | String a r =>
      Template.is_char a "&" &&
      match Template.span (fun x => negb (Template.is_char x ";")) r with
      | (String _ _, rest) => bool_decide (rest = ";")
      | _ => false
      end
  | "" => false
  end.

(** The shape of a token by its kind: the name of a child holds no
    closing brace and the name of a rule no closing bracket; a splitter is
    one bar or two; a text is a run of plain characters or one entity; no
    value is empty. *)
Definition token_shape (t : Template.TemplateToken) : bool :=
  negb (bool_decide (Template.value t = "")) &&
  (if bool_decide (Template.type t = "child")
   then all_chars (fun x => negb (Template.is_char x "}")) (Template.value t)
   else if bool_decide (Template.type t = "rule")
   then all_chars (fun x => negb (Template.is_char x "]")) (Template.value t)
   else if bool_decide (Template.type t = "splitter")
   then bool_decide (Template.value t = "|") || bool_decide (Template.value t = "||")
   else if bool_decide (Template.type t = "text")
   then all_chars plain_char (Template.value t) || entity_shape (Template.value t)
   else false).

(** A declaration of an item that [configItemBuilder] accepts: the
    declarations in its [ref] are accepted, and when its [type] is
    ["select"] its options are an array of options with string values. *)
Fixpoint decl_valid (item : ItemDecl) : bool :=
  match item with
  | Build_ItemDecl ty _ _ sel _ _ _ ref =>
      (fix all (l : list (string * ItemDecl)) : bool :=
         match l with
         | [] => true
         | (_, d) :: l' => decl_valid d && all l'
         end) ref
      && (negb (strict_eq ty (VStr "select")) || select_valid sel)
  end.

Definition refs_valid (item : ItemDecl) : bool :=
  forallb (fun kd => decl_valid (snd kd)) (d_ref item).

(** The parent a constructor insists on: a Tab for a Group, a Group for
    a Rule or Text, none for a Tab. *)
Definition parent_guard (h : list Node) (x : Declaration) : bool :=
  match declared_class x with
  | TabClass => true
  | GroupClass => parent_instanceof h (r_parent (declared x)) is_Tab
  | RuleClass | TextClass => parent_instanceof h (r_parent (declared x)) is_Group
  end.

(** The parent can take the child: there is none, or it has a
    [children] array. *)
Definition parent_pushable (h : list Node) (p : Parent) : bool :=
  match p with
  | NoParent => true
  | ParentNode r =>
      match h !! r with
      | Some n => bool_decide (is_Some (children n))
      | None => false
      end
  | ParentValue v =>
      negb (truthy v)
      || match get_prop v "children" with
         | Some (VArr _) => true
         | _ => false
         end
  end.

(** The result of a builder: an object, or a [TypeError]. *)
Definition built {A} (ok : bool) (r : (Exn + A) * nat) : Prop :=
  if ok then exists a n', r = (inr a, n')
  else exists msg n', r = (inl (TypeError msg), n').

(** The [id] and the [ref] of a built item. *)
Definition item_id (it : Item) : option string :=
  match it with
  | ConfigItemObj _ b _ => id b
  | BubbleObj i _ => i
  end.

Definition item_ref (it : Item) : list (string * Item) :=
  match it with
  | ConfigItemObj _ _ ref => ref
  | BubbleObj _ ref => ref
  end.

(** The [id] of an item declared under the key [k] in the [ref] of a
    context whose [id] is [context] while the item is built: its own
    [id], or else the key, behind the [id] of the context and a dot; a
    bubble gets no prefix. *)
Definition nested_id (context : option string) (k : string) (d : ItemDecl) : option string :=
  if item_type_is d "bubble" then own_id d (Some k)
  else if id_truthy (own_id d (Some k))
  then Some (ToString (from_option VStr VUndef context) +:+ "." +:+
             default "" (own_id d (Some k)))
  else own_id d (Some k).

(** *** Further samples *)

Definition sample_range : Variant :=
  RangeItem {| min := VNum (Fin 10); max := VNum (Fin 100); step := VNum (Fin 20) |}.

(** An item without an [id] and without a binding. *)
Definition unbound_binding : Binding :=
  {| id := None; configId := 0; configInitialized := false; config := None |}.

(** Rule [c]: string styles and no callbacks. *)
Definition sample_rule_c (p : Parent) : RuleDecl :=
  {| r_item := sample_item (Some "c"); r_parent := p; r_always := None;
     r_css := StyleString ".c{}"; r_acss := StyleString ".c{top:0}";
     r_init := None; r_ainit := None |}.

(** A Tab, a Group in it, and in the Group the rule [c], a Text without
    an [id] and the rule [b]. *)
Definition sample_declarations : list Declaration :=
  [ DeclTab (sample_decl (Some "t") NoParent);
    DeclGroup (sample_decl (Some "g") (ParentNode 0));
    DeclRule (sample_rule_c (ParentNode 1));
    DeclText (sample_decl None (ParentNode 1));
    DeclRule (sample_rule_b (ParentNode 1)) ].

(** An item [a] with a number item [b] in its [ref], which has a plain
    item [c] in its own. *)
Definition sample_nested : ItemDecl :=
  Build_ItemDecl VUndef (Some "a") None VUndef None None None
    [("b", Build_ItemDecl (VStr "number") None None VUndef None None None
             [("c", sample_item None)])].

(** The item built from it in a context with the [id] [r]. *)
Definition sample_nested_built : Item :=
  match fst (configItemBuilder sample_nested None (Some (Some "r")) 0%nat) with
  | inr it => it
  | inl _ => BubbleObj None []
  end.

Definition sample_tree : World :=
  declare_all sample_declarations (set_env sample_store empty_world).

(** The node of rule [c] in the sample tree. *)
Definition sample_node_c : Node :=
  {| cls := RuleClass;
     binding := {| id := Some "c"; configId := 2; configInitialized := false;
                   config := None |};
     node_ref := []; parent := ParentNode 1; own_always := None; children := None;
     css := StyleString ".c{}"; acss := StyleString ".c{top:0}";
     init := None; ainit := None |}.

(** ** Arithmetic of the snap to the grid *)

(** Every whole number up to [2^53] in magnitude is a double. *)
Lemma to_double_exact (z : Z) : Z.abs z <= 2 ^ 53 -> to_double z = Fin z.
Proof.
  intros Hz. destruct (decide (Z.abs z = 2 ^ 53)) as [Heq|Hne].
  - assert (z = 2 ^ 53 \/ z = - 2 ^ 53) as [-> | ->] by lia;
      vm_compute; reflexivity.
  - unfold to_double, round_magnitude.
    assert ((Z.abs z <? 2 ^ 53) = true) as -> by lia.
    assert ((2 ^ 1024 <=? Z.abs z) = false) as ->.
    { apply Z.leb_gt. eapply Z.le_lt_trans; [exact Hz|]. by vm_compute. }
    f_equal. lia.
Qed.

Lemma exact_span_spec (m c : Z) :
  exact_span m c <->
  Z.abs m <= 2 ^ 53 /\ Z.abs c <= 2 ^ 53 /\ Z.abs (c - m) <= 2 ^ 53.
Proof.
  unfold exact_span, exact_spanb. rewrite !andb_true_iff, !Z.leb_le. tauto.
Qed.

(** The remainder lies between zero and the dividend. *)
Lemma rem_between (y s : Z) :
  s <> 0 ->
  (0 <= y -> 0 <= Z.rem y s <= y) /\ (y <= 0 -> y <= Z.rem y s <= 0).
Proof.
  intros Hs.
  assert (forall z, 0 <= z -> 0 <= Z.rem z s <= z) as Hpos.
  { intros z Hz. split; [by apply Z.rem_nonneg|].
    destruct (Z.lt_total s 0) as [Hneg|[->|Hp]]; [|done|by apply Z.rem_le].
    rewrite <-(Z.opp_involutive s), Z.rem_opp_r by lia. apply Z.rem_le; lia. }
  split; [apply Hpos|].
  intros Hy. specialize (Hpos (- y) ltac:(lia)).
  rewrite Z.rem_opp_l in Hpos by done. lia.
Qed.

Lemma rem_bounds (x s : Z) : 0 <= x -> s <> 0 -> 0 <= Z.rem x s <= x.
Proof.
  intros Hx Hs. split; [by apply Z.rem_nonneg|].
  destruct (Z.lt_total s 0) as [Hneg|[->|Hpos]]; [|done|by apply Z.rem_le].
  rewrite <-(Z.opp_involutive s), Z.rem_opp_r by lia. apply Z.rem_le; lia.
Qed.

Lemma snap_on_grid (x s : Z) : s <> 0 -> x - Z.rem x s = (x ÷ s) * s.
Proof. intros Hs. pose proof (Z.quot_rem' x s). lia. Qed.

Lemma as_number_Fin (z : Z) : as_number (VNum (Fin z)) = Some (Fin z).
Proof. unfold as_number; simpl. by rewrite bool_decide_true. Qed.

Lemma as_number_spec (v : JsVal) :
  as_number v = match v with
                | VNum NaN => None
                | VNum n => Some n
                | _ => None
                end.
Proof.
  unfold as_number. destruct v as [| | [|] | n | str | |]; simpl; try done.
  - by destruct n; simpl; try rewrite bool_decide_true.
  - by destruct (StringToNumber str).
  - by destruct (StringToNumber _).
  - by destruct (StringToNumber _).
Qed.

Lemma clamp_snap_grid (m M s x : Z) :
  m <= M -> s <> 0 ->
  m <= clamp_snap m (Some M) (Some s) x <= M /\
  clamp_snap m (Some M) (Some s) x
  = m + ((clamp_snap m (Some M) (Some s) x - m) ÷ s) * s.
Proof.
  intros HmM Hs. unfold clamp_snap.
  set (x1 := if x <? m then m else x).
  set (x2 := if M <? x1 then M else x1).
  assert (m <= x2 <= M) as Hx2.
  { subst x2 x1. repeat case_match; lia. }
  pose proof (rem_bounds (x2 - m) s ltac:(lia) Hs) as Hr.
  pose proof (snap_on_grid (x2 - m) s Hs) as Hg.
  assert (x2 - Z.rem (x2 - m) s - m = (x2 - m) ÷ s * s) as Heq by lia.
  split; [lia|]. rewrite Heq. rewrite Z.quot_mul by done. lia.
Qed.

(** Clamping and snapping a second time changes nothing. *)
Lemma clamp_snap_idem (m : Z) (M s : option Z) (x : Z) :
  (forall M', M = Some M' -> m <= M') ->
  (forall s', s = Some s' -> s' <> 0) ->
  clamp_snap m M s (clamp_snap m M s x) = clamp_snap m M s x.
Proof.
  intros HM Hs. unfold clamp_snap.
  set (x1 := if x <? m then m else x).
  set (x2 := match M with Some M => if M <? x1 then M else x1 | None => x1 end).
  assert (m <= x2) as Hlo.
  { subst x2 x1. destruct M as [M'|]; [specialize (HM M' eq_refl)|];
      repeat case_match; lia. }
  assert (forall M', M = Some M' -> x2 <= M') as Hhi.
  { intros M' ->. subst x2 x1. repeat case_match; lia. }
  set (r := match s with Some s => x2 - Z.rem (x2 - m) s | None => x2 end).
  assert (m <= r <= x2) as Hr.
  { subst r. destruct s as [s'|]; [|lia].
    pose proof (rem_bounds (x2 - m) s' ltac:(lia) (Hs s' eq_refl)). lia. }
  assert ((if r <? m then m else r) = r) as -> by (case_match; lia).
  assert (match M with Some M => if M <? r then M else r | None => r end = r) as ->.
  { destruct M as [M'|]; [|done]. specialize (Hhi M' eq_refl). case_match; lia. }
  subst r. destruct s as [s'|]; [|done].
  specialize (Hs s' eq_refl).
  pose proof (snap_on_grid (x2 - m) s' Hs) as Hg.
  replace (x2 - Z.rem (x2 - m) s' - m) with ((x2 - m) ÷ s' * s') by lia.
  rewrite Z.rem_mul by done. lia.
Qed.

Lemma clamp_snap_min (m : Z) (M s : option Z) :
  (forall M', M = Some M' -> m <= M') ->
  (forall s', s = Some s' -> s' <> 0) ->
  clamp_snap m M s m = m.
Proof.
  intros HM Hs. unfold clamp_snap. rewrite Z.ltb_irrefl.
  assert (match M with Some M => if M <? m then M else m | None => m end = m) as ->.
  { destruct M as [M'|]; [|done]. specialize (HM M' eq_refl). case_match; lia. }
  destruct s as [s'|]; [|done]. rewrite Z.sub_diag, Z.rem_0_l by eauto. lia.
Qed.

Lemma number_attrs_ok_inv (a : NumberAttrs) :
  number_attrs_ok a = true ->
  exists m, min a = VNum (Fin m) /\
    (forall M', max_bound a = Some M' -> m <= M') /\
    max a <> VNum NInf /\
    (forall s', step_size a = Some s' -> s' <> 0) /\
    (forall M', max_bound a = Some M' -> exact_span m M') /\
    exact_span m m.
Proof.
  unfold number_attrs_ok, max_bound, step_size.
  destruct (min a) as [| | | [| | |m] | | |]; try done.
  intros [Hmax Hstep]%andb_prop. exists m. split; [done|].
  split; [|split; [|split; [|split]]].
  - intros M' HM'. destruct (max a) as [| | | [| | |M] | | |]; simplify_eq.
    apply andb_prop in Hmax as [?%Z.leb_le _]. lia.
  - intros E. by rewrite E in Hmax.
  - intros s' Hs'. destruct (step a) as [| | | [| | |st] | | |]; simplify_eq; lia.
  - intros M' HM'. destruct (max a) as [| | | [| | |M] | | |]; simplify_eq.
    by apply andb_prop in Hmax as [_ ?].
  - destruct (max a) as [| | | [| | |M] | | |]; try done.
    apply andb_prop in Hmax as [?%Z.leb_le Hspan].
    apply exact_span_spec in Hspan. apply exact_span_spec. lia.
Qed.

(** The clamped input of an item with good attributes and an input in
    range: it is not below [min], and double arithmetic is exact between
    the two. *)
Lemma clamped_in_span (a : NumberAttrs) (m : Z) (value : JsVal) (x : Z) :
  number_attrs_ok a = true -> min a = VNum (Fin m) ->
  input_in_range a value = true -> ToNumber value = Fin x ->
  m <= clamp_snap m (max_bound a) None x /\
  exact_span m (clamp_snap m (max_bound a) None x).
Proof.
  intros (m' & Hmin' & HM & _ & _ & Hspan & Hmm)%number_attrs_ok_inv Hmin Hin Hx.
  rewrite Hmin in Hmin'. injection Hmin' as <-.
  unfold input_in_range in Hin. rewrite Hmin, Hx in Hin. unfold clamp_snap.
  destruct (max_bound a) as [M|].
  - specialize (HM M eq_refl). specialize (Hspan M eq_refl).
    apply exact_span_spec in Hspan. rewrite exact_span_spec.
    repeat case_match; lia.
  - apply exact_span_spec in Hin. rewrite exact_span_spec.
    case_match; lia.
Qed.

Lemma normalize_nonfinite (a : NumberAttrs) (value : JsVal) :
  isFinite (ToNumber value) = false ->
  NumberConfigItem_normalize a value = min a.
Proof. intros H. unfold NumberConfigItem_normalize. by rewrite H. Qed.

(** [normalize] on a finite input, where double arithmetic is exact
    between [min] and the clamped input: the clamp and the snap are those
    of the whole numbers. *)
Lemma normalize_finite (a : NumberAttrs) (m : Z) (value : JsVal) (x : Z) :
  min a = VNum (Fin m) -> max a <> VNum NInf ->
  (forall s', step_size a = Some s' -> s' <> 0) ->
  ToNumber value = Fin x ->
  exact_span m (clamp_snap m (max_bound a) None x) ->
  NumberConfigItem_normalize a value
  = VNum (Fin (clamp_snap m (max_bound a) (step_size a) x)).
Proof.
  intros Hmin Hmax Hstep Hx Hspan. apply exact_span_spec in Hspan.
  assert (forall c st, st <> 0 -> Z.abs m <= 2 ^ 53 -> Z.abs c <= 2 ^ 53 ->
            Z.abs (c - m) <= 2 ^ 53 ->
            Num_sub (Fin c) (Num_rem (Num_sub (Fin c) (Fin m)) (Fin st))
            = Fin (c - Z.rem (c - m) st)) as Hsnap.
  { intros c st Hst Hm Hc Hcm. simpl. rewrite (to_double_exact (c - m)) by done.
    simpl. rewrite (proj2 (Z.eqb_neq st 0) Hst). simpl.
    apply to_double_exact. pose proof (rem_between (c - m) st Hst). lia. }
  revert Hspan.
  unfold NumberConfigItem_normalize, clamp_snap.
  rewrite Hx, Hmin. simpl. rewrite !as_number_spec. unfold max_bound, step_size in *.
  assert (forall y, (match match max a with
                           | VNum NaN => None | VNum n => Some n | _ => None
                           end with
                     | Some M => if Num_gt (Fin y) M then M else Fin y
                     | None => Fin y
                     end)
                    = Fin (match match max a with VNum (Fin M) => Some M | _ => None end with
                           | Some M => if M <? y then M else y
                           | None => y
                           end)) as HM.
  { intros y. destruct (max a) as [| | | [| | |M] | | |]; try done.
    unfold Num_gt; simpl. by destruct (M <? y). }
  cbn [Num_lt]. destruct (x <? m); rewrite HM; clear HM; intros (Hm & Hc & Hcm);
    (destruct (step a) as [| | | [| | |st] | | |]; try done;
     cbn [isFinite]; by rewrite Hsnap by eauto).
Qed.


(** ** The option list of a select item *)

Lemma strict_eq_string_inv (v : JsVal) (str : string) :
  strict_eq v (VStr str) = true -> v = VStr str.
Proof.
  destruct v as [| | | [| | |z] | x | |]; simpl; try done.
  by intros ->%bool_decide_eq_true.
Qed.

Lemma strict_eq_string_refl (str : string) : strict_eq (VStr str) (VStr str) = true.
Proof. simpl. by rewrite bool_decide_true. Qed.

Lemma strict_eq_string_l (str : string) (v : JsVal) :
  strict_eq (VStr str) v = true <-> v = VStr str.
Proof.
  split; [|intros ->; apply strict_eq_string_refl].
  destruct v; simpl; try done. by intros ->%bool_decide_eq_true.
Qed.

Lemma option_value_is_string_inv (item : JsVal) :
  option_value_is_string item = true <->
  exists str, get_prop item "value" = Some (VStr str).
Proof.
  unfold option_value_is_string. split.
  - destruct (get_prop item "value") as [[]|]; try done. eauto.
  - by intros [str ->].
Qed.

Lemma option_with_value_truthy (item : JsVal) (str : string) :
  get_prop item "value" = Some (VStr str) -> truthy item = true.
Proof. destruct item; simpl; try done. Qed.

(** The loop of the constructor against the predicate of the
    specification. *)
Lemma select_some_not_string_spec (items : list JsVal) :
  if forallb option_value_is_string items
  then select_some_not_string items = inr false
  else select_some_not_string items = inr true \/
       exists msg, select_some_not_string items = inl (TypeError msg).
Proof.
  induction items as [|item items IH]; simpl; [done|].
  unfold option_value_is_string at 1.
  destruct (get_prop item "value") as [v|] eqn:Hv; simpl; [|eauto].
  destruct v as [| | | n | str | |]; simpl; eauto.
  - destruct n; simpl; eauto.
  - rewrite bool_decide_true by done. simpl. done.
Qed.

Lemma SelectConfigItem_check_spec (opts : JsVal) :
  if select_valid opts
  then SelectConfigItem_check opts = inr tt
  else exists msg, SelectConfigItem_check opts = inl (TypeError msg).
Proof.
  unfold select_valid, SelectConfigItem_check.
  destruct opts as [| | [|] | [| | |z] | str | items | fields]; simpl; eauto.
  - destruct (negb (z =? 0)); simpl; eauto.
  - destruct (negb (bool_decide (str = ""))); simpl; eauto.
  - pose proof (select_some_not_string_spec items) as H.
    destruct (forallb option_value_is_string items).
    + by rewrite H.
    + destruct H as [->|[msg ->]]; eauto.
Qed.

Lemma SelectConfigItem_check_inv (opts : JsVal) :
  SelectConfigItem_check opts = inr tt ->
  exists items, opts = VArr items /\
    Forall (fun item => exists str, get_prop item "value" = Some (VStr str)) items.
Proof.
  intros Hc. pose proof (SelectConfigItem_check_spec opts) as H.
  destruct (select_valid opts) eqn:Hv; [|destruct H as [msg H]; congruence].
  unfold select_valid in Hv. destruct opts; try done.
  eexists; split; [done|].
  apply Forall_forall. intros item Hin. apply option_value_is_string_inv.
  rewrite forallb_forall in Hv. apply Hv. by apply list_elem_of_In.
Qed.

(** On string-valued options, [find] returns the first option whose value
    is [value], and nothing when there is none. *)
Lemma select_find_spec (items : list JsVal) (value : JsVal) :
  Forall (fun item => exists str, get_prop item "value" = Some (VStr str)) items ->
  (exists item, select_find items value = inr (Some item) /\
     item ∈ items /\ get_prop item "value" = Some value) \/
  (select_find items value = inr None /\
     forall item, item ∈ items -> get_prop item "value" <> Some value).
Proof.
  induction 1 as [|item items [str Hstr] _ IH]; simpl.
  - right. split; [done|]. intros item Hin. by apply elem_of_nil in Hin.
  - rewrite Hstr. destruct (strict_eq (VStr str) value) eqn:E.
    + apply strict_eq_string_l in E as ->. left. exists item.
      split; [done|]. split; [apply list_elem_of_here|done].
    + destruct IH as [(found & -> & Hin & Hval)|[-> Hnone]].
      * left. exists found. split; [done|]. split; [by apply list_elem_of_further|done].
      * right. split; [done|]. intros x [->|Hx]%elem_of_cons; [|by apply Hnone].
        rewrite Hstr. intros [= <-]. by rewrite strict_eq_string_refl in E.
Qed.


(** ** The typed variants: results *)

Lemma SelectConfigItem_normalize_value (items : list JsVal) (value : JsVal) :
  Forall (fun item => exists str, get_prop item "value" = Some (VStr str)) items ->
  (has_option items value /\
     SelectConfigItem_normalize (VArr items) value = inr value) \/
  (~ has_option items value /\
     SelectConfigItem_normalize (VArr items) value
     = inr (SelectConfigItem_initial (VArr items))).
Proof.
  intros Hitems. unfold SelectConfigItem_normalize, has_option.
  destruct (select_find_spec items value Hitems)
    as [(found & -> & Hin & Hval)|[-> Hnone]]; simpl.
  - left. split; [eauto|].
    assert (truthy found = true) as ->; [|done].
    destruct (proj1 (Forall_forall _ _) Hitems found Hin) as [str Hstr].
    by eapply option_with_value_truthy.
  - right. split; [|done]. intros (item & Hin & Hval). by eapply Hnone.
Qed.

Lemma SelectConfigItem_initial_first (first : JsVal) (rest : list JsVal) (str : string) :
  get_prop first "value" = Some (VStr str) ->
  SelectConfigItem_initial (VArr (first :: rest)) = VStr str.
Proof.
  intros Hv. unfold SelectConfigItem_initial. simpl.
  rewrite (option_with_value_truthy _ _ Hv). simpl. by rewrite Hv.
Qed.

Lemma SelectConfigItem_normalize_idem (opts value : JsVal) :
  SelectConfigItem_check opts = inr tt ->
  exists r, SelectConfigItem_normalize opts value = inr r /\
            SelectConfigItem_normalize opts r = inr r.
Proof.
  intros (items & -> & Hitems)%SelectConfigItem_check_inv.
  destruct (SelectConfigItem_normalize_value items value Hitems) as [[_ H]|[_ H]].
  - by exists value.
  - exists (SelectConfigItem_initial (VArr items)). split; [done|].
    by destruct (SelectConfigItem_normalize_value items
                   (SelectConfigItem_initial (VArr items)) Hitems) as [[_ H']|[_ H']].
Qed.

(** The snapped value lies between [min] and the clamped input, and
    the clamp leaves it where it is. *)
Lemma clamp_snap_between (m : Z) (M s : option Z) (x : Z) :
  (forall M', M = Some M' -> m <= M') ->
  (forall s', s = Some s' -> s' <> 0) ->
  m <= clamp_snap m M s x <= clamp_snap m M None x /\
  clamp_snap m M None (clamp_snap m M s x) = clamp_snap m M s x.
Proof.
  intros HM Hs. unfold clamp_snap.
  set (x1 := if x <? m then m else x).
  set (x2 := match M with Some M => if M <? x1 then M else x1 | None => x1 end).
  assert (m <= x2) as Hlo.
  { subst x2 x1. destruct M as [M'|]; [specialize (HM M' eq_refl)|];
      repeat case_match; lia. }
  assert (forall M', M = Some M' -> x2 <= M') as Hhi.
  { intros M' ->. subst x2 x1. repeat case_match; lia. }
  set (r := match s with Some s => x2 - Z.rem (x2 - m) s | None => x2 end).
  assert (m <= r <= x2) as Hr.
  { subst r. destruct s as [s'|]; [|lia].
    pose proof (rem_bounds (x2 - m) s' ltac:(lia) (Hs s' eq_refl)). lia. }
  split; [done|].
  assert ((if r <? m then m else r) = r) as -> by (case_match; lia).
  destruct M as [M'|]; [|done]. specialize (Hhi M' eq_refl). case_match; lia.
Qed.

Lemma exact_span_between (m c r : Z) :
  exact_span m c -> m <= r <= c -> exact_span m r.
Proof. rewrite !exact_span_spec. lia. Qed.

Lemma NumberConfigItem_normalize_idem (a : NumberAttrs) (value : JsVal) :
  number_attrs_ok a = true -> input_in_range a value = true ->
  NumberConfigItem_normalize a (NumberConfigItem_normalize a value)
  = NumberConfigItem_normalize a value.
Proof.
  intros Hok Hin.
  pose proof Hok as (m & Hmin & HM & Hmax & Hs & _ & Hmm)%number_attrs_ok_inv.
  assert (clamp_snap m (max_bound a) None m = m) as Hcm.
  { apply clamp_snap_min; [done|by intros]. }
  destruct (ToNumber value) as [| | |x] eqn:Hx.
  1-3: rewrite (normalize_nonfinite a value) by (by rewrite Hx);
       rewrite Hmin, (normalize_finite a m (VNum (Fin m)) m);
       [by rewrite clamp_snap_min|done..|by rewrite Hcm].
  destruct (clamped_in_span a m value x Hok Hmin Hin Hx) as [Hlo Hspan].
  destruct (clamp_snap_between m (max_bound a) (step_size a) x HM Hs) as [Hr Hcr].
  rewrite (normalize_finite a m value x) by done.
  rewrite (normalize_finite a m _ (clamp_snap m (max_bound a) (step_size a) x));
    [by rewrite clamp_snap_idem|done..|].
  rewrite Hcr. by eapply exact_span_between.
Qed.



(** C8 (amended).  For a Select item that its constructor accepted, and
    every value: when some declared option has the value, [normalize]
    returns the value itself; otherwise it returns the initial value,
    which is the value of the first option, or [null] when the option
    list is empty.  With a non-empty option list, [normalize] returns the
    value itself exactly when some declared option has it. *)
Theorem SelectConfigItem_normalize_fallback (items : list JsVal) (value : JsVal) :
  SelectConfigItem_check (VArr items) = inr tt ->
  exists r, normalize (SelectItem (VArr items)) value = inr r /\
    (has_option items value -> r = value) /\
    (~ has_option items value ->
       r = initial (SelectItem (VArr items)) /\
       match items with
       | first :: _ => get_prop first "value" = Some r
       | [] => r = VNull
       end) /\
    (items <> [] -> (r = value <-> has_option items value)).
Proof.
  intros (items' & [= <-] & Hitems)%SelectConfigItem_check_inv.
  unfold normalize, initial.
  assert (match items with
          | first :: _ =>
              get_prop first "value" = Some (SelectConfigItem_initial (VArr items))
          | [] => SelectConfigItem_initial (VArr items) = VNull
          end) as Hinitial.
  { destruct items as [|first rest]; [done|].
    pose proof (Forall_inv Hitems) as [str Hstr]; simpl in Hstr.
    by rewrite (SelectConfigItem_initial_first _ _ _ Hstr). }
  destruct (SelectConfigItem_normalize_value _ value Hitems) as [[Hhas ->]|[Hnot ->]].
  - exists value. split; [done|]. split; [done|]. split; [by intros []|done].
  - eexists. split; [done|]. split; [by intros ?|]. split; [done|].
    intros Hne. split; [|done]. intros Heq.
    destruct items as [|first rest]; [done|]. rewrite Heq in Hinitial.
    exists first. split; [apply list_elem_of_here|done].
Qed.

(** C7 (amended).  Once the [ConfigItem] constructor has run, the
    [SelectConfigItem] constructor succeeds exactly when [select] is an
    array whose options all carry a string value, an empty array
    included; when [select] is absent or not an array, or an option has
    a value that is not a string, it throws a [TypeError]. *)
Theorem SelectConfigItem_new_checks
    (item : ItemDecl) (key : option string) (context : option (option string))
    (n n' : nat) (b : Binding) (ref : list (string * Item)) :
  ConfigItem_new item key context n = (inr (b, ref), n') ->
  (select_valid (d_select item) = true ->
     SelectConfigItem_new item key context n
     = (inr (ConfigItemObj (SelectItem (d_select item)) b ref), n')) /\
  (select_valid (d_select item) = false ->
     exists msg, SelectConfigItem_new item key context n = (inl (TypeError msg), n')).
Proof.
  intros Hnew. unfold SelectConfigItem_new, bind. rewrite Hnew.
  pose proof (SelectConfigItem_check_spec (d_select item)) as Hc.
  split; intros Hv; rewrite Hv in Hc.
  - by rewrite Hc.
  - destruct Hc as [msg Hc]. exists msg. by rewrite Hc.
Qed.


(** ** The config binding: results *)

Lemma pretty_N_go_length (x : N) (acc : string) :
  (String.length acc <= String.length (pretty_N_go x acc))%nat.
Proof.
  revert acc. induction (N.lt_wf_0 x) as [x _ IH]. intros acc.
  destruct (decide (0 < x)%N) as [Hpos|Hz].
  - rewrite pretty_N_go_step by done.
    etrans; [|apply IH; by apply N.div_lt]. simpl. lia.
  - assert (x = 0%N) as -> by lia. by rewrite pretty_N_go_0.
Qed.

Lemma pretty_Z_nonempty (z : Z) : pretty z <> "".
Proof.
  assert (forall p : positive, pretty (N.pos p) <> "") as Hpos.
  { intros p. unfold pretty, pretty_N. rewrite decide_False by done.
    rewrite pretty_N_go_step by lia.
    intros E. pose proof (pretty_N_go_length (N.pos p `div` 10)
      (String (pretty_N_char (N.pos p `mod` 10)) "")) as Hlen.
    rewrite E in Hlen. simpl in Hlen. lia. }
  destruct z as [|p|p]; [done|apply Hpos|].
  unfold pretty, pretty_Z. done.
Qed.

Lemma append_nonempty (a b : string) : b <> "" -> a +:+ b <> "".
Proof. intros Hb. destruct a as [|c a]; [done|]. simpl. done. Qed.

Lemma whole_toString_nonempty (z : Z) : whole_toString z <> "".
Proof.
  unfold whole_toString. case_match; [apply pretty_Z_nonempty|].
  apply append_nonempty. case_match; [apply pretty_Z_nonempty|].
  unfold exponent_form. repeat case_match; try done. apply pretty_Z_nonempty.
Qed.

Lemma JSON_stringify_defined (v : JsVal) :
  v <> VUndef -> exists j, JSON_stringify v = Some j /\ j <> "".
Proof.
  destruct v as [| |[|]|[| | |z]| | |]; simpl; intros Hv; try done; eauto.
  eexists; split; [done|]. apply whole_toString_nonempty.
Qed.

Lemma truthy_defined (v : JsVal) : truthy v = true -> v <> VUndef.
Proof. by destruct v. Qed.

(** A truthy raw value is written back unless the normalized value is
    the serialization of the raw value itself, or is [undefined]. *)
Lemma getConfig_writes_back_true (value normalized : JsVal) :
  truthy value = true -> normalized <> VUndef ->
  (forall j, JSON_stringify value = Some j -> normalized <> VStr j) ->
  getConfig_writes_back value normalized = true.
Proof.
  intros Ht Hn Hj. unfold getConfig_writes_back.
  destruct (JSON_stringify_defined value (truthy_defined _ Ht)) as (j & Ej & _).
  destruct (JSON_stringify_defined normalized Hn) as (j' & Ej' & Hj').
  rewrite Ht, Ej, Ej'. cbn [from_option andb].
  assert (strict_eq (VStr j) normalized = false) as ->.
  { destruct (strict_eq (VStr j) normalized) eqn:E; [|done].
    apply strict_eq_string_l in E. by destruct (Hj j Ej). }
  simpl. by rewrite bool_decide_false.
Qed.

Lemma getConfig_writes_back_falsy (value normalized : JsVal) :
  truthy value = false -> getConfig_writes_back value normalized = false.
Proof. intros Ht. unfold getConfig_writes_back. by rewrite Ht. Qed.

(** [initConfig] on an item that has a key to bind: the binding is in
    place afterwards and the store is as before. *)
Lemma initConfig_binds (b : Binding) (e : Env) (key : string) :
  binding_key b = Some key ->
  exists b' e', initConfig (b, e) = (inr tt, (b', e')) /\
    config b' = Some key /\
    store e' = store e /\ store_writes e' = store_writes e /\
    rule_style e' = rule_style e /\ debug_log e' = debug_log e /\ page e' = page e.
Proof.
  unfold binding_key, initConfig, bind, get_state. simpl.
  destruct (configInitialized b) eqn:Hi.
  - destruct (config b) eqn:Hc; [|done]. intros [= ->].
    exists b, e. by rewrite Hc.
  - destruct (config b) as [k|] eqn:Hc.
    + intros [= ->]. eexists _, _. split; [reflexivity|done].
    + destruct (id b) as [i|] eqn:Hid; simpl; [|done].
      destruct (id_truthy (Some i)) eqn:Hti; [|done]. intros [= ->].
      eexists _, _. split; [reflexivity|done].
Qed.

(** C1 (amended).  For an item that has a key to bind, [getConfig]
    reads the raw value of that key, normalizes it and returns the
    normalized value.  It writes the store at most once, and what it
    writes is the normalized value under the item's key.  A falsy raw
    value (an absent one included) is never written back, whether or not
    normalization changed it.  A truthy raw value that normalization
    changed structurally is written back, provided the normalized value
    is neither [undefined] nor the serialization of the raw value. *)
Theorem getConfig_self_heals (v : Variant) (b : Binding) (e : Env)
    (key : string) (n : JsVal) :
  binding_key b = Some key ->
  normalize v (default VUndef (store e !! key)) = inr n ->
  exists b' e',
    getConfig v (b, e) = (inr n, (b', e')) /\
    (store e' = store e /\ store_writes e' = store_writes e \/
     store e' = <[key := n]> (store e) /\
     store_writes e' = (key, n) :: store_writes e) /\
    (truthy (default VUndef (store e !! key)) = false ->
     store e' = store e /\ store_writes e' = store_writes e) /\
    (truthy (default VUndef (store e !! key)) = true ->
     changed_structurally (default VUndef (store e !! key)) n ->
     n <> VUndef ->
     (forall j, JSON_stringify (default VUndef (store e !! key)) = Some j -> n <> VStr j) ->
     store e' = <[key := n]> (store e) /\
     store_writes e' = (key, n) :: store_writes e).
Proof.
  intros Hkey Hn.
  destruct (initConfig_binds b e key Hkey)
    as (b1 & e1 & Hinit & Hc & Hst & Hw & _).
  unfold getConfig, bind. rewrite Hinit. simpl. rewrite Hc. simpl.
  rewrite Hst, Hn. simpl.
  destruct (getConfig_writes_back (default VUndef (store e !! key)) n) eqn:Hwb; simpl.
  - eexists _, _. split; [done|]. simpl. rewrite Hst, Hw.
    split; [by right|]. split; [|done].
    intros Hf. by rewrite getConfig_writes_back_falsy in Hwb.
  - eexists _, _. split; [done|]. simpl.
    split; [by left|]. split; [done|].
    intros Ht _ Hu Hj. by rewrite getConfig_writes_back_true in Hwb.
Qed.


(** ** The constructors of the tree: results *)

(** C2.  A Group whose declared parent is not a Tab, and a Rule or Text
    whose declared parent is not a Group, is refused at once with a
    [TypeError], and the world is left as it was: no node is created,
    no [children] list and no registry has grown. *)
Theorem structural_error_registers_nothing (d : RuleDecl) (w : World) :
  (parent_instanceof (heap w) (r_parent d) is_Tab = false ->
     groupBuilder d w = (inl (TypeError "Group must in some Tab"), w)) /\
  (parent_instanceof (heap w) (r_parent d) is_Group = false ->
     ruleBuilder d w = (inl (TypeError "Rule must in some Group"), w) /\
     textBuilder d w = (inl (TypeError "Rule must in some Group"), w)).
Proof.
  split; intros Hp.
  - unfold groupBuilder, bind, get_state. by rewrite Hp.
  - unfold textBuilder, ruleBuilder, Rule_new, bind, get_state. by rewrite Hp.
Qed.


(** ** [execute] and [rule.init]: results *)

Lemma forEach_app {S A} (f : A -> M S unit) (l1 l2 : list A) (s : S) :
  forEach f (l1 ++ l2) s
  = match forEach f l1 s with
    | (inr _, s1) => forEach f l2 s1
    | (inl e, s1) => (inl e, s1)
    end.
Proof.
  revert s. induction l1 as [|x l1 IH]; intros s; simpl; [done|].
  unfold bind. destruct (f x s) as [[e|[]] s1]; [done|]. apply IH.
Qed.

Lemma getConfig_Boolean_returns (b : Binding) (e : Env) (key : string) :
  binding_key b = Some key ->
  exists r b' e', getConfig BooleanItem (b, e) = (inr r, (b', e')) /\
                  config b' = Some key.
Proof.
  intros Hkey.
  destruct (initConfig_binds b e key Hkey) as (b1 & e1 & Hinit & Hc & _).
  unfold getConfig, bind. rewrite Hinit. simpl. rewrite Hc. simpl.
  destruct (getConfig_writes_back _ _); simpl;
    eexists _, _, _; (split; [reflexivity|done]).
Qed.

Lemma binding_key_bound (b : Binding) (key : string) :
  config b = Some key -> binding_key b = Some key.
Proof. unfold binding_key. by intros ->. Qed.

Lemma can_read_spec (h : list Node) (this : nat) :
  can_read h this <->
  exists n, h !! this = Some n /\
    (node_always n = true \/ is_Some (binding_key (binding n))).
Proof.
  unfold can_read, can_readb. destruct (h !! this) as [n|]; split.
  - intros [Hal|Hk%bool_decide_eq_true]%orb_prop; eauto.
  - intros (? & [= <-] & [->|Hk]); [done|].
    rewrite (bool_decide_true _ Hk). apply orb_true_r.
  - done.
  - by intros (? & ? & _).
Qed.

Lemma can_read_insert (h : list Node) (this : nat) (n : Node) (b : Binding) (key : string) :
  h !! this = Some n -> config b = Some key ->
  forall r, can_read h r -> can_read (<[this := set_binding b n]> h) r.
Proof.
  intros Hn Hb r (m & Hm & Hok)%can_read_spec. apply can_read_spec.
  destruct (decide (r = this)) as [->|Hne].
  - exists (set_binding b n). split.
    + apply list_lookup_insert_eq. by eapply lookup_lt_Some.
    + right. simpl. rewrite (binding_key_bound _ _ Hb). by eexists.
  - exists m. split; [|done]. by rewrite list_lookup_insert_ne.
Qed.

(** [isEnabled] returns on a node whose config can be read, and leaves
    every such node readable. *)
Lemma isEnabled_returns (w : World) (this : nat) :
  can_read (heap w) this ->
  exists enabled w1, isEnabled this w = (inr enabled, w1) /\
    (forall r, can_read (heap w) r -> can_read (heap w1) r) /\
    is_Some (heap w1 !! this).
Proof.
  intros (n & Hn & Hok)%can_read_spec. unfold isEnabled, bind, get_state. rewrite Hn.
  destruct (node_always n) eqn:Hal.
  - exists (VBool true), w. split; [done|]. split; [done|]. by rewrite Hn.
  - destruct Hok as [?|[key Hkey]]; [congruence|].
    unfold on_node. rewrite Hn.
    destruct (getConfig_Boolean_returns (binding n) (env w) key Hkey)
      as (r & b' & e' & -> & Hb').
    eexists _, _. split; [done|]. simpl. split.
    + by eapply can_read_insert.
    + rewrite list_lookup_insert_eq; [done|]. by eapply lookup_lt_Some.
Qed.

(** What [execute] does once [isEnabled] has returned: the [try] block
    runs, and an exception of it ends in the debug log. *)
Lemma execute_after_isEnabled (w w1 : World) (this : nat) (enabled : JsVal) (n : Node) :
  isEnabled this w = (inr enabled, w1) ->
  heap w1 !! this = Some n ->
  execute this w
  = match execute_body n enabled (env w1) with
    | (inr _, e2) => (inr tt, set_env e2 w1)
    | (inl exn, e2) => (inr tt, set_env (snd (util_debug this exn e2)) w1)
    end.
Proof.
  intros He Hn. unfold execute, bind at 1. rewrite He.
  unfold bind, get_state. rewrite Hn. unfold on_world, zoom, try_catch.
  by destruct (execute_body n enabled (env w1)) as [[exn|[]] e2].
Qed.

Lemma execute_returns (w : World) (this : nat) :
  can_read (heap w) this ->
  exists w', execute this w = (inr tt, w') /\
    (forall r, can_read (heap w) r -> can_read (heap w') r).
Proof.
  intros Hr.
  destruct (isEnabled_returns w this Hr) as (enabled & w1 & He & Hkeep & [n Hn]).
  rewrite (execute_after_isEnabled w w1 this enabled n He Hn).
  destruct (execute_body n enabled (env w1)) as [[exn|[]] e2];
    eexists; (split; [done|]); simpl; done.
Qed.

Lemma forEach_execute_returns (rules : list nat) (w : World) :
  Forall (can_read (heap w)) rules ->
  exists w', forEach execute rules w = (inr tt, w') /\
    (forall r, can_read (heap w) r -> can_read (heap w') r).
Proof.
  revert w. induction rules as [|r rules IH]; intros w Hall; simpl.
  - by exists w.
  - apply Forall_cons in Hall as [Hr Hall].
    destruct (execute_returns w r Hr) as (w1 & He & Hkeep).
    unfold bind. rewrite He.
    destruct (IH w1) as (w2 & Hw2 & Hkeep2).
    { eapply Forall_impl; [done|]. intros x. apply Hkeep. }
    exists w2. split; [done|]. intros x Hx. by apply Hkeep2, Hkeep.
Qed.

Lemma isEnabled_keeps_node (w w1 : World) (this : nat) (enabled : JsVal) :
  isEnabled this w = (inr enabled, w1) -> is_Some (heap w1 !! this).
Proof.
  unfold isEnabled, bind, get_state.
  destruct (heap w !! this) as [n|] eqn:Hn; [|done].
  destruct (node_always n).
  - intros [= _ <-]. by rewrite Hn.
  - unfold on_node. rewrite Hn.
    destruct (getConfig BooleanItem (binding n, env w)) as [r [b e]].
    intros [= _ <-]. simpl.
    rewrite list_lookup_insert_eq; [done|]. by eapply lookup_lt_Some.
Qed.

(** The [try] block of [execute] runs the steps 2 to 5 of the
    specification. *)
Lemma execute_body_steps (n : Node) (enabled : JsVal) (e : Env) :
  execute_body n enabled e = steps_2_to_5 n (truthy enabled) e.
Proof.
  unfold execute_body, steps_2_to_5.
  change collect_style with style_text. change call_if_function with callback.
  unfold bind.
  destruct (style_text (css n) e) as [[x|static] env1]; [done|].
  destruct (truthy enabled).
  - destruct (style_text (acss n) env1) as [[x|conditional] env2]; [done|].
    unfold ret at 1.
    by destruct (style_append _ env2) as [[x|[]] env3].
  - unfold ret at 1 3. rewrite app_nil_r.
    by destruct (style_append _ env1) as [[x|[]] env3].
Qed.

(** [execute] on a rule whose enabled state can be read is the execution
    of the specification. *)
Lemma execute_rule_executed (w : World) (r : nat) :
  can_read (heap w) r ->
  execute r w = (inr tt, rule_executed r w) /\
  (forall x, can_read (heap w) x -> can_read (heap (rule_executed r w)) x).
Proof.
  intros Hr.
  destruct (isEnabled_returns w r Hr) as (enabled & w1 & He & Hkeep & [n Hn]).
  rewrite (execute_after_isEnabled w w1 r enabled n He Hn), execute_body_steps.
  unfold rule_executed, isolated. rewrite He, Hn.
  by destruct (steps_2_to_5 n (truthy enabled) (env w1)) as [[exn|[]] e2].
Qed.

Lemma forEach_execute_batch (rules : list nat) (w : World) :
  Forall (can_read (heap w)) rules ->
  forEach execute rules w = (inr tt, batch_executed rules w).
Proof.
  revert w. induction rules as [|r rules IH]; intros w Hall; simpl; [done|].
  apply Forall_cons in Hall as [Hr Hall].
  destruct (execute_rule_executed w r Hr) as [He Hkeep].
  unfold bind. rewrite He. apply IH.
  eapply Forall_impl; [done|]. intros x. apply Hkeep.
Qed.


Lemma node_unchanged (n : Node) : set_binding (binding n) n = n.
Proof. by destruct n. Qed.

Lemma world_unchanged (w : World) : set_env (env w) (set_heap (heap w) w) = w.
Proof. by destruct w. Qed.

(** [isEnabled] on a node that is no always-item and has neither a
    binding nor an [id]: the missing-id error, and nothing has changed. *)
Lemma isEnabled_missing_id (w : World) (this : nat) (n : Node) :
  heap w !! this = Some n ->
  node_always n = false ->
  configInitialized (binding n) = false ->
  config (binding n) = None ->
  id_truthy (id (binding n)) = false ->
  isEnabled this w = (inl (Error "id is required to init config"), w).
Proof.
  intros Hn Hal Hi Hc Hid. unfold isEnabled, bind, get_state. rewrite Hn, Hal.
  unfold on_node. rewrite Hn.
  assert (getConfig BooleanItem (binding n, env w)
          = (inl (Error "id is required to init config"), (binding n, env w))) as ->.
  { unfold getConfig, initConfig, bind, get_state. simpl. rewrite Hi, Hc.
    destruct (id (binding n)) as [i|]; [|done]. by rewrite Hid. }
  by rewrite node_unchanged, list_insert_id, world_unchanged.
Qed.

(** C10.  [execute] asks [isEnabled] before it enters its [try] block.
    When the config read of a rule that the batch reaches throws, the
    exception leaves [execute] uncaught, the steps of the rule do not run,
    and the batch ends with that exception in the state the read left: no
    rule after it is executed.  So does [rule.init], whose batch is the
    result of [query].  A rule that is no always-item and has neither a
    binding nor an [id] is such a rule: its read throws the missing-id
    error and changes nothing. *)
Theorem config_read_failure_aborts_batch
    (w w1 w1' : World) (before after : list nat) (a : nat) (e : Exn) :
  forEach execute before w = (inr tt, w1) ->
  isEnabled a w1 = (inl e, w1') ->
  execute a w1 = (inl e, w1') /\
  forEach execute (before ++ a :: after) w = (inl e, w1') /\
  (forall w0, w = with_rule_style w0 ->
     query_in (heap w0) (tabs w0) = Some (before ++ a :: after) ->
     rule_init w0 = (inl e, w1')) /\
  (forall n, heap w1 !! a = Some n ->
     node_always n = false ->
     configInitialized (binding n) = false ->
     config (binding n) = None ->
     id_truthy (id (binding n)) = false ->
     e = Error "id is required to init config" /\ w1' = w1).
Proof.
  intros Hbefore He.
  assert (execute a w1 = (inl e, w1')) as Hx.
  { unfold execute, bind. by rewrite He. }
  assert (forEach execute (before ++ a :: after) w = (inl e, w1')) as Hall.
  { rewrite forEach_app, Hbefore. simpl. unfold bind. by rewrite Hx. }
  split; [done|]. split; [done|]. split.
  - intros w0 -> Hq. rewrite <-Hall.
    unfold rule_init, query, on_world, zoom, bind, get_state. simpl.
    by rewrite Hq.
  - intros n Hn Hal Hi Hc Hid.
    rewrite (isEnabled_missing_id w1 a n Hn Hal Hi Hc Hid) in He.
    by injection He as <- <-.
Qed.

(** ** [query]: results *)

Lemma query_walk_nil (fuel : nat) (h : list Node) (result : list nat) :
  query_walk (S fuel) h [] result = Some result.
Proof. done. Qed.

Lemma query_walk_cons (fuel : nat) (h : list Node) (item : nat)
    (items result : list nat) :
  query_walk (S fuel) h (item :: items) result
  = match (if node_instanceof h item is_Tab || node_instanceof h item is_Group
           then query_walk fuel h (default [] (h !! item ≫= children)) result
           else Some result) with
    | None => None
    | Some result1 => query_walk (S fuel) h items (add_all result1 (rule_self h item))
    end.
Proof.
  simpl. unfold rule_self, add_all.
  destruct (if node_instanceof h item is_Tab || node_instanceof h item is_Group
            then _ else _); [|done].
  by destruct (node_instanceof h item is_Rule).
Qed.

Lemma add_all_app (result o1 o2 : list nat) :
  add_all result (o1 ++ o2) = add_all (add_all result o1) o2.
Proof. apply foldl_app. Qed.

Lemma children_later (h : list Node) (item c : nat) :
  wf_heap h -> c ∈ children_of h item -> (item < c < S c)%nat /\ (item < length h)%nat.
Proof.
  intros Hwf. unfold children_of, node_instanceof.
  destruct (h !! item) as [n|] eqn:Hn; simpl; [|by intros ?%elem_of_nil].
  destruct (is_Tab (cls n) || is_Group (cls n)); [|by intros ?%elem_of_nil].
  apply lookup_lt_Some in Hn as Hlt.
  destruct (children n) as [cs|] eqn:Hcs; simpl; [|by intros ?%elem_of_nil].
  intros Hc. pose proof (Hwf item n cs c Hn Hcs Hc). lia.
Qed.

(** With fuel above the number of nodes the walk finishes, and it adds
    the Rule nodes in the depth-first order. *)
Lemma query_walk_spec (h : list Node) :
  wf_heap h ->
  forall (fuel k : nat) (items result : list nat),
    (forall i, i ∈ items -> (k <= i)%nat) ->
    (length h - k < fuel)%nat ->
    exists order, Walk h items order /\
      query_walk fuel h items result = Some (add_all result order).
Proof.
  intros Hwf fuel. induction fuel as [|fuel IHfuel]; intros k items; [lia|].
  induction items as [|item items IHitems]; intros result Hk Hfuel.
  - exists []. split; [constructor|done].
  - rewrite query_walk_cons.
    assert (exists below, Walk h (children_of h item) below /\
              (if node_instanceof h item is_Tab || node_instanceof h item is_Group
               then query_walk fuel h (default [] (h !! item ≫= children)) result
               else Some result) = Some (add_all result below))
      as (below & Hbelow & ->).
    { destruct (node_instanceof h item is_Tab || node_instanceof h item is_Group) eqn:HC.
      - assert (children_of h item = default [] (h !! item ≫= children)) as Hcs.
        { unfold children_of. by rewrite HC. }
        rewrite <-Hcs.
        assert (item < length h)%nat as Hlt.
        { unfold node_instanceof in HC.
          destruct (h !! item) eqn:E; [by eapply lookup_lt_Some|done]. }
        apply (IHfuel (S item)).
        + intros c Hc. apply (children_later h item c Hwf) in Hc. lia.
        + specialize (Hk item (list_elem_of_here _ _)). lia.
      - exists []. split; [|done].
        unfold children_of. rewrite HC. constructor. }
    destruct (IHitems (add_all (add_all result below) (rule_self h item)))
      as (rest & Hrest & ->); [|done|].
    { intros i Hi. apply Hk. by apply list_elem_of_further. }
    exists (below ++ rule_self h item ++ rest). split; [by constructor|].
    by rewrite !add_all_app.
Qed.

Lemma add_all_first_occurrences (order result : list nat) :
  add_all result order = result ++ first_occurrences result order.
Proof.
  revert result. induction order as [|x order IH]; intros result; simpl.
  - by rewrite app_nil_r.
  - unfold add_all in *. simpl. unfold set_add at 2. case_bool_decide.
    + apply IH.
    + by rewrite IH, <-app_assoc.
Qed.

Lemma first_occurrences_elem (order seen : list nat) (x : nat) :
  x ∈ first_occurrences seen order <-> x ∈ order /\ x ∉ seen.
Proof.
  revert seen. induction order as [|y order IH]; intros seen; simpl.
  - split; [by intros ?%elem_of_nil|by intros [?%elem_of_nil _]].
  - case_bool_decide as Hy.
    + rewrite IH, elem_of_cons. naive_solver.
    + rewrite !elem_of_cons, IH, elem_of_app, list_elem_of_singleton.
      destruct (decide (x = y)); naive_solver.
Qed.

Lemma first_occurrences_NoDup (order seen : list nat) :
  NoDup (first_occurrences seen order).
Proof.
  revert seen. induction order as [|y order IH]; intros seen; simpl.
  - constructor.
  - case_bool_decide; [done|]. constructor; [|done].
    rewrite first_occurrences_elem, elem_of_app, list_elem_of_singleton. naive_solver.
Qed.

Lemma first_occurrences_sublist (order seen : list nat) :
  sublist (first_occurrences seen order) order.
Proof.
  revert seen. induction order as [|y order IH]; intros seen; simpl; [done|].
  case_bool_decide; [by apply sublist_cons|by apply sublist_skip].
Qed.

Lemma Reach_tail (h : list Node) (item : nat) (items : list nat) (r : nat) :
  Reach h items r -> Reach h (item :: items) r.
Proof.
  induction 1 as [r Hr|p c _ IH Hc].
  - apply Reach_base. by apply list_elem_of_further.
  - by eapply Reach_child.
Qed.

Lemma Reach_below (h : list Node) (item : nat) (items : list nat) (r : nat) :
  Reach h (children_of h item) r -> Reach h (item :: items) r.
Proof.
  induction 1 as [r Hr|p c _ IH Hc].
  - eapply Reach_child; [|done]. apply Reach_base, list_elem_of_here.
  - by eapply Reach_child.
Qed.

Lemma Reach_cons_inv (h : list Node) (item : nat) (items : list nat) (r : nat) :
  Reach h (item :: items) r ->
  r = item \/ Reach h (children_of h item) r \/ Reach h items r.
Proof.
  induction 1 as [r Hr|p c _ IH Hc].
  - apply elem_of_cons in Hr as [->|Hr]; [by left|]. right; right. by apply Reach_base.
  - destruct IH as [->|[IH|IH]].
    + right; left. by apply Reach_base.
    + right; left. by eapply Reach_child.
    + right; right. by eapply Reach_child.
Qed.

(** The depth-first order lists exactly the Rule nodes that can be
    reached. *)
Lemma Walk_elem (h : list Node) (items order : list nat) :
  Walk h items order ->
  forall r, r ∈ order <-> Reach h items r /\ node_instanceof h r is_Rule = true.
Proof.
  induction 1 as [|item items below rest _ IHbelow _ IHrest]; intros r.
  - split; [by intros ?%elem_of_nil|].
    intros [Hr _]. exfalso. clear -Hr.
    induction Hr as [r Hr|]; [by apply elem_of_nil in Hr|done].
  - rewrite !elem_of_app, IHbelow, IHrest. unfold rule_self. split.
    + intros [[Hr ?]|[Hr|[Hr ?]]].
      * split; [by apply Reach_below|done].
      * destruct (node_instanceof h item is_Rule) eqn:E; [|by apply elem_of_nil in Hr].
        apply list_elem_of_singleton in Hr as ->.
        split; [apply Reach_base, list_elem_of_here|done].
      * split; [by apply Reach_tail|done].
    + intros [Hr Hrule]. apply Reach_cons_inv in Hr as [->|[Hr|Hr]].
      * right; left. rewrite Hrule. apply list_elem_of_here.
      * by left.
      * by right; right.
Qed.

Lemma node_classes_disjoint (h : list Node) (r : nat) :
  node_instanceof h r is_Rule = true ->
  node_instanceof h r is_Tab = false /\ node_instanceof h r is_Group = false.
Proof.
  unfold node_instanceof. destruct (h !! r) as [n|]; [|done].
  by destruct (cls n).
Qed.

(** C6.  On a heap as the constructors build it, [query] returns, for
    the given roots or else for the registered Tabs, the Rule nodes that
    can be reached from the roots: each of them once, in the order in
    which the depth-first walk through the [children] lists meets them
    first.  Tab and Group nodes are walked into and are never part of
    the result. *)
Theorem query_depth_first (w : World) (base : option (list nat)) :
  wf_heap (heap w) ->
  exists order result,
    Walk (heap w) (default (tabs w) base) order /\
    result = first_occurrences [] order /\
    query base w = (inr result, w) /\
    NoDup result /\
    sublist result order /\
    (forall r, r ∈ result <->
       Reach (heap w) (default (tabs w) base) r /\
       node_instanceof (heap w) r is_Rule = true) /\
    (forall r, r ∈ result ->
       node_instanceof (heap w) r is_Tab = false /\
       node_instanceof (heap w) r is_Group = false).
Proof.
  intros Hwf.
  destruct (query_walk_spec (heap w) Hwf (S (length (heap w))) 0
              (default (tabs w) base) []) as (order & Hwalk & Hq).
  { intros; lia. } { lia. }
  rewrite add_all_first_occurrences, app_nil_l in Hq.
  assert (forall r, r ∈ first_occurrences [] order <->
            Reach (heap w) (default (tabs w) base) r /\
            node_instanceof (heap w) r is_Rule = true) as Helem.
  { intros r. rewrite first_occurrences_elem, <-(Walk_elem _ _ _ Hwalk).
    split; [by intros []|]. intros Hr. split; [done|]. by intros ?%elem_of_nil. }
  exists order, (first_occurrences [] order).
  split; [done|]. split; [done|]. split.
  { unfold query, query_in, bind, get_state. by rewrite Hq. }
  split; [apply first_occurrences_NoDup|].
  split; [apply first_occurrences_sublist|].
  split; [done|].
  intros r [_ Hr]%Helem. by apply node_classes_disjoint.
Qed.


(** ** The heaps the constructors build *)

Lemma wf_from_spec (h : list Node) (k : nat) :
  wf_from k h = true ->
  forall i n cs c, h !! i = Some n -> children n = Some cs -> c ∈ cs -> (k + i < c)%nat.
Proof.
  revert k. induction h as [|m h IH]; intros k Hwf i n cs c Hn Hcs Hc; [done|].
  simpl in Hwf. apply andb_prop in Hwf as [Hm Hh].
  destruct i as [|i]; simpl in Hn.
  - injection Hn as ->. rewrite Hcs in Hm. simpl in Hm.
    rewrite forallb_forall in Hm. apply list_elem_of_In, Hm in Hc.
    apply Nat.ltb_lt in Hc. lia.
  - pose proof (IH (S k) Hh i n cs c Hn Hcs Hc). lia.
Qed.

Lemma wf_heapb_correct (h : list Node) : wf_heapb h = true -> wf_heap h.
Proof. intros Hwf i n cs c Hn Hcs Hc. by apply (wf_from_spec h 0 Hwf i n cs c). Qed.

Lemma wf_heap_nil : wf_heap [].
Proof. by intros i n cs c Hn. Qed.

Lemma wf_heap_insert (h : list Node) (i : nat) (n' : Node) :
  wf_heap h ->
  (forall cs c, children n' = Some cs -> c ∈ cs -> (i < c)%nat) ->
  wf_heap (<[i := n']> h).
Proof.
  intros Hwf Hn' j n cs c Hj Hcs Hc.
  destruct (decide (j = i)) as [->|Hne].
  - assert (i < length h)%nat as Hlt.
    { apply lookup_lt_Some in Hj. by rewrite length_insert in Hj. }
    rewrite list_lookup_insert_eq in Hj by done. injection Hj as <-. eauto.
  - rewrite list_lookup_insert_ne in Hj by done. eauto.
Qed.

Lemma wf_heap_alter (h : list Node) (i : nat) (f : Node -> Node) :
  wf_heap h ->
  (forall n cs c, h !! i = Some n -> children (f n) = Some cs -> c ∈ cs -> (i < c)%nat) ->
  wf_heap (alter f i h).
Proof.
  intros Hwf Hf j n cs c Hj Hcs Hc.
  destruct (decide (j = i)) as [->|Hne].
  - rewrite list_lookup_alter_eq in Hj.
    destruct (h !! i) as [m|] eqn:Hm; [|done]. injection Hj as <-. eauto.
  - rewrite list_lookup_alter_ne in Hj by done. eauto.
Qed.

Lemma wf_heap_snoc (h : list Node) (n' : Node) :
  wf_heap h -> children n' = None -> wf_heap (h ++ [n']).
Proof.
  intros Hwf Hn' j n cs c Hj Hcs Hc.
  apply lookup_app_Some in Hj as [Hj|[_ Hj]]; [eauto|].
  apply list_lookup_singleton_Some in Hj as [_ <-]. congruence.
Qed.

Lemma push_to_parent_wf (p : Parent) (w : World) :
  wf_heap (heap w) ->
  wf_heap (heap (snd (push_to_parent p (length (heap w)) w))) /\
  length (heap (snd (push_to_parent p (length (heap w)) w))) = length (heap w).
Proof.
  intros Hwf. destruct p as [|r|v]; simpl; [done| |].
  - unfold bind, get_state. destruct (heap w !! r) as [n|] eqn:Hn; [|done].
    destruct (children n) as [cs|] eqn:Hcs; [|done]. simpl.
    split; [|by rewrite length_insert].
    apply wf_heap_insert; [done|]. simpl. intros ? c [= <-] Hc.
    apply elem_of_app in Hc as [Hc|Hc%list_elem_of_singleton]; [by eapply Hwf|].
    subst c. by eapply lookup_lt_Some.
  - destruct (truthy v); [|done]. by destruct (get_prop v "children") as [[]|].
Qed.

Lemma RuleItem_new_wf (c : NodeClass) (d : RuleDecl) (w : World) :
  wf_heap (heap w) -> wf_heap (heap (snd (RuleItem_new c d w))).
Proof.
  intros Hwf. unfold RuleItem_new, bind at 1. unfold zoom.
  destruct (ConfigItem_new (r_item d) None None (configIds w)) as [[e|[b ref]] ids];
    [done|].
  unfold bind at 1. unfold get_state. unfold bind at 1.
  change (heap (set_configIds ids w)) with (heap w).
  pose proof (push_to_parent_wf (r_parent d) (set_configIds ids w) Hwf) as [Hwf' _].
  change (heap (set_configIds ids w)) with (heap w) in Hwf'.
  destruct (push_to_parent (r_parent d) (length (heap w)) (set_configIds ids w))
    as [[e|[]] w1]; [done|].
  simpl. by apply wf_heap_snoc.
Qed.

(** Every constructor keeps the heap well formed, whether it returns or
    throws: each heap the constructors can build is one. *)
Lemma builders_keep_wf (d : RuleDecl) (w : World) :
  wf_heap (heap w) ->
  wf_heap (heap (snd (tabBuilder d w))) /\
  wf_heap (heap (snd (groupBuilder d w))) /\
  wf_heap (heap (snd (ruleBuilder d w))) /\
  wf_heap (heap (snd (textBuilder d w))).
Proof.
  intros Hwf. pose proof (fun c => RuleItem_new_wf c d w Hwf) as Hnew.
  repeat split.
  - unfold tabBuilder, bind at 1. specialize (Hnew TabClass).
    destruct (RuleItem_new TabClass d w) as [[e|this] w1]; [done|].
    unfold bind. simpl. apply wf_heap_alter; [done|].
    intros n cs x _ [= <-] Hx. by apply elem_of_nil in Hx.
  - unfold groupBuilder, bind at 1. unfold get_state.
    destruct (negb _); [done|]. specialize (Hnew GroupClass).
    unfold bind at 1.
    destruct (RuleItem_new GroupClass d w) as [[e|this] w1]; [done|].
    unfold bind. simpl. apply wf_heap_alter; [done|].
    intros n cs x _ [= <-] Hx. by apply elem_of_nil in Hx.
  - unfold ruleBuilder, Rule_new, bind, get_state.
    destruct (negb _); [done|]. apply Hnew.
  - unfold textBuilder, bind at 1. unfold Rule_new, bind at 1. unfold get_state.
    destruct (negb _); [done|]. specialize (Hnew TextClass).
    destruct (RuleItem_new TextClass d w) as [[e|this] w1]; [done|].
    unfold bind. simpl. apply wf_heap_alter; [done|].
    intros n cs x Hn Hcs Hx. simpl in Hcs. by eapply Hnew.
Qed.

(** ** Further results: the config binding *)

Lemma normalize_fixpoint (v : Variant) (value : JsVal) :
  variant_ok v -> input_ok v value ->
  exists r, normalize v value = inr r /\ normalize v r = inr r.
Proof.
  destruct v as [| |opts|a|a]; simpl; intros Hok Hin.
  - eauto.
  - exists (BooleanConfigItem_normalize value). split; [done|].
    by destruct value as [| |[|]| | | |].
  - by apply SelectConfigItem_normalize_idem.
  - eexists; split; [done|]. by rewrite NumberConfigItem_normalize_idem.
  - eexists; split; [done|]. by rewrite NumberConfigItem_normalize_idem.
Qed.

Lemma initConfig_bound (b : Binding) (e : Env) (key : string) :
  configInitialized b = true -> config b = Some key ->
  initConfig (b, e) = (inr tt, (b, e)).
Proof. intros Hi Hc. unfold initConfig, bind, get_state. simpl. by rewrite Hi. Qed.

(** What [initConfig] leaves behind: an initialized binding to the key,
    the same [id], and at most one more listener. *)
Lemma initConfig_result (b : Binding) (e : Env) (key : string) :
  binding_key b = Some key ->
  exists b1 e1, initConfig (b, e) = (inr tt, (b1, e1)) /\
    config b1 = Some key /\
    (configInitialized b = false -> configInitialized b1 = true) /\
    (configInitialized b = true -> b1 = b /\ e1 = e) /\
    store e1 = store e /\ store_writes e1 = store_writes e /\
    (listeners e1 = listeners e \/ listeners e1 = key :: listeners e).
Proof.
  unfold binding_key, initConfig, bind, get_state. simpl.
  destruct (configInitialized b) eqn:Hi.
  - destruct (config b) eqn:Hc; [|done]. intros [= ->].
    exists b, e. rewrite Hc. repeat split; auto.
  - destruct (config b) as [k|] eqn:Hc.
    + intros [= ->]. eexists _, _. split; [reflexivity|]. simpl.
      repeat split; auto; done.
    + destruct (id b) as [i|] eqn:Hid; simpl; [|done].
      destruct (id_truthy (Some i)) eqn:Hti; [|done]. intros [= ->].
      eexists _, _. split; [reflexivity|]. simpl. repeat split; auto; done.
Qed.

(** X1.  Round trip: on an item that has a key to bind and whose variant
    normalizes idempotently, and for a value in the range of the item,
    [setConfig(value)] writes [normalize(value)] under the key, once, and
    returns it, falsy values included; the [getConfig()] that follows
    returns the same value and leaves it stored.  For a Number or Range
    item this asks for whole numbers [min <= max] with double arithmetic
    exact between them and a [step] other than zero, and for a value that
    coerces to a whole number or is not finite. *)
Theorem setConfig_getConfig_round_trip
    (v : Variant) (b : Binding) (e : Env) (key : string) (value : JsVal) :
  variant_ok v ->
  input_ok v value ->
  binding_key b = Some key ->
  exists n b1 e1 b2 e2,
    normalize v value = inr n /\
    setConfig v value (b, e) = (inr n, (b1, e1)) /\
    store e1 = <[key := n]> (store e) /\
    store_writes e1 = (key, n) :: store_writes e /\
    getConfig v (b1, e1) = (inr n, (b2, e2)) /\
    store e2 !! key = Some n.
Proof.
  intros Hok Hin Hkey.
  destruct (normalize_fixpoint v value Hok Hin) as (n & Hn & Hnn).
  destruct (initConfig_binds b e key Hkey) as (b0 & e0 & Hinit & Hc & Hst & Hw & _).
  assert (exists bi ei, initConfig (b, e) = (inr tt, (bi, ei)) /\ config bi = Some key /\
            configInitialized bi = true /\ store ei = store e /\
            store_writes ei = store_writes e) as (bi & ei & Hi & Hci & Hii & Hsi & Hwi).
  { destruct (initConfig_result b e key Hkey) as (b1 & e1 & H1 & H2 & H3 & H4 & H5 & H6 & _).
    exists b1, e1. repeat split; try done.
    destruct (configInitialized b) eqn:E; [|by apply H3].
    by destruct (H4 eq_refl) as [-> _]. }
  assert (exists b2 e2, getConfig v (bi, snd (config_set key n ei)) = (inr n, (b2, e2)) /\
            store e2 !! key = Some n) as (b2 & e2 & Hget & Hstored).
  { unfold getConfig, bind. rewrite (initConfig_bound bi _ key Hii Hci). simpl.
    rewrite Hci. simpl. rewrite lookup_insert_eq. simpl. rewrite Hnn. simpl.
    destruct (getConfig_writes_back n n); simpl;
      (eexists _, _; split; [reflexivity|]); simpl; by rewrite lookup_insert_eq. }
  exists n, bi, (snd (config_set key n ei)), b2, e2.
  split; [done|]. split.
  { unfold setConfig, bind. rewrite Hi. simpl. by rewrite Hci, Hn. }
  rewrite <-Hsi, <-Hwi. by repeat split.
Qed.

Lemma initConfig_missing_id (b : Binding) (e : Env) :
  configInitialized b = false -> config b = None -> id_truthy (id b) = false ->
  initConfig (b, e) = (inl (Error "id is required to init config"), (b, e)).
Proof.
  intros Hi Hc Hid. unfold initConfig, bind, get_state. simpl. rewrite Hi, Hc.
  destruct (id b) as [i|]; [|done]. by rewrite Hid.
Qed.

(** X2.  An item that has neither a binding nor an [id] cannot use its
    config: [getConfig], [setConfig] and [addConfigListener] all throw the
    missing-id error, and neither the item nor the store, its write log or
    its listeners have changed. *)
Theorem config_operations_need_id (v : Variant) (b : Binding) (e : Env) (value : JsVal) :
  configInitialized b = false -> config b = None -> id_truthy (id b) = false ->
  getConfig v (b, e) = (inl (Error "id is required to init config"), (b, e)) /\
  setConfig v value (b, e) = (inl (Error "id is required to init config"), (b, e)) /\
  addConfigListener (b, e) = (inl (Error "id is required to init config"), (b, e)).
Proof.
  intros Hi Hc Hid. pose proof (initConfig_missing_id b e Hi Hc Hid) as H.
  unfold getConfig, setConfig, addConfigListener, bind. by rewrite H.
Qed.

(** X3.  Reads settle after one: when [getConfig] has returned a value on
    an item whose variant normalizes idempotently and whose stored value
    is in the range of the item, the next [getConfig] returns the same
    value, leaves every stored value and the binding as they are, and adds
    no further listener.  For a Number or Range item this asks for whole
    numbers [min <= max] with double arithmetic exact between them and a
    [step] other than zero, and for a stored value that coerces to a whole
    number or is not finite. *)
Theorem getConfig_twice (v : Variant) (b b1 : Binding) (e e1 : Env) (n : JsVal) :
  variant_ok v ->
  (forall key, binding_key b = Some key ->
     input_ok v (default VUndef (store e !! key))) ->
  getConfig v (b, e) = (inr n, (b1, e1)) ->
  exists e2,
    getConfig v (b1, e1) = (inr n, (b1, e2)) /\
    store e2 = store e1 /\
    listeners e2 = listeners e1.
Proof.
  intros Hok Hin Hget.
  assert (exists key, config b1 = Some key /\ configInitialized b1 = true /\
            normalize v (default VUndef (store e1 !! key)) = inr n /\
            (getConfig_writes_back (default VUndef (store e1 !! key)) n = true ->
             store e1 !! key = Some n)) as (key & Hc & Hi & Hn & Hwb).
  { unfold getConfig, bind at 1 in Hget.
    destruct (initConfig (b, e)) as [[x|[]] [b0 e0]] eqn:Hinit; [done|].
    assert ((configInitialized b0 = true \/ config b0 = None) /\
            store e0 = store e /\
            (forall k, config b0 = Some k -> binding_key b = Some k))
      as (Hstate & Hst0 & Hkey0).
    { unfold initConfig, bind, get_state in Hinit. simpl in Hinit.
      unfold binding_key.
      destruct (configInitialized b) eqn:Hib.
      - injection Hinit as <- <-. split; [by left|]. split; [done|].
        intros k Hk. by rewrite Hk.
      - destruct (config b) as [k|] eqn:Hcb.
        + injection Hinit as <- <-. split; [by left|]. split; [done|].
          simpl. by intros ? [= <-].
        + destruct (id b) as [i|] eqn:Hidb; [|done].
          destruct (id_truthy (Some i)) eqn:Hti; [|done].
          injection Hinit as <- <-. split; [by left|]. split; [done|].
          simpl. by intros ? [= <-]. }
    unfold bind, get_state in Hget. simpl in Hget.
    destruct (config b0) as [key|] eqn:Hc0; [|done].
    destruct Hstate as [Hi0|]; [|done].
    unfold on_env, zoom, config_get, lift_sum in Hget. simpl in Hget.
    destruct (normalize v (default VUndef (store e0 !! key))) as [x|n0] eqn:Hn0; [done|].
    simpl in Hget.
    destruct (normalize_fixpoint v (default VUndef (store e0 !! key)) Hok)
      as (r & Hr & Hrr).
    { rewrite Hst0. by apply Hin, Hkey0. }
    rewrite Hn0 in Hr. injection Hr as ->.
    destruct (getConfig_writes_back (default VUndef (store e0 !! key)) r) eqn:Hwb0;
      simpl in Hget; injection Hget as <- <- <-; exists key; simpl.
    - rewrite lookup_insert_eq. simpl. by repeat split.
    - repeat split; try done. intros Hw. congruence. }
  unfold getConfig, bind. rewrite (initConfig_bound b1 e1 key Hi Hc). simpl.
  rewrite Hc. simpl. rewrite Hn. simpl.
  destruct (getConfig_writes_back (default VUndef (store e1 !! key)) n) eqn:Hw; simpl.
  - eexists. split; [reflexivity|]. simpl. split; [|done].
    by apply insert_id, Hwb.
  - by eexists.
Qed.

(** ** Further results: the typed variants *)

Lemma rem_below_step (x s : Z) : 0 <= x -> s <> 0 -> Z.rem x s < Z.abs s.
Proof.
  intros Hx Hs. destruct (Z.lt_total s 0) as [Hneg|[->|Hpos]]; [|done|].
  - rewrite <-(Z.opp_involutive s) at 1. rewrite Z.rem_opp_r by lia.
    pose proof (Z.rem_bound_pos x (- s) Hx ltac:(lia)). lia.
  - pose proof (Z.rem_bound_pos x s Hx Hpos). lia.
Qed.

(** X5.  A value that is valid already is kept: for a Number or Range
    item with whole numbers [min], [max] of which both, and their
    difference, are at most [2^53] in magnitude, and a whole-number [step]
    other than zero, a number of the form [min + k * step] between [min]
    and [max] normalizes to itself. *)
Theorem normalize_keeps_grid_values (m M s k : Z) :
  s <> 0 -> 0 <= k * s -> m + k * s <= M -> exact_span m M ->
  NumberConfigItem_normalize
    {| min := VNum (Fin m); max := VNum (Fin M); step := VNum (Fin s) |}
    (VNum (Fin (m + k * s)))
  = VNum (Fin (m + k * s)).
Proof.
  intros Hs Hk HM Hspan.
  assert (clamp_snap m (Some M) None (m + k * s) = m + k * s) as Hc.
  { unfold clamp_snap.
    assert ((m + k * s <? m) = false) as -> by lia.
    by assert ((M <? m + k * s) = false) as -> by lia. }
  rewrite (normalize_finite _ m _ (m + k * s)); try done.
  - unfold clamp_snap, max_bound, step_size. simpl.
    assert ((m + k * s <? m) = false) as -> by lia.
    assert ((M <? m + k * s) = false) as -> by lia.
    replace (m + k * s - m) with (k * s) by lia. rewrite Z.rem_mul by done.
    do 2 f_equal. lia.
  - unfold step_size. simpl. congruence.
  - change (max_bound _) with (Some M). rewrite Hc.
    eapply exact_span_between; [done|lia].
Qed.

(** X6.  The snap goes down, by less than a step: for whole numbers
    [min <= max] of which both, and their difference, are at most [2^53]
    in magnitude, and a whole-number [step] other than zero, an input that
    coerces to a whole number normalizes to a number that is at most the
    clamped input and lies less than [|step|] below it. *)
Theorem normalize_snaps_down (m M s x : Z) (value : JsVal) :
  m <= M -> exact_span m M -> s <> 0 -> ToNumber value = Fin x ->
  exists z,
    NumberConfigItem_normalize
      {| min := VNum (Fin m); max := VNum (Fin M); step := VNum (Fin s) |} value
    = VNum (Fin z) /\
    clamp m M x = Z.min M (Z.max m x) /\
    clamp m M x - Z.abs s < z <= clamp m M x.
Proof.
  intros HmM Hspan Hs Hx. eexists. split.
  { apply (normalize_finite _ m value x); try done.
    - unfold step_size; simpl; congruence.
    - eapply exact_span_between; [done|]. change (max_bound _) with (Some M).
      unfold clamp_snap. repeat case_match; lia. }
  unfold clamp, clamp_snap, max_bound, step_size. simpl.
  set (x1 := if x <? m then m else x).
  set (x2 := if M <? x1 then M else x1).
  assert (x2 = Z.min M (Z.max m x)) as Hx2.
  { subst x2 x1. repeat case_match; lia. }
  split; [done|].
  pose proof (rem_bounds (x2 - m) s ltac:(lia) Hs).
  pose proof (rem_below_step (x2 - m) s ltac:(lia) Hs). lia.
Qed.

(** X7.  With the attributes of the class ([min] 0, [max] Infinity,
    [step] 1) a Number or Range item turns every input into a number that
    is not negative: a finite input [x], any whole number that is a
    double, into [max(x, 0)], every other input into 0. *)
Theorem normalize_default_number (value : JsVal) :
  (forall x, ToNumber value = Fin x -> double x) ->
  NumberConfigItem_normalize default_number value
  = match ToNumber value with
    | Fin x => VNum (Fin (Z.max 0 x))
    | _ => VNum (Fin 0)
    end.
Proof.
  intros Hdouble. destruct (ToNumber value) as [| | |x] eqn:Hx.
  1-3: rewrite normalize_nonfinite; [done | by rewrite Hx].
  specialize (Hdouble x eq_refl).
  assert (to_double (Z.max 0 x - 0) = Fin (Z.max 0 x)) as Hc.
  { rewrite Z.sub_0_r. destruct (Z.max_spec 0 x) as [[_ ->]|[_ ->]]; [done|].
    by apply to_double_exact. }
  unfold NumberConfigItem_normalize. rewrite Hx. cbn [isFinite negb].
  rewrite !as_number_spec. cbn [default_number min max step ToNumber].
  assert ((if Num_lt (Fin x) (Fin 0) then Fin 0 else Fin x) = Fin (Z.max 0 x)) as ->.
  { cbn [Num_lt]. case_match; f_equal; lia. }
  cbn [Num_gt Num_lt isFinite Num_sub Num_rem]. rewrite Hc.
  cbn [Num_rem Z.eqb]. rewrite Z.rem_1_r. cbn [Num_sub]. by rewrite Hc.
Qed.

(** A constructed Select item with at least one option never
    returns anything but the value of a declared option, whatever the
    store holds. *)
Lemma SelectConfigItem_normalize_is_option
    (first : JsVal) (rest : list JsVal) (value : JsVal) :
  SelectConfigItem_check (VArr (first :: rest)) = inr tt ->
  exists r, normalize (SelectItem (VArr (first :: rest))) value = inr r /\
            has_option (first :: rest) r.
Proof.
  intros (items & [= <-] & Hitems)%SelectConfigItem_check_inv. unfold normalize.
  destruct (SelectConfigItem_normalize_value _ value Hitems) as [[Hhas ->]|[_ ->]].
  - by exists value.
  - pose proof (Forall_inv Hitems) as [str Hstr]; simpl in Hstr.
    rewrite (SelectConfigItem_initial_first _ _ _ Hstr).
    exists (VStr str). split; [done|]. exists first.
    split; [apply list_elem_of_here|done].
Qed.

(** ** Further results: the tree *)

Lemma push_to_parent_cases (p : Parent) (this : nat) (w : World) :
  (exists e, push_to_parent p this w = (inl e, w)) \/
  (push_to_parent p this w = (inr tt, set_heap (pushed p this (heap w)) w) /\
   forall r, p = ParentNode r ->
     exists n cs, heap w !! r = Some n /\ children n = Some cs).
Proof.
  destruct p as [|r|v]; simpl.
  - right. split; [by destruct w|done].
  - unfold bind, get_state. destruct (heap w !! r) as [n|] eqn:Hn; [|eauto].
    destruct (children n) as [cs|] eqn:Hcs; [|eauto].
    right. split; [done|]. intros ? [= <-]. eauto.
  - destruct (truthy v); [|right; split; [by destruct w|done]].
    destruct (get_prop v "children") as [[]|]; eauto.
    right. split; [by destruct w|done].
Qed.

Lemma RuleItem_new_eq (c : NodeClass) (d : RuleDecl) (w : World) :
  RuleItem_new c d w
  = match ConfigItem_new (r_item d) None None (configIds w) with
    | (inl e, ids) => (inl e, set_configIds ids w)
    | (inr (b, ref), ids) =>
        match push_to_parent (r_parent d) (length (heap w)) (set_configIds ids w) with
        | (inl e, w1) => (inl e, w1)
        | (inr _, w1) =>
            (inr (length (heap w)),
             set_heap (heap w1 ++
               [{| cls := c; binding := b; node_ref := ref; parent := r_parent d;
                   own_always := r_always d; children := None;
                   css := r_css d; acss := r_acss d;
                   init := r_init d; ainit := r_ainit d |}]) w1)
        end
    end.
Proof.
  unfold RuleItem_new, bind, zoom, get_state, modify, ret.
  destruct (ConfigItem_new (r_item d) None None (configIds w)) as [[e|[b ref]] ids];
    [done|]. simpl.
  by destruct (push_to_parent (r_parent d) (length (heap w)) (set_configIds ids w))
    as [[e|[]] w1].
Qed.

(** The node a constructor enters in the heap. *)
Lemma RuleItem_new_cases (c : NodeClass) (d : RuleDecl) (w : World) :
  (exists e w', RuleItem_new c d w = (inl e, w') /\
     heap w' = heap w /\ tabs w' = tabs w /\ env w' = env w) \/
  (exists b ref w',
     RuleItem_new c d w = (inr (length (heap w)), w') /\
     heap w' = pushed (r_parent d) (length (heap w)) (heap w) ++
               [{| cls := c; binding := b; node_ref := ref; parent := r_parent d;
                   own_always := r_always d; children := None;
                   css := r_css d; acss := r_acss d;
                   init := r_init d; ainit := r_ainit d |}] /\
     tabs w' = tabs w /\ env w' = env w /\
     forall r, r_parent d = ParentNode r ->
       exists n cs, heap w !! r = Some n /\ children n = Some cs).
Proof.
  rewrite RuleItem_new_eq.
  destruct (ConfigItem_new (r_item d) None None (configIds w)) as [[e|[b ref]] ids].
  { left. by eexists _, _. }
  destruct (push_to_parent_cases (r_parent d) (length (heap w)) (set_configIds ids w))
    as [[e ->]|[-> Hok]].
  - left. by eexists _, _.
  - right. eexists b, ref, _. split; [reflexivity|]. simpl. by repeat split.
Qed.

Lemma alter_last {A} (f : A -> A) (l : list A) (x : A) :
  alter f (length l) (l ++ [x]) = l ++ [f x].
Proof.
  induction l as [|y l IH]; [done|]. simpl. f_equal. exact IH.
Qed.

Lemma alter_last_at {A} (f : A -> A) (l : list A) (x : A) (k : nat) :
  length l = k -> alter f k (l ++ [x]) = l ++ [f x].
Proof. intros <-. apply alter_last. Qed.

Lemma pushed_length (p : Parent) (this : nat) (h : list Node) :
  length (pushed p this h) = length h.
Proof.
  destruct p as [|r|v]; simpl; try done.
  destruct (h !! r) as [n|]; [|done]. destruct (children n); [|done].
  by rewrite length_insert.
Qed.

(** A declaration either fails and leaves heap, registry and environment
    alone, or it enters one node at the next index. *)
Lemma declare_cases (x : Declaration) (w : World) :
  (exists e w', declare x w = (inl e, w') /\
     heap w' = heap w /\ tabs w' = tabs w /\ env w' = env w) \/
  (exists node w',
     declare x w = (inr (length (heap w)), w') /\
     heap w' = pushed (r_parent (declared x)) (length (heap w)) (heap w) ++ [node] /\
     cls node = declared_class x /\
     parent node = r_parent (declared x) /\
     css node = r_css (declared x) /\ acss node = r_acss (declared x) /\
     init node = r_init (declared x) /\ ainit node = r_ainit (declared x) /\
     own_always node
     = (if bool_decide (declared_class x = TextClass) then Some true
        else r_always (declared x)) /\
     children node
     = (if is_Tab (declared_class x) || is_Group (declared_class x)
        then Some [] else None) /\
     tabs w' = (if is_Tab (declared_class x) then tabs w ++ [length (heap w)] else tabs w) /\
     env w' = env w /\
     (forall r, r_parent (declared x) = ParentNode r ->
        exists n cs, heap w !! r = Some n /\ children n = Some cs) /\
     (forall pc, parent_class (declared_class x) = Some pc ->
        exists r n, r_parent (declared x) = ParentNode r /\
                    heap w !! r = Some n /\ cls n = pc)).
Proof.
  assert (forall C pc, parent_instanceof (heap w) (r_parent (declared x)) C = true ->
            (forall c, C c = true -> c = pc) ->
            exists r n, r_parent (declared x) = ParentNode r /\
                        heap w !! r = Some n /\ cls n = pc) as Hguard.
  { intros C pc Hp HC. unfold parent_instanceof, node_instanceof in Hp.
    destruct (r_parent (declared x)) as [|r|]; try done.
    destruct (heap w !! r) as [n|] eqn:Hn; [|done].
    exists r, n. split; [done|]. split; [done|]. by apply HC. }
  assert (forall c, is_Tab c = true -> c = TabClass) as HTab.
  { intros c. unfold is_Tab. by intros ?%bool_decide_eq_true. }
  assert (forall c, is_Group c = true -> c = GroupClass) as HGroup.
  { intros c. unfold is_Group. by intros ?%bool_decide_eq_true. }
  destruct x as [d|d|d|d]; simpl in *.
  - destruct (RuleItem_new_cases TabClass d w)
      as [(e & w' & H & ? & ? & ?)|(b & ref & w' & H & Hh & Ht & He & Hok)].
    { left. exists e, w'. unfold tabBuilder, bind. by rewrite H. }
    right. destruct w' as [h' t' c' e']. simpl in *. subst h' t' e'.
    unfold tabBuilder, bind, get_state, update_node, modify, set_heap, set_tabs, set_own_always.
    rewrite H. simpl.
    rewrite alter_last_at by apply pushed_length.
    eexists _, _. split; [reflexivity|]. simpl.
    repeat split; try done.
  - destruct (parent_instanceof (heap w) (r_parent d) is_Tab) eqn:Hp.
    2: { left. exists (TypeError "Group must in some Tab"), w.
         unfold groupBuilder, bind, get_state. by rewrite Hp. }
    destruct (RuleItem_new_cases GroupClass d w)
      as [(e & w' & H & ? & ? & ?)|(b & ref & w' & H & Hh & Ht & He & Hok)].
    { left. exists e, w'. unfold groupBuilder, bind, get_state. rewrite Hp. simpl. by rewrite H. }
    right. destruct w' as [h' t' c' e']. simpl in *. subst h' t' e'.
    unfold groupBuilder, bind, get_state, update_node, modify, set_heap, set_tabs, set_own_always.
    rewrite Hp. simpl. rewrite H. simpl.
    rewrite alter_last_at by apply pushed_length.
    eexists _, _. split; [reflexivity|]. simpl.
    repeat split; try done.
    intros pc [= <-]. by apply (Hguard is_Tab).
  - destruct (parent_instanceof (heap w) (r_parent d) is_Group) eqn:Hp.
    2: { left. exists (TypeError "Rule must in some Group"), w.
         unfold ruleBuilder, Rule_new, bind, get_state. by rewrite Hp. }
    destruct (RuleItem_new_cases RuleClass d w)
      as [(e & w' & H & ? & ? & ?)|(b & ref & w' & H & Hh & Ht & He & Hok)].
    { left. exists e, w'. unfold ruleBuilder, Rule_new, bind, get_state. rewrite Hp. simpl. by rewrite H. }
    right. destruct w' as [h' t' c' e']. simpl in *. subst h' t' e'.
    unfold ruleBuilder, Rule_new, bind, get_state.
    rewrite Hp. simpl. rewrite H. simpl.
    eexists _, _. split; [reflexivity|]. simpl.
    repeat split; try done.
    intros pc [= <-]. by apply (Hguard is_Group).
  - destruct (parent_instanceof (heap w) (r_parent d) is_Group) eqn:Hp.
    2: { left. exists (TypeError "Rule must in some Group"), w.
         unfold textBuilder, Rule_new, bind, get_state. by rewrite Hp. }
    destruct (RuleItem_new_cases TextClass d w)
      as [(e & w' & H & ? & ? & ?)|(b & ref & w' & H & Hh & Ht & He & Hok)].
    { left. exists e, w'. unfold textBuilder, Rule_new, bind, get_state. rewrite Hp. simpl. by rewrite H. }
    right. destruct w' as [h' t' c' e']. simpl in *. subst h' t' e'.
    unfold textBuilder, Rule_new, bind, get_state, update_node, modify, set_heap, set_tabs, set_own_always.
    rewrite Hp. simpl. rewrite H. simpl.
    rewrite alter_last_at by apply pushed_length.
    eexists _, _. split; [reflexivity|]. simpl.
    repeat split; try done.
    intros pc [= <-]. by apply (Hguard is_Group).
Qed.

Lemma pushed_lookup_ne (p : Parent) (this : nat) (h : list Node) (i : nat) :
  p <> ParentNode i -> pushed p this h !! i = h !! i.
Proof.
  intros Hp. destruct p as [|r|v]; simpl; try done.
  destruct (h !! r) as [n|]; [|done]. destruct (children n); [|done].
  apply list_lookup_insert_ne. congruence.
Qed.

Lemma pushed_lookup_eq (r this : nat) (h : list Node) (n : Node) (cs : list nat) :
  h !! r = Some n -> children n = Some cs ->
  pushed (ParentNode r) this h !! r = Some (set_children (Some (cs ++ [this])) n).
Proof.
  intros Hn Hcs. simpl. rewrite Hn, Hcs.
  apply list_lookup_insert_eq. by eapply lookup_lt_Some.
Qed.

Lemma pushed_lookup_inv (p : Parent) (this : nat) (h : list Node) (i : nat) (n' : Node) :
  pushed p this h !! i = Some n' ->
  exists n, h !! i = Some n /\ cls n' = cls n /\ parent n' = parent n /\
    (forall c, c ∈ default [] (children n) -> c ∈ default [] (children n')) /\
    (is_Some (children n) -> is_Some (children n')).
Proof.
  assert (p = ParentNode i \/ p <> ParentNode i) as [->|Hne].
  { destruct p as [|r|v]; try (by right).
    destruct (decide (r = i)) as [->|]; [by left|right; congruence]. }
  - simpl. destruct (h !! i) as [n|] eqn:Hn; [|by rewrite Hn].
    destruct (children n) as [cs|] eqn:Hcs.
    + rewrite list_lookup_insert_eq by (by eapply lookup_lt_Some).
      intros [= <-]. exists n. simpl. rewrite Hcs. simpl.
      repeat split; try done. intros c Hc. apply elem_of_app. by left.
    + rewrite Hn. intros [= <-]. by exists n.
  - rewrite pushed_lookup_ne by done. intros Hn. by exists n'.
Qed.

Lemma pushed_lookup_fwd (p : Parent) (this : nat) (h : list Node) (i : nat) (n : Node) :
  h !! i = Some n ->
  exists n', pushed p this h !! i = Some n' /\ cls n' = cls n /\
    forall cs c, children n = Some cs -> c ∈ cs ->
      exists cs', children n' = Some cs' /\ c ∈ cs'.
Proof.
  intros Hn.
  assert (p = ParentNode i \/ p <> ParentNode i) as [->|Hne].
  { destruct p as [|r|v]; try (by right).
    destruct (decide (r = i)) as [->|]; [by left|right; congruence]. }
  - destruct (children n) as [cs|] eqn:Hcs.
    + rewrite (pushed_lookup_eq i this h n cs Hn Hcs). eexists. split; [done|].
      split; [done|]. simpl. intros ? c [= <-] Hc. eexists. split; [done|].
      apply elem_of_app. by left.
    + simpl. rewrite Hn, Hcs, Hn. by exists n.
  - rewrite pushed_lookup_ne by done. exists n. split; [done|]. split; [done|].
    intros cs c Hcs Hc. by exists cs.
Qed.

(** X8.  A declaration that fails registers nothing, whatever made it
    fail (the parent of the wrong class, a parent without a [children]
    list, an invalid select among the nested items): the heap with every
    [children] list, the registry of Tabs and the environment are as
    before. *)
Theorem failed_declaration_registers_nothing
    (x : Declaration) (w w' : World) (e : Exn) :
  declare x w = (inl e, w') ->
  heap w' = heap w /\ tabs w' = tabs w /\ env w' = env w.
Proof.
  intros Hd.
  destruct (declare_cases x w) as [(e0 & w0 & H & ? & ? & ?)|(node & w0 & H & _)];
    rewrite H in Hd; [|done].
  by injection Hd as <- <-.
Qed.

(** X9.  A declaration that succeeds enters exactly one node, at the
    next index, with the class of its constructor; a Tab and a Group start
    with an empty [children] list and a Tab joins the end of the registry
    of Tabs; the new node becomes the last child of its parent, behind the
    children declared before; every other node is as it was. *)
Theorem declaration_appends_node (x : Declaration) (w w' : World) (this : nat) :
  declare x w = (inr this, w') ->
  this = length (heap w) /\
  length (heap w') = S (length (heap w)) /\
  (exists node, heap w' !! this = Some node /\
     cls node = declared_class x /\
     parent node = r_parent (declared x) /\
     children node = (if is_Tab (declared_class x) || is_Group (declared_class x)
                      then Some [] else None)) /\
  tabs w' = (if is_Tab (declared_class x) then tabs w ++ [this] else tabs w) /\
  (forall r, r_parent (declared x) = ParentNode r ->
     exists n cs, heap w !! r = Some n /\ children n = Some cs /\
       heap w' !! r = Some (set_children (Some (cs ++ [this])) n)) /\
  (forall i, (i < length (heap w))%nat -> r_parent (declared x) <> ParentNode i ->
     heap w' !! i = heap w !! i).
Proof.
  intros Hd.
  destruct (declare_cases x w) as [(e0 & w0 & H & _)|
    (node & w0 & H & Hh & Hcls & Hpar & _ & _ & _ & _ & _ & Hch & Ht & _ & Hok & _)];
    rewrite H in Hd; [done|].
  injection Hd as <- <-. split; [done|].
  pose proof (pushed_length (r_parent (declared x)) (length (heap w)) (heap w)) as Hlen.
  split. { rewrite Hh, length_app, Hlen. simpl. lia. }
  split.
  { exists node. split; [|done].
    rewrite Hh, lookup_app_r by lia. by rewrite Hlen, Nat.sub_diag. }
  split; [done|]. split.
  - intros r Hr. destruct (Hok r Hr) as (n & cs & Hn & Hcs).
    exists n, cs. split; [done|]. split; [done|].
    rewrite Hh, lookup_app_l by (rewrite Hlen; by eapply lookup_lt_Some).
    rewrite Hr. by apply pushed_lookup_eq.
  - intros i Hi Hne. rewrite Hh, lookup_app_l by lia. by apply pushed_lookup_ne.
Qed.

Lemma declare_keeps_registered (x : Declaration) (w : World) :
  registered w -> registered (snd (declare x w)).
Proof.
  intros Hreg.
  destruct (declare_cases x w) as [(e0 & w0 & -> & Hh & Ht & _)|
    (node & w0 & -> & Hh & Hcls & Hpar & _ & _ & _ & _ & _ & _ & Ht & _ & Hok & Hguard)];
    simpl.
  { intros i n. rewrite Hh, Ht. apply Hreg. }
  pose proof (pushed_length (r_parent (declared x)) (length (heap w)) (heap w)) as Hlen.
  assert (forall p np, heap w !! p = Some np ->
            exists np', heap w0 !! p = Some np' /\ cls np' = cls np /\
              forall cs c, children np = Some cs -> c ∈ cs ->
                exists cs', children np' = Some cs' /\ c ∈ cs') as Hfwd.
  { intros p np Hp.
    destruct (pushed_lookup_fwd (r_parent (declared x)) (length (heap w)) _ p np Hp)
      as (np' & Hp' & Hc & Hcs).
    exists np'. split; [|done].
    rewrite Hh, lookup_app_l; [done|]. rewrite Hlen. by eapply lookup_lt_Some. }
  intros i n' Hi. rewrite Hh in Hi.
  apply lookup_app_Some in Hi as [Hi|[Hge Hi]].
  - apply pushed_lookup_inv in Hi as (n & Hn & Hc & Hp & _).
    specialize (Hreg i n Hn). unfold node_registered in *. rewrite Hc.
    destruct (parent_class (cls n)) as [pc|].
    + destruct Hreg as (p & np & cs & Hpn & Hnp & Hcp & Hcs & Hin).
      destruct (Hfwd p np Hnp) as (np' & Hnp' & Hcp' & Hkeep).
      destruct (Hkeep cs i Hcs Hin) as (cs' & Hcs' & Hin').
      exists p, np', cs'. rewrite Hp. repeat split; try done. congruence.
    + rewrite Ht. destruct (is_Tab (declared_class x)); [|done].
      apply elem_of_app. by left.
  - apply list_lookup_singleton_Some in Hi as [Hi <-]. rewrite Hlen in Hge, Hi.
    assert (i = length (heap w)) as -> by lia.
    unfold node_registered. rewrite Hcls.
    destruct (parent_class (declared_class x)) as [pc|] eqn:Hpc.
    + destruct (Hguard pc eq_refl) as (r & n & Hr & Hn & Hc).
      destruct (Hok r Hr) as (n0 & cs & Hn0 & Hcs).
      rewrite Hn in Hn0. injection Hn0 as <-.
      exists r, (set_children (Some (cs ++ [length (heap w)])) n), (cs ++ [length (heap w)]).
      rewrite Hpar. split; [done|]. split.
      { rewrite Hh, lookup_app_l by (rewrite Hlen; by eapply lookup_lt_Some).
        rewrite Hr. by apply pushed_lookup_eq. }
      split; [done|]. split; [done|]. apply elem_of_app. right. apply list_elem_of_here.
    + rewrite Ht. destruct x; try done. simpl.
      apply elem_of_app. right. apply list_elem_of_here.
Qed.

Lemma declare_keeps_wf (x : Declaration) (w : World) :
  wf_heap (heap w) -> wf_heap (heap (snd (declare x w))).
Proof.
  intros Hwf. destruct (builders_keep_wf (declared x) w Hwf) as (H1 & H2 & H3 & H4).
  by destruct x.
Qed.

Lemma declare_all_structure (xs : list Declaration) (w : World) :
  wf_heap (heap w) -> registered w ->
  wf_heap (heap (declare_all xs w)) /\ registered (declare_all xs w).
Proof.
  revert w. induction xs as [|x xs IH]; intros w Hwf Hreg; simpl; [done|].
  apply IH; [by apply declare_keeps_wf | by apply declare_keeps_registered].
Qed.

(** X10.  Every run of declarations keeps the tree in shape: the
    children of a node were created after it; every Tab is in the registry
    of Tabs; every Group is a child of its parent, which is a Tab; every
    Rule and Text is a child of its parent, which is a Group. *)
Theorem declarations_keep_structure (xs : list Declaration) (w : World) :
  wf_heap (heap w) -> registered w ->
  wf_heap (heap (declare_all xs w)) /\ registered (declare_all xs w).
Proof. apply declare_all_structure. Qed.

Lemma registered_rule_reachable (w : World) (r : nat) :
  registered w ->
  node_instanceof (heap w) r is_Rule = true ->
  Reach (heap w) (tabs w) r.
Proof.
  intros Hreg Hr. unfold node_instanceof in Hr.
  destruct (heap w !! r) as [n|] eqn:Hn; [|done].
  pose proof (Hreg r n Hn) as Hrn. unfold node_registered in Hrn.
  assert (parent_class (cls n) = Some GroupClass) as Hpc.
  { unfold is_Rule in Hr. by destruct (cls n). }
  rewrite Hpc in Hrn. destruct Hrn as (g & ng & gs & _ & Hg & Hgc & Hgs & Hin).
  pose proof (Hreg g ng Hg) as Hgn. unfold node_registered in Hgn.
  rewrite Hgc in Hgn. simpl in Hgn.
  destruct Hgn as (t & nt & ts & _ & Ht & Htc & Hts & Hing).
  pose proof (Hreg t nt Ht) as Htn. unfold node_registered in Htn.
  rewrite Htc in Htn. simpl in Htn.
  eapply Reach_child; [eapply Reach_child; [by apply Reach_base|]|].
  - unfold children_of, node_instanceof. rewrite Ht, Htc. simpl. by rewrite Hts.
  - unfold children_of, node_instanceof. rewrite Hg, Hgc. simpl. by rewrite Hgs.
Qed.

(** The walk from the registered Tabs of a declared tree. *)
Lemma query_in_declared (xs : list Declaration) (e : Env) :
  exists result,
    query_in (heap (declare_all xs (set_env e empty_world)))
             (tabs (declare_all xs (set_env e empty_world))) = Some result /\
    NoDup result /\
    forall r, r ∈ result <->
      node_instanceof (heap (declare_all xs (set_env e empty_world))) r is_Rule = true.
Proof.
  destruct (declare_all_structure xs (set_env e empty_world)) as [Hwf Hreg].
  { apply wf_heap_nil. } { by intros i n Hn. }
  set (w := declare_all xs (set_env e empty_world)) in *.
  destruct (query_walk_spec (heap w) Hwf (S (length (heap w))) 0 (tabs w) [])
    as (order & Hwalk & Hq).
  { intros; lia. } { lia. }
  rewrite add_all_first_occurrences, app_nil_l in Hq.
  exists (first_occurrences [] order). split; [done|].
  split; [apply first_occurrences_NoDup|].
  intros r. rewrite first_occurrences_elem, (Walk_elem _ _ _ Hwalk). split.
  - by intros [[_ Hr] _].
  - intros Hr. split; [|by intros ?%elem_of_nil].
    split; [by apply registered_rule_reachable|done].
Qed.

(** X11.  Whatever the host has declared, [rule.query()] finds it: after
    any run of declarations from the empty tree, [query] with the default
    base returns, each once, exactly the Rule and Text nodes that exist. *)
Theorem query_returns_every_rule (xs : list Declaration) (e : Env) :
  exists result,
    query None (declare_all xs (set_env e empty_world))
    = (inr result, declare_all xs (set_env e empty_world)) /\
    NoDup result /\
    forall r, r ∈ result <->
      node_instanceof (heap (declare_all xs (set_env e empty_world))) r is_Rule = true.
Proof.
  destruct (query_in_declared xs e) as (result & Hq & Hnd & Hall).
  exists result. split; [|done].
  unfold query, bind, get_state.
  change (default (tabs (declare_all xs (set_env e empty_world))) None)
    with (tabs (declare_all xs (set_env e empty_world))).
  by rewrite Hq.
Qed.

(** ** Further results: [query] on its own results *)

Lemma query_walk_rules (fuel : nat) (h : list Node) (items result : list nat) :
  Forall (fun r => node_instanceof h r is_Rule = true) items ->
  query_walk (S fuel) h items result = Some (add_all result items).
Proof.
  intros Hall. revert result. induction Hall as [|item items Hr _ IH]; intros result.
  - done.
  - rewrite query_walk_cons.
    destruct (node_classes_disjoint h item Hr) as [-> ->]. simpl.
    rewrite IH. unfold rule_self. by rewrite Hr.
Qed.

Lemma set_add_elem (item x : nat) (result : list nat) :
  x ∈ set_add item result <-> x ∈ result \/ x = item.
Proof.
  unfold set_add. case_bool_decide.
  - split; [by left|]. by intros [?| ->].
  - by rewrite elem_of_app, list_elem_of_singleton.
Qed.

Lemma set_add_NoDup (item : nat) (result : list nat) :
  NoDup result -> NoDup (set_add item result).
Proof.
  intros Hnd. unfold set_add. case_bool_decide; [done|].
  apply NoDup_app. split; [done|]. split; [|apply NoDup_singleton].
  intros x Hx ->%list_elem_of_singleton. done.
Qed.

(** Whatever the heap, a result of the walk holds Rule nodes only, each
    once. *)
Lemma query_walk_result (h : list Node) (fuel : nat) :
  forall (items result r : list nat),
    query_walk fuel h items result = Some r ->
    NoDup result ->
    (forall x, x ∈ result -> node_instanceof h x is_Rule = true) ->
    NoDup r /\ (forall x, x ∈ r -> node_instanceof h x is_Rule = true) /\
    exists more, r = result ++ more.
Proof.
  induction fuel as [|fuel IHfuel]; [done|].
  induction items as [|item items IHitems]; intros result r Hq Hnd Hall.
  - rewrite query_walk_nil in Hq. injection Hq as <-.
    split; [done|]. split; [done|]. exists []. by rewrite app_nil_r.
  - rewrite query_walk_cons in Hq.
    destruct (if node_instanceof h item is_Tab || node_instanceof h item is_Group
              then query_walk fuel h (default [] (h !! item ≫= children)) result
              else Some result) as [result1|] eqn:Hbelow; [|done].
    assert (NoDup result1 /\
            (forall x, x ∈ result1 -> node_instanceof h x is_Rule = true) /\
            exists more, result1 = result ++ more) as (Hnd1 & Hall1 & more1 & Hmore1).
    { destruct (node_instanceof h item is_Tab || node_instanceof h item is_Group).
      - by eapply IHfuel.
      - injection Hbelow as <-. split; [done|]. split; [done|].
        exists []. by rewrite app_nil_r. }
    apply IHitems in Hq as (Hndr & Hallr & more & Hmore).
    + split; [done|]. split; [done|].
      unfold rule_self in Hmore.
      destruct (node_instanceof h item is_Rule); simpl in Hmore.
      * unfold set_add in Hmore. case_bool_decide.
        -- exists (more1 ++ more). by rewrite Hmore, Hmore1, app_assoc.
        -- exists (more1 ++ [item] ++ more).
           by rewrite Hmore, Hmore1, !app_assoc.
      * exists (more1 ++ more). by rewrite Hmore, Hmore1, app_assoc.
    + unfold rule_self. destruct (node_instanceof h item is_Rule); simpl; [|done].
      by apply set_add_NoDup.
    + unfold rule_self. destruct (node_instanceof h item is_Rule) eqn:Hr; simpl; [|done].
      intros x [Hx| ->]%set_add_elem; [by apply Hall1|done].
Qed.

Lemma first_occurrences_NoDup_id (order seen : list nat) :
  NoDup order -> (forall x, x ∈ order -> x ∉ seen) ->
  first_occurrences seen order = order.
Proof.
  intros Hnd. revert seen. induction Hnd as [|x order Hx _ IH]; intros seen Hseen; simpl.
  - done.
  - rewrite bool_decide_false by (apply Hseen, list_elem_of_here).
    f_equal. apply IH. intros y Hy [Hin| ->%list_elem_of_singleton]%elem_of_app.
    + by apply (Hseen y); [apply list_elem_of_further|].
    + done.
Qed.

Lemma query_unfold (base : option (list nat)) (w : World) :
  query base w
  = match query_walk (S (length (heap w))) (heap w) (default (tabs w) base) [] with
    | Some result => (inr result, w)
    | None => (inl (RangeError "too much recursion"), w)
    end.
Proof.
  unfold query, query_in, bind, get_state.
  by destruct (query_walk _ _ _ _).
Qed.

(** X12.  A result of [query] is a fixed point: whatever the heap and
    the base, when [query] returns a list, the list holds Rule and Text
    nodes only, each once, the tree is as before, and [query] with that
    list as its base returns the list itself. *)
Theorem query_of_its_result
    (w w' : World) (base : option (list nat)) (result : list nat) :
  query base w = (inr result, w') ->
  w' = w /\
  NoDup result /\
  (forall r, r ∈ result -> node_instanceof (heap w) r is_Rule = true) /\
  query (Some result) w = (inr result, w).
Proof.
  rewrite query_unfold.
  destruct (query_walk _ _ _ _) as [r|] eqn:Hq; [|done]. intros [= -> <-].
  apply query_walk_result in Hq as (Hnd & Hall & _);
    [|constructor|by intros x ?%elem_of_nil].
  split; [done|]. split; [done|]. split; [done|].
  rewrite query_unfold. change (default (tabs w) (Some result)) with result.
  rewrite query_walk_rules by (by apply Forall_forall).
  rewrite add_all_first_occurrences, app_nil_l.
  rewrite first_occurrences_NoDup_id; [done|done|].
  by intros x _ ?%elem_of_nil.
Qed.

Lemma query_walk_app (fuel : nat) (h : list Node) (items1 items2 result : list nat) :
  query_walk (S fuel) h (items1 ++ items2) result
  = match query_walk (S fuel) h items1 result with
    | Some result1 => query_walk (S fuel) h items2 result1
    | None => None
    end.
Proof.
  revert result. induction items1 as [|item items1 IH]; intros result.
  - by rewrite app_nil_l, query_walk_nil.
  - rewrite <-app_comm_cons, !query_walk_cons.
    destruct (if node_instanceof h item is_Tab || node_instanceof h item is_Group
              then _ else _); [|done].
    apply IH.
Qed.

(** X13.  The order of the base is the order of the result: when [query]
    returns for the base [base1 ++ base2], it returns for [base1] too, and
    the result for the longer base starts with the result for [base1]. *)
Theorem query_follows_base
    (w w' : World) (base1 base2 result : list nat) :
  query (Some (base1 ++ base2)) w = (inr result, w') ->
  exists result1 more,
    query (Some base1) w = (inr result1, w) /\
    result = result1 ++ more.
Proof.
  rewrite !query_unfold.
  change (default (tabs w) (Some (base1 ++ base2))) with (base1 ++ base2).
  change (default (tabs w) (Some base1)) with base1.
  rewrite query_walk_app.
  destruct (query_walk _ _ base1 _) as [r1|] eqn:H1; [|done].
  destruct (query_walk _ _ base2 _) as [r|] eqn:H2; [|done]. intros [= <- _].
  apply query_walk_result in H1 as (Hnd & Hall & _);
    [|constructor|by intros x ?%elem_of_nil].
  apply query_walk_result in H2 as (_ & _ & more & ->); [|done|done].
  by exists r1, more.
Qed.

(** ** Further results: defaults and always-items *)

Lemma normalize_undefined (v : Variant) :
  v <> PlainItem ->
  (forall opts, v = SelectItem opts -> SelectConfigItem_check opts = inr tt) ->
  normalize v VUndef = inr (initial v).
Proof.
  intros Hv Hsel. destruct v as [| |opts|a|a]; try done.
  destruct (SelectConfigItem_check_inv opts (Hsel opts eq_refl)) as (items & -> & Hitems).
  unfold normalize, initial.
  destruct (SelectConfigItem_normalize_value items VUndef Hitems)
    as [[(item & Hin & Hval) _]|[_ ->]]; [|done].
  destruct (proj1 (Forall_forall _ _) Hitems item Hin) as [str Hstr]. congruence.
Qed.

(** X4.  A setting that was never stored reads as the initial value of
    its class, and the read stores nothing: [false] for a Boolean item,
    [min] for a Number or Range item, whatever its attributes, the value
    of the first option (or [null] without options) for a constructed
    Select item. *)
Theorem getConfig_default (v : Variant) (b : Binding) (e : Env) (key : string) :
  binding_key b = Some key ->
  store e !! key = None ->
  v <> PlainItem ->
  (forall opts, v = SelectItem opts -> SelectConfigItem_check opts = inr tt) ->
  exists b' e',
    getConfig v (b, e) = (inr (initial v), (b', e')) /\
    store e' = store e /\ store_writes e' = store_writes e.
Proof.
  intros Hkey Hnone Hv Hsel.
  destruct (initConfig_binds b e key Hkey) as (b1 & e1 & Hinit & Hc & Hst & Hw & _).
  unfold getConfig, bind. rewrite Hinit. simpl. rewrite Hc. simpl.
  rewrite Hst, Hnone. simpl. rewrite (normalize_undefined v Hv Hsel). simpl.
  by eexists _, _.
Qed.

Lemma ConfigItem_new_binding (item : ItemDecl) (n n' : nat)
    (b : Binding) (ref : list (string * Item)) :
  ConfigItem_new item None None n = (inr (b, ref), n') ->
  id b = d_id item /\ config b = d_config item /\ configInitialized b = false.
Proof.
  unfold ConfigItem_new, bind.
  destruct (build_refs configItemBuilder (own_id item None) (d_ref item) n)
    as [[e|refs] n1]; [done|].
  unfold ConfigItem_init, nextConfigId, bind, ret. simpl. intros [= <- <- <-]. simpl.
  split; [|done]. unfold own_id. by destruct (id_truthy (d_id item)).
Qed.

(** The binding of the node a declaration enters. *)
Lemma declare_binding (x : Declaration) (w w' : World) (this : nat) :
  declare x w = (inr this, w') ->
  exists node, heap w' !! this = Some node /\
    id (binding node) = d_id (r_item (declared x)) /\
    config (binding node) = d_config (r_item (declared x)) /\
    configInitialized (binding node) = false.
Proof.
  assert (forall c d w0 w1 k, RuleItem_new c d w0 = (inr k, w1) ->
            exists node, heap w1 !! k = Some node /\ last (heap w1) = Some node /\
              S k = length (heap w1) /\
              id (binding node) = d_id (r_item d) /\
              config (binding node) = d_config (r_item d) /\
              configInitialized (binding node) = false) as Hnew.
  { intros c d w0 w1 k. rewrite RuleItem_new_eq.
    destruct (ConfigItem_new (r_item d) None None (configIds w0))
      as [[e|[b ref]] ids] eqn:Hb; [done|].
    apply ConfigItem_new_binding in Hb as (Hid & Hc & Hi).
    destruct (push_to_parent_cases (r_parent d) (length (heap w0)) (set_configIds ids w0))
      as [[e ->]|[-> _]]; [done|].
    intros [= <- <-]. eexists. simpl.
    pose proof (pushed_length (r_parent d) (length (heap w0)) (heap w0)) as Hlen.
    split; [|split; [apply last_snoc|split; [|done]]].
    - rewrite lookup_app_r by lia. by rewrite Hlen, Nat.sub_diag.
    - rewrite length_app, Hlen. simpl. lia. }
  assert (forall (f : Node -> Node) k (h : list Node) node,
            h !! k = Some node -> binding (f node) = binding node ->
            exists node', alter f k h !! k = Some node' /\
                          binding node' = binding node) as Halter.
  { intros f k h node Hn Hf. exists (f node). split; [|done].
    by rewrite list_lookup_alter_eq, Hn. }
  destruct x as [d|d|d|d]; simpl.
  - unfold tabBuilder, bind.
    destruct (RuleItem_new TabClass d w) as [[e|k] w1] eqn:H; [done|].
    apply Hnew in H as (node & Hn & _ & _ & Hid & Hc & Hi).
    unfold update_node, modify. simpl. intros [= <- <-]. simpl.
    destruct (Halter (set_children (Some [])) k (heap w1) node Hn eq_refl)
      as (node' & Hn' & Hb). exists node'. by rewrite Hb.
  - unfold groupBuilder, bind, get_state.
    destruct (negb (parent_instanceof (heap w) (r_parent d) is_Tab)); [done|].
    destruct (RuleItem_new GroupClass d w) as [[e|k] w1] eqn:H; [done|].
    apply Hnew in H as (node & Hn & _ & _ & Hid & Hc & Hi).
    unfold update_node, modify. simpl. intros [= <- <-]. simpl.
    destruct (Halter (set_children (Some [])) k (heap w1) node Hn eq_refl)
      as (node' & Hn' & Hb). exists node'. by rewrite Hb.
  - unfold ruleBuilder, Rule_new, bind, get_state.
    destruct (negb (parent_instanceof (heap w) (r_parent d) is_Group)); [done|].
    intros H. apply Hnew in H as (node & Hn & _ & _ & Hid & Hc & Hi). by exists node.
  - unfold textBuilder, Rule_new, bind, get_state.
    destruct (negb (parent_instanceof (heap w) (r_parent d) is_Group)); [done|].
    destruct (RuleItem_new TextClass d w) as [[e|k] w1] eqn:H; [done|].
    apply Hnew in H as (node & Hn & _ & _ & Hid & Hc & Hi).
    unfold update_node, modify. simpl. intros [= <- <-]. simpl.
    destruct (Halter (set_own_always (Some true)) k (heap w1) node Hn eq_refl)
      as (node' & Hn' & Hb). exists node'. by rewrite Hb.
Qed.

(** X15.  An always-item needs no config: right after the declaration of
    a Text, of a Rule declared [always], or of a Tab or Group that does
    not declare [always: false], [isEnabled] is [true] without any read,
    so also without an [id], and it leaves store, listeners and tree as
    they are. *)
Theorem always_items_are_enabled (x : Declaration) (w w' : World) (this : nat) :
  declare x w = (inr this, w') ->
  always_declared x = true ->
  isEnabled this w' = (inr (VBool true), w').
Proof.
  intros Hd Hal.
  destruct (declare_cases x w) as [(e0 & w0 & H & _)|
    (node & w0 & H & Hh & Hcls & _ & _ & _ & _ & _ & Hown & _)];
    rewrite H in Hd; [done|].
  injection Hd as <- <-.
  pose proof (pushed_length (r_parent (declared x)) (length (heap w)) (heap w)) as Hlen.
  assert (heap w0 !! length (heap w) = Some node) as Hn.
  { rewrite Hh, lookup_app_r by lia. by rewrite Hlen, Nat.sub_diag. }
  unfold isEnabled, bind, get_state. rewrite Hn.
  assert (node_always node = true) as ->; [|done].
  unfold node_always. rewrite Hown, Hcls.
  destruct x as [d|d|d|d]; simpl in *; try done.
  - destruct (r_always d) as [[|]|]; done.
  - destruct (r_always d) as [[|]|]; done.
  - by apply bool_decide_eq_true in Hal as ->.
Qed.

(** ** Further results: [rule.init] on a declared tree *)

Lemma pushed_lookup_same (p : Parent) (this : nat) (h : list Node) (i : nat) (n' : Node) :
  pushed p this h !! i = Some n' ->
  exists n, h !! i = Some n /\ cls n' = cls n /\ binding n' = binding n /\
            own_always n' = own_always n.
Proof.
  destruct p as [|r|v]; simpl; eauto.
  destruct (h !! r) as [n|] eqn:Hn; eauto.
  destruct (children n) as [cs|]; eauto.
  destruct (decide (r = i)) as [->|Hne].
  - rewrite list_lookup_insert_eq by (by eapply lookup_lt_Some).
    intros [= <-]. by exists n.
  - rewrite list_lookup_insert_ne by done. eauto.
Qed.

Lemma declare_keeps_readable (x : Declaration) (w : World) :
  declaration_readable x = true ->
  rules_readable (heap w) -> rules_readable (heap (snd (declare x w))).
Proof.
  intros Hx Hread.
  destruct (declare x w) as [[e|this] w'] eqn:Hd; simpl.
  { destruct (declare_cases x w) as [(e0 & w0 & H & Hh & _)|(node & w0 & H & _)];
      rewrite H in Hd; [|done].
    injection Hd as <- <-. by rewrite Hh. }
  destruct (declare_binding x w w' this Hd) as (node' & Hnode' & Hid & Hc & Hi).
  destruct (declare_cases x w) as [(e0 & w0 & H & _)|
    (node & w0 & H & Hh & Hcls & _ & _ & _ & _ & _ & Hown & _)];
    rewrite H in Hd; [done|].
  injection Hd as <- <-.
  pose proof (pushed_length (r_parent (declared x)) (length (heap w)) (heap w)) as Hlen.
  assert (node' = node) as ->.
  { rewrite Hh, lookup_app_r in Hnode' by lia.
    rewrite Hlen, Nat.sub_diag in Hnode'. by injection Hnode'. }
  intros r Hr. apply can_read_spec. unfold node_instanceof in Hr.
  destruct (heap w0 !! r) as [n'|] eqn:Hn'; [|done].
  exists n'. split; [done|]. rewrite Hh in Hn'.
  apply lookup_app_Some in Hn' as [Hn'|[Hge Hn']].
  - apply pushed_lookup_same in Hn' as (n & Hn & Hcn & Hbn & Hon).
    assert (can_read (heap w) r) as (m & Hm & Hok)%can_read_spec.
    { apply Hread. unfold node_instanceof. by rewrite Hn, <-Hcn. }
    rewrite Hn in Hm. injection Hm as <-.
    unfold node_always in *. by rewrite Hon, Hcn, Hbn.
  - apply list_lookup_singleton_Some in Hn' as [_ <-].
    unfold node_always. rewrite Hown, Hcls. rewrite Hcls in Hr.
    destruct x as [d|d|d|d]; simpl in *; try done; [|by left].
    apply orb_prop in Hx as [[Hx|Hx]%orb_prop|Hx].
    + right. unfold binding_key. rewrite Hc, Hi, Hid.
      destruct (d_config (r_item d)); [done|]. rewrite Hx.
      by destruct (d_id (r_item d)).
    + right. unfold binding_key. rewrite Hc.
      apply bool_decide_eq_true in Hx as [k ->]. done.
    + left. by apply bool_decide_eq_true in Hx as ->.
Qed.

Lemma declare_all_readable (xs : list Declaration) (w : World) :
  forallb declaration_readable xs = true ->
  rules_readable (heap w) -> rules_readable (heap (declare_all xs w)).
Proof.
  revert w. induction xs as [|x xs IH]; intros w Hxs Hread; simpl; [done|].
  simpl in Hxs. apply andb_prop in Hxs as [Hx Hxs].
  apply IH; [done|]. by apply declare_keeps_readable.
Qed.


(** ** Further results: the choice of the user and the style sheet *)

Lemma initConfig_initialized (b : Binding) (e : Env) (key : string) :
  binding_key b = Some key ->
  exists bi ei, initConfig (b, e) = (inr tt, (bi, ei)) /\
    config bi = Some key /\ configInitialized bi = true /\
    store ei = store e /\ store_writes ei = store_writes e /\
    rule_style ei = rule_style e /\ debug_log ei = debug_log e.
Proof.
  unfold binding_key, initConfig, bind, get_state. simpl.
  destruct (configInitialized b) eqn:Hi.
  - destruct (config b) eqn:Hc; [|done]. intros [= ->].
    exists b, e. by rewrite Hc.
  - destruct (config b) as [k|] eqn:Hc.
    + intros [= ->]. eexists _, _. split; [reflexivity|done].
    + destruct (id b) as [i|] eqn:Hid; simpl; [|done].
      destruct (id_truthy (Some i)) eqn:Hti; [|done]. intros [= ->].
      eexists _, _. split; [reflexivity|done].
Qed.

(** A read of a bound item whose stored value is normal already. *)
Lemma getConfig_bound_stored (v : Variant) (b : Binding) (e : Env)
    (key : string) (n : JsVal) :
  configInitialized b = true -> config b = Some key ->
  store e !! key = Some n -> normalize v n = inr n ->
  exists e2, getConfig v (b, e) = (inr n, (b, e2)) /\
    store e2 !! key = Some n /\
    rule_style e2 = rule_style e /\ debug_log e2 = debug_log e.
Proof.
  intros Hi Hc Hst Hn.
  unfold getConfig, bind. rewrite (initConfig_bound b e key Hi Hc). simpl.
  rewrite Hc. simpl. rewrite Hst. simpl. rewrite Hn. simpl.
  destruct (getConfig_writes_back n n); simpl.
  - eexists. split; [reflexivity|]. simpl. by rewrite lookup_insert_eq.
  - by eexists.
Qed.

(** The [try] block on a rule with string styles and no callbacks. *)
Lemma execute_body_strings (n : Node) (enabled : JsVal) (e : Env)
    (c a : string) (sheet : list string) :
  css n = StyleString c -> acss n = StyleString a ->
  init n = None -> ainit n = None ->
  rule_style e = Some sheet ->
  exists e', execute_body n enabled e = (inr tt, e') /\
    rule_style e' = Some (sheet ++ [if truthy enabled then c +:+ newline +:+ a else c]) /\
    debug_log e' = debug_log e /\ store e' = store e.
Proof.
  intros Hcss Hacss Hinit Hainit Hsheet.
  unfold execute_body, bind. rewrite Hcss, Hacss, Hinit, Hainit. simpl.
  destruct (truthy enabled); simpl; unfold style_append; rewrite Hsheet; simpl;
    by eexists.
Qed.


(** ** Further results: when a declaration is accepted *)

Lemma ItemDecl_nested_ind (P : ItemDecl -> Prop) :
  (forall item, Forall (fun kd => P (snd kd)) (d_ref item) -> P item) ->
  forall item, P item.
Proof.
  intros H. fix IH 1. intros [ty i c sel mi ma st ref]. apply H. simpl.
  revert ref. fix IHref 1. intros [|[k d] ref].
  - constructor.
  - constructor; [apply IH|apply IHref].
Qed.

Lemma decl_valid_eq (item : ItemDecl) :
  decl_valid item
  = refs_valid item && (negb (item_type_is item "select") || select_valid (d_select item)).
Proof.
  destruct item as [ty i c sel mi ma st ref]. unfold refs_valid, item_type_is. simpl.
  f_equal. induction ref as [|[k d] ref IH]; [done|]. simpl. by rewrite IH.
Qed.

Lemma configItemBuilder_eq (item : ItemDecl) (key : option string)
    (context : option (option string)) :
  configItemBuilder item key context
  = (let! ref := build_refs configItemBuilder (own_id item key) (d_ref item) in
     if item_type_is item "boolean" then
       let! b := ConfigItem_init item key context in
       ret (ConfigItemObj BooleanItem b ref)
     else if item_type_is item "select" then
       let! b := ConfigItem_init item key context in
       lift_sum (SelectConfigItem_check (d_select item)) ;;
       ret (ConfigItemObj (SelectItem (d_select item)) b ref)
     else if item_type_is item "number" then
       let! b := ConfigItem_init item key context in
       ret (ConfigItemObj (NumberItem (number_attrs item)) b ref)
     else if item_type_is item "range" then
       let! b := ConfigItem_init item key context in
       ret (ConfigItemObj (RangeItem (number_attrs item)) b ref)
     else if item_type_is item "bubble" then
       ret (BubbleObj (own_id item key) ref)
     else
       let! b := ConfigItem_init item key context in
       ret (ConfigItemObj PlainItem b ref)).
Proof. by destruct item. Qed.

Lemma build_refs_built (context : option string) (decls : list (string * ItemDecl)) :
  Forall (fun kd => forall key ctx n,
            built (decl_valid (snd kd)) (configItemBuilder (snd kd) key ctx n)) decls ->
  forall n, built (forallb (fun kd => decl_valid (snd kd)) decls)
                  (build_refs configItemBuilder context decls n).
Proof.
  induction 1 as [|[k d] decls Hd _ IH]; intros n; simpl.
  - by eexists _, _.
  - specialize (Hd (Some k) (Some context) n). simpl in Hd. unfold bind.
    destruct (decl_valid d); simpl.
    + destruct Hd as (it & n1 & ->). specialize (IH n1).
      destruct (forallb _ decls).
      * destruct IH as (items & n2 & ->). by eexists _, _.
      * destruct IH as (msg & n2 & ->). by eexists _, _.
    + destruct Hd as (msg & n1 & ->). by eexists _, _.
Qed.

Lemma configItemBuilder_built (item : ItemDecl) :
  forall key ctx n, built (decl_valid item) (configItemBuilder item key ctx n).
Proof.
  induction item as [item IH] using ItemDecl_nested_ind. intros key ctx n.
  rewrite configItemBuilder_eq, decl_valid_eq. unfold bind at 1.
  pose proof (build_refs_built (own_id item key) (d_ref item) IH n) as Hrefs.
  fold (refs_valid item) in Hrefs.
  destruct (refs_valid item); simpl.
  2: { destruct Hrefs as (msg & n1 & ->). by eexists _, _. }
  destruct Hrefs as (ref & n1 & ->).
  destruct (item_type_is item "boolean") eqn:Hb.
  { assert (item_type_is item "select" = false) as ->.
    { unfold item_type_is in *. apply strict_eq_string_inv in Hb as ->. done. }
    by eexists _, _. }
  destruct (item_type_is item "select"); simpl.
  { pose proof (SelectConfigItem_check_spec (d_select item)) as Hc.
    unfold bind, ConfigItem_init, nextConfigId, ret, lift_sum. simpl.
    destruct (select_valid (d_select item)).
    - rewrite Hc. by eexists _, _.
    - destruct Hc as [msg ->]. by eexists _, _. }
  destruct (item_type_is item "number"); [by eexists _, _|].
  destruct (item_type_is item "range"); [by eexists _, _|].
  destruct (item_type_is item "bubble"); by eexists _, _.
Qed.

(** X21.  [configItemBuilder] fails on an invalid select item only,
    however deep it sits: it returns an object when every item of type
    ["select"] in the declaration and below it, through the [ref]s, has
    an array of options with string values, and throws a [TypeError]
    otherwise. *)
Theorem configItemBuilder_accepts
    (item : ItemDecl) (key : option string) (context : option (option string)) (n : nat) :
  if decl_valid item
  then exists it n', configItemBuilder item key context n = (inr it, n')
  else exists msg n', configItemBuilder item key context n = (inl (TypeError msg), n').
Proof. apply configItemBuilder_built. Qed.

Lemma ConfigItem_new_built (item : ItemDecl) (n : nat) :
  built (refs_valid item) (ConfigItem_new item None None n).
Proof.
  unfold ConfigItem_new, bind.
  pose proof (build_refs_built (own_id item None) (d_ref item)) as Hrefs.
  specialize (Hrefs ltac:(apply Forall_forall; intros kd _; apply configItemBuilder_built) n).
  fold (refs_valid item) in Hrefs.
  destruct (refs_valid item).
  - destruct Hrefs as (ref & n1 & ->). by eexists _, _.
  - destruct Hrefs as (msg & n1 & ->). by eexists _, _.
Qed.

Lemma push_to_parent_built (p : Parent) (this : nat) (w : World) :
  if parent_pushable (heap w) p
  then push_to_parent p this w = (inr tt, set_heap (pushed p this (heap w)) w)
  else exists msg, push_to_parent p this w = (inl (TypeError msg), w).
Proof.
  destruct p as [|r|v]; simpl.
  - by destruct w.
  - unfold bind, get_state. destruct (heap w !! r) as [n|] eqn:Hn; [|eauto].
    destruct (children n) as [cs|] eqn:Hcs; simpl.
    + done.
    + eauto.
  - destruct (truthy v); simpl; [|by destruct w].
    destruct (get_prop v "children") as [[]|]; eauto. by destruct w.
Qed.

Lemma RuleItem_new_built (c : NodeClass) (d : RuleDecl) (w : World) :
  if refs_valid (r_item d) && parent_pushable (heap w) (r_parent d)
  then exists w', RuleItem_new c d w = (inr (length (heap w)), w')
  else exists msg w', RuleItem_new c d w = (inl (TypeError msg), w').
Proof.
  rewrite RuleItem_new_eq.
  pose proof (ConfigItem_new_built (r_item d) (configIds w)) as Hnew.
  destruct (refs_valid (r_item d)); simpl.
  2: { destruct Hnew as (msg & n1 & ->). by eexists _, _. }
  destruct Hnew as ([b ref] & n1 & ->).
  pose proof (push_to_parent_built (r_parent d) (length (heap w)) (set_configIds n1 w))
    as Hpush. simpl in Hpush.
  destruct (parent_pushable (heap w) (r_parent d)).
  - rewrite Hpush. by eexists.
  - destruct Hpush as [msg ->]. by eexists _, _.
Qed.

(** X14.  What a declaration needs, and all it needs: a declaration is
    accepted, and returns the node at the next index, exactly when its
    parent is of the class its constructor insists on, the parent has a
    [children] array to take it, and every select item below its [ref]
    has valid options; every other declaration throws a [TypeError]. *)
Theorem declare_accepts (x : Declaration) (w : World) :
  if parent_guard (heap w) x && refs_valid (r_item (declared x))
     && parent_pushable (heap w) (r_parent (declared x))
  then exists w', declare x w = (inr (length (heap w)), w')
  else exists msg w', declare x w = (inl (TypeError msg), w').
Proof.
  destruct x as [d|d|d|d]; unfold parent_guard; simpl.
  - pose proof (RuleItem_new_built TabClass d w) as H.
    unfold tabBuilder, bind.
    destruct (refs_valid (r_item d) && parent_pushable (heap w) (r_parent d)).
    + destruct H as [w' ->]. by eexists.
    + destruct H as (msg & w' & ->). by eexists _, _.
  - unfold groupBuilder, bind, get_state.
    destruct (parent_instanceof (heap w) (r_parent d) is_Tab); simpl;
      [|by eexists _, _].
    pose proof (RuleItem_new_built GroupClass d w) as H.
    destruct (refs_valid (r_item d) && parent_pushable (heap w) (r_parent d)).
    + destruct H as [w' ->]. by eexists.
    + destruct H as (msg & w' & ->). by eexists _, _.
  - unfold ruleBuilder, Rule_new, bind, get_state.
    destruct (parent_instanceof (heap w) (r_parent d) is_Group); simpl;
      [|by eexists _, _].
    apply RuleItem_new_built.
  - unfold textBuilder, Rule_new, bind, get_state.
    destruct (parent_instanceof (heap w) (r_parent d) is_Group); simpl;
      [|by eexists _, _].
    pose proof (RuleItem_new_built TextClass d w) as H.
    destruct (refs_valid (r_item d) && parent_pushable (heap w) (r_parent d)).
    + destruct H as [w' ->]. by eexists.
    + destruct H as (msg & w' & ->). by eexists _, _.
Qed.

(** ** Further results: [execute] before [rule.init] *)

(** No config operation touches the style sheet, the debug log or the
    page. *)
Lemma getConfig_keeps_page (v : Variant) (b b' : Binding) (e e' : Env) (r : Exn + JsVal) :
  getConfig v (b, e) = (r, (b', e')) ->
  rule_style e' = rule_style e /\ debug_log e' = debug_log e /\ page e' = page e.
Proof.
  unfold getConfig, bind at 1.
  assert (forall b0 e0 (x : Exn + unit), initConfig (b, e) = (x, (b0, e0)) ->
            rule_style e0 = rule_style e /\ debug_log e0 = debug_log e /\
            page e0 = page e) as Hinit.
  { intros b0 e0 x. unfold initConfig, bind, get_state. simpl.
    destruct (configInitialized b); [by intros [= _ _ <-]|].
    destruct (config b) as [k|]; [by intros [= _ _ <-]|].
    destruct (id b) as [i|]; [|by intros [= _ _ <-]].
    destruct (id_truthy (Some i)); by intros [= _ _ <-]. }
  destruct (initConfig (b, e)) as [[x|[]] [b0 e0]] eqn:Hi;
    destruct (Hinit _ _ _ eq_refl) as (Hr & Hd & Hp).
  { by intros [= _ _ <-]. }
  unfold bind, get_state. simpl.
  destruct (config b0) as [key|]; [|by intros [= _ _ <-]].
  unfold on_env, zoom, config_get, lift_sum. simpl.
  destruct (normalize v (default VUndef (store e0 !! key))) as [x|n]; simpl;
    [by intros [= _ _ <-]|].
  destruct (getConfig_writes_back _ n); simpl; by intros [= _ _ <-].
Qed.


(** ** Further results: the ids of nested items *)

Lemma configItemBuilder_id (d : ItemDecl) (k : string) (context : option string)
    (n n' : nat) (it : Item) :
  configItemBuilder d (Some k) (Some context) n = (inr it, n') ->
  item_id it = nested_id context k d.
Proof.
  rewrite configItemBuilder_eq. unfold bind at 1, nested_id.
  destruct (build_refs configItemBuilder (own_id d (Some k)) (d_ref d) n)
    as [[e|ref] n1]; [done|].
  assert (forall ty, item_type_is d ty = true -> ty <> "bubble" ->
            item_type_is d "bubble" = false) as Hother.
  { intros ty Hty Hne. unfold item_type_is in *.
    apply strict_eq_string_inv in Hty as ->. simpl. by apply bool_decide_false. }
  unfold ConfigItem_init, nextConfigId, bind, ret, lift_sum.
  destruct (item_type_is d "boolean") eqn:E1.
  { rewrite (Hother "boolean") by done. by intros [= <- _]. }
  destruct (item_type_is d "select") eqn:E2.
  { rewrite (Hother "select") by done. simpl.
    destruct (SelectConfigItem_check (d_select d)); [done|]. by intros [= <- _]. }
  destruct (item_type_is d "number") eqn:E3.
  { rewrite (Hother "number") by done. by intros [= <- _]. }
  destruct (item_type_is d "range") eqn:E4.
  { rewrite (Hother "range") by done. by intros [= <- _]. }
  destruct (item_type_is d "bubble"); by intros [= <- _].
Qed.

Lemma build_refs_ids (context : option string) (decls : list (string * ItemDecl))
    (n n' : nat) (items : list (string * Item)) :
  build_refs configItemBuilder context decls n = (inr items, n') ->
  Forall2 (fun kd ki => fst ki = fst kd /\
                        item_id (snd ki) = nested_id context (fst kd) (snd kd))
          decls items.
Proof.
  revert n items. induction decls as [|[k d] decls IH]; intros n items; simpl.
  - intros [= <- _]. constructor.
  - unfold bind.
    destruct (configItemBuilder d (Some k) (Some context) n) as [[e|it] n1] eqn:Hd;
      [done|].
    destruct (build_refs configItemBuilder context decls n1) as [[e|rest] n2] eqn:Hrest;
      [done|].
    intros [= <- <-]. constructor.
    + split; [done|]. by eapply configItemBuilder_id.
    + by eapply IH.
Qed.

(** X23.  The store keys of nested items: an item built by
    [configItemBuilder] holds in its [ref], key by key and in the order of
    the declaration, the items of the declaration's [ref], and the [id] of
    each is its own [id], or else its key, behind the [id] that the item
    itself had before its own prefix was put in front, whatever context
    the item itself is built in: the prefix of an [id] is one level deep. *)
Theorem nested_ids_are_one_level_deep
    (item : ItemDecl) (key : option string) (context : option (option string))
    (n n' : nat) (it : Item) :
  configItemBuilder item key context n = (inr it, n') ->
  Forall2 (fun kd ki => fst ki = fst kd /\
                        item_id (snd ki) = nested_id (own_id item key) (fst kd) (snd kd))
          (d_ref item) (item_ref it).
Proof.
  rewrite configItemBuilder_eq. unfold bind at 1.
  destruct (build_refs configItemBuilder (own_id item key) (d_ref item) n)
    as [[e|ref] n1] eqn:Href; [done|].
  apply build_refs_ids in Href.
  unfold ConfigItem_init, nextConfigId, bind, ret, lift_sum.
  destruct (item_type_is item "boolean"); [by intros [= <- _]|].
  destruct (item_type_is item "select").
  { simpl. destruct (SelectConfigItem_check (d_select item)); [done|]. by intros [= <- _]. }
  destruct (item_type_is item "number"); [by intros [= <- _]|].
  destruct (item_type_is item "range"); [by intros [= <- _]|].
  destruct (item_type_is item "bubble"); by intros [= <- _].
Qed.

End Framework.



(** ** The template engine: results *)

Lemma span_length (p : ascii -> bool) (s run rest : string) :
  Template.span p s = (run, rest) ->
  String.length s = (String.length run + String.length rest)%nat.
Proof.
  revert run rest. induction s as [|c s IH]; intros run rest; simpl.
  - by intros [= <- <-].
  - destruct (p c); [|by intros [= <- <-]].
    destruct (Template.span p s) as [run' rest'] eqn:E.
    intros [= <- <-]. simpl. by rewrite (IH run' rest').
Qed.

Lemma match_bracketed_shorter (o c : ascii) (s g rest : string) :
  Template.match_bracketed o c s = Some (g, rest) ->
  (String.length rest < String.length s)%nat.
Proof.
  unfold Template.match_bracketed.
  destruct s as [|a [|b s1]]; try done.
  destruct (Template.is_char a o && Template.is_char b o); [|done].
  destruct (Template.span _ s1) as [run rest'] eqn:E.
  apply span_length in E. simpl.
  destruct run as [|r run]; [done|].
  destruct rest' as [|e [|f rest'']]; try done.
  destruct (Template.is_char e c && Template.is_char f c); [|done].
  intros [= _ <-]. simpl in E. lia.
Qed.

Lemma match_here_shorter (s : string) (m : list (option string)) (rest : string) :
  Template.match_here s = Some (m, rest) ->
  (String.length rest < String.length s)%nat.
Proof.
  unfold Template.match_here.
  destruct (Template.match_bracketed "{" "}" s) as [[g r]|] eqn:E1.
  { intros [= _ <-]. by eapply match_bracketed_shorter. }
  destruct (Template.match_bracketed "[" "]" s) as [[g r]|] eqn:E2.
  { intros [= _ <-]. by eapply match_bracketed_shorter. }
  destruct (Template.match_splitter s) as [[g r]|] eqn:E3.
  { intros [= _ <-]. unfold Template.match_splitter in E3.
    destruct s as [|a s1]; [done|]. destruct (Template.is_char a "|"); [|done].
    destruct s1 as [|b s2]; [injection E3 as _ <-; simpl; lia|].
    destruct (Template.is_char b "|"); injection E3 as _ <-; simpl; lia. }
  destruct (Template.match_text s) as [[g r]|] eqn:E4; [|done].
  intros [= _ <-]. unfold Template.match_text in E4.
  destruct (Template.span _ s) as [run rest'] eqn:E.
  apply span_length in E. destruct run as [|x run].
  - destruct s as [|a s1]; [done|]. destruct (Template.is_char a "&"); [|done].
    destruct (Template.span _ s1) as [run2 rest2] eqn:E'.
    apply span_length in E'. destruct run2 as [|y run2]; [done|].
    destruct rest2 as [|e rest2]; [done|].
    destruct (Template.is_char e ";"); [|done].
    injection E4 as _ <-. simpl in *. lia.
  - injection E4 as _ <-. simpl in E. lia.
Qed.

Lemma exec_shorter (s : string) (m : list (option string)) (rest : string) :
  Template.exec s = Some (m, rest) -> (String.length rest < String.length s)%nat.
Proof.
  induction s as [|c s IH]; simpl.
  - done.
  - destruct (Template.match_here (String c s)) as [[m' r']|] eqn:E.
    + intros [= _ <-]. by apply match_here_shorter in E.
    + intros H. apply IH in H. lia.
Qed.

(** The loop of [tokenize] never runs out of fuel: more fuel than the
    length of the template gives the same matches. *)
Lemma matches_loop_enough_fuel (fuel : nat) (s : string) :
  (String.length s < fuel)%nat ->
  Template.matches_loop fuel s = Template.matches_loop (S (String.length s)) s.
Proof.
  assert (forall n f1 f2 t, (String.length t < n)%nat ->
            (String.length t < f1)%nat -> (String.length t < f2)%nat ->
            Template.matches_loop f1 t = Template.matches_loop f2 t) as H.
  { induction n as [|n IH]; intros f1 f2 t Hn H1 H2; [lia|].
    destruct f1 as [|f1], f2 as [|f2]; try lia. simpl.
    destruct (Template.exec t) as [[m rest]|] eqn:E; [|done].
    apply exec_shorter in E. f_equal. apply IH; lia. }
  intros Hf. apply (H (S (String.length s))); lia.
Qed.

(** *** The shape of the tokens *)

Lemma span_spec (p : ascii -> bool) (s run rest : string) :
  Template.span p s = (run, rest) ->
  all_chars p run = true /\ s = run +:+ rest /\
  match rest with String c _ => p c = false | "" => True end.
Proof.
  revert run rest. induction s as [|c s IH]; intros run rest; simpl.
  - by intros [= <- <-].
  - destruct (p c) eqn:Hc; [|by intros [= <- <-]].
    destruct (Template.span p s) as [run' rest'] eqn:E.
    intros [= <- <-]. destruct (IH run' rest' eq_refl) as (Hall & -> & Hrest).
    simpl. by rewrite Hc, Hall.
Qed.

Lemma span_app (p : ascii -> bool) (run : string) (e : ascii) (rest : string) :
  all_chars p run = true -> p e = false ->
  Template.span p (run +:+ String e rest) = (run, String e rest).
Proof.
  intros Hall He. induction run as [|c run IH]; simpl in *.
  - by rewrite He.
  - apply andb_prop in Hall as [-> Hall]. by rewrite IH.
Qed.

Lemma span_all (p : ascii -> bool) (s : string) :
  all_chars p s = true -> Template.span p s = (s, "").
Proof.
  induction s as [|c s IH]; simpl; [done|].
  intros [-> Hall]%andb_prop. by rewrite IH.
Qed.

Lemma match_bracketed_shape (o c : ascii) (s g rest : string) :
  Template.match_bracketed o c s = Some (g, rest) ->
  g <> "" /\ all_chars (fun x => negb (Template.is_char x c)) g = true.
Proof.
  unfold Template.match_bracketed.
  destruct s as [|a [|b s1]]; try done.
  destruct (Template.is_char a o && Template.is_char b o); [|done].
  destruct (Template.span _ s1) as [run rest'] eqn:E.
  apply span_spec in E as (Hall & _ & _).
  destruct run as [|r run]; [done|].
  destruct rest' as [|e [|f rest'']]; try done.
  destruct (Template.is_char e c && Template.is_char f c); [|done].
  by intros [= <- _].
Qed.

Lemma match_splitter_shape (s g rest : string) :
  Template.match_splitter s = Some (g, rest) -> g = "|" \/ g = "||".
Proof.
  unfold Template.match_splitter.
  destruct s as [|a s1]; [done|]. destruct (Template.is_char a "|"); [|done].
  destruct s1 as [|b s2]; [intros [= <- _]; by left|].
  destruct (Template.is_char b "|"); intros [= <- _]; [by right|by left].
Qed.

Lemma match_text_shape (s g rest : string) :
  Template.match_text s = Some (g, rest) ->
  g <> "" /\ (all_chars plain_char g = true \/ entity_shape g = true).
Proof.
  unfold Template.match_text.
  destruct (Template.span _ s) as [run rest'] eqn:E.
  apply span_spec in E as (Hall & _ & _).
  destruct run as [|x run].
  - destruct s as [|a s1]; [done|].
    destruct (Template.is_char a "&") eqn:Ha; [|done].
    destruct (Template.span _ s1) as [run2 rest2] eqn:E'.
    apply span_spec in E' as (Hall2 & _ & Hrest2).
    destruct run2 as [|y run2]; [done|].
    destruct rest2 as [|e rest2]; [done|].
    destruct (Template.is_char e ";") eqn:He; [|done].
    intros [= <- _]. split; [done|]. right.
    unfold entity_shape.
    change (String a (String y run2) +:+ ";")
      with (String a (String y run2 +:+ String ";" "")).
    cbv beta iota. rewrite Ha, span_app; [done|done|done].
  - intros [= <- _]. split; [done|]. by left.
Qed.

Lemma to_token_first (whole g : string) (t1 t2 t3 : option string) :
  g <> "" ->
  Template.to_token (Some whole :: Some g :: [t1; t2; t3])
  = Some {| Template.type := "child"; Template.value := g |}.
Proof.
  intros Hg. unfold Template.to_token. simpl.
  by rewrite bool_decide_false.
Qed.

(** Every match of the pattern gives a token, and a token of the shape
    of its kind. *)
Lemma match_here_token (s : string) (m : list (option string)) (rest : string) :
  Template.match_here s = Some (m, rest) ->
  exists t, Template.to_token m = Some t /\ token_shape t = true.
Proof.
  unfold Template.match_here.
  destruct (Template.match_bracketed "{" "}" s) as [[g r]|] eqn:E1.
  { intros [= <- _]. apply match_bracketed_shape in E1 as [Hg Hall].
    eexists. split.
    - unfold Template.to_token. simpl. by rewrite bool_decide_false.
    - unfold token_shape. simpl. by rewrite bool_decide_false. }
  destruct (Template.match_bracketed "[" "]" s) as [[g r]|] eqn:E2.
  { intros [= <- _]. apply match_bracketed_shape in E2 as [Hg Hall].
    eexists. split.
    - unfold Template.to_token. simpl. by rewrite bool_decide_false.
    - unfold token_shape. simpl. by rewrite bool_decide_false. }
  destruct (Template.match_splitter s) as [[g r]|] eqn:E3.
  { intros [= <- _]. apply match_splitter_shape in E3 as [-> | ->]; by eexists. }
  destruct (Template.match_text s) as [[g r]|] eqn:E4; [|done].
  intros [= <- _]. apply match_text_shape in E4 as [Hg Hshape].
  eexists. split.
  - unfold Template.to_token. simpl. by rewrite bool_decide_false.
  - unfold token_shape. simpl. rewrite bool_decide_false by done. simpl.
    by destruct Hshape as [-> | ->]; [|apply orb_true_r].
Qed.

Lemma exec_token (s : string) (m : list (option string)) (rest : string) :
  Template.exec s = Some (m, rest) ->
  exists t, Template.to_token m = Some t /\ token_shape t = true.
Proof.
  induction s as [|c s IH]; simpl.
  - done.
  - destruct (Template.match_here (String c s)) as [[m' r']|] eqn:E.
    + intros [= <- _]. by eapply match_here_token.
    + apply IH.
Qed.

Lemma matches_loop_tokens (fuel : nat) (s : string) :
  Forall (fun t => token_shape t = true)
         (omap Template.to_token (Template.matches_loop fuel s)).
Proof.
  revert s. induction fuel as [|fuel IH]; intros s; simpl; [constructor|].
  destruct (Template.exec s) as [[m rest]|] eqn:E; [|constructor].
  destruct (exec_token s m rest E) as (t & Ht & Hshape).
  simpl. rewrite Ht. constructor; [done|apply IH].
Qed.

Lemma token_shape_type (t : Template.TemplateToken) :
  token_shape t = true -> Template.type t ∈ Template.types.
Proof.
  unfold token_shape, Template.types. intros [_ H]%andb_prop.
  repeat case_bool_decide; try done; set_solver.
Qed.

Lemma tokenize_token_shapes (template : string) :
  Forall (fun t => Template.type t ∈ Template.types /\ token_shape t = true)
         (Template.tokenize template).
Proof.
  eapply Forall_impl; [apply matches_loop_tokens|].
  intros t Ht. split; [by apply token_shape_type|done].
Qed.

(** X18.  Whatever the template, every token of [tokenize] has one of the
    four kinds and the shape of its kind: no value is empty; the name of a
    child holds no closing brace and the name of a rule no closing
    bracket; a splitter is one bar or two; a text is a run without bar,
    opening bracket, opening brace and ampersand, or one entity from its
    ampersand to the first semicolon. *)
Theorem tokenize_shapes (template : string) :
  Forall (fun t => Template.type t ∈ Template.types /\ token_shape t = true)
         (Template.tokenize template).
Proof. apply tokenize_token_shapes. Qed.

Lemma filter_all {A} (P : A -> Prop) `{forall x, Decision (P x)} (l : list A) :
  Forall P l -> filter P l = l.
Proof.
  induction 1 as [|x l Hx _ IH]; [done|].
  by rewrite filter_cons_True, IH.
Qed.

Lemma filter_same {A} (P Q : A -> Prop) `{forall x, Decision (P x)}
    `{forall x, Decision (Q x)} (l : list A) :
  Forall (fun x => P x <-> Q x) l -> filter P l = filter Q l.
Proof.
  induction 1 as [|x l Hx _ IH]; [done|].
  rewrite !filter_cons, IH. repeat case_decide; naive_solver.
Qed.

(** X19.  What the modes render: for every template, the recursive mode
    keeps every token of [tokenize]; the normal mode drops the rule
    tokens and nothing else; the text mode keeps the child and text tokens
    and nothing else; and a call without a mode keeps exactly the tokens
    that are no rule tokens and whose kind is among the kinds remembered
    from the call before. *)
Theorem itemRender_tokens_by_mode (template : string) (acceptTypes : list string) :
  Template.itemRender_tokens template (Some "recursive") acceptTypes
  = Some (Template.tokenize template) /\
  Template.itemRender_tokens template (Some "normal") acceptTypes
  = Some (filter (fun t => Template.type t <> "rule") (Template.tokenize template)) /\
  Template.itemRender_tokens template (Some "text") acceptTypes
  = Some (filter (fun t => Template.type t = "child" \/ Template.type t = "text")
                 (Template.tokenize template)) /\
  Template.itemRender_tokens template None acceptTypes
  = Some (filter (fun t => Template.type t <> "rule" /\ Template.type t ∈ acceptTypes)
                 (Template.tokenize template)).
Proof.
  assert (Forall (fun t => Template.type t ∈ Template.types)
                 (Template.tokenize template)) as Htypes.
  { eapply Forall_impl; [apply tokenize_token_shapes|]. by intros t [? _]. }
  unfold Template.itemRender_tokens, Template.filteredTokens. simpl.
  split; [|split; [|split]].
  - f_equal. apply filter_all. eapply Forall_impl; [done|].
    intros t Ht. by_token_type Ht.
  - f_equal. apply filter_same. eapply Forall_impl; [done|].
    intros t Ht. by_token_type Ht.
  - f_equal. apply filter_same. eapply Forall_impl; [done|].
    intros t Ht. by_token_type Ht.
  - f_equal. apply filter_same. apply Forall_forall. intros t _.
    by rewrite list_elem_of_filter.
Qed.

(** A call without a mode below a recursive one: the kinds remembered are
    all four, and the child, the splitter and the two texts are rendered,
    the rule is not. *)
Example itemRender_without_mode :
  Template.itemRender_tokens "{{a}}||[[r]]text&amp;" None
    ["child"; "splitter"; "text"; "rule"]
  = Some [ {| Template.type := "child"; Template.value := "a" |};
           {| Template.type := "splitter"; Template.value := "||" |};
           {| Template.type := "text"; Template.value := "text" |};
           {| Template.type := "text"; Template.value := "&amp;" |} ].
Proof. vm_compute. reflexivity. Qed.

(** X20.  Plain text is one token: a template that is not empty and
    holds no bar, opening bracket, opening brace or ampersand is
    tokenized to a single text token with the whole template as its
    value; the empty template gives no token. *)
Theorem tokenize_plain_text (template : string) :
  all_chars plain_char template = true ->
  Template.tokenize template
  = if bool_decide (template = "") then []
    else [ {| Template.type := "text"; Template.value := template |} ].
Proof.
  intros Hall. unfold Template.tokenize.
  destruct template as [|c s]; [done|].
  rewrite bool_decide_false by done.
  assert (Template.match_here (String c s)
          = Some ([Some (String c s); None; None; None; Some (String c s)], ""))
    as Hhere.
  { pose proof Hall as Hc. simpl in Hc. apply andb_prop in Hc as [Hc _].
    unfold plain_char in Hc. apply negb_true_iff in Hc.
    apply orb_false_elim in Hc as [[[Hbar Hbracket]%orb_false_elim Hbrace]%orb_false_elim Hamp].
    unfold Template.match_here.
    assert (Template.match_bracketed "{" "}" (String c s) = None) as ->.
    { unfold Template.match_bracketed. destruct s; [done|]. by rewrite Hbrace. }
    assert (Template.match_bracketed "[" "]" (String c s) = None) as ->.
    { unfold Template.match_bracketed. destruct s; [done|]. by rewrite Hbracket. }
    assert (Template.match_splitter (String c s) = None) as ->.
    { unfold Template.match_splitter. by rewrite Hbar. }
    unfold Template.match_text.
    change (fun x => negb (Template.is_char x "|" || Template.is_char x "[" ||
                           Template.is_char x "{" || Template.is_char x "&"))
      with plain_char.
    by rewrite (span_all plain_char (String c s) Hall). }
  cbn [Template.matches_loop Template.exec]. rewrite Hhere.
  destruct (String.length (String c s)); by cbn.
Qed.

(** C9.  The template ["{{a}}||[[r]]text&amp;"] yields, in recursive
    mode, the tokens child [a], splitter [||], rule [r], text ["text"],
    text ["&amp;"]; in text mode the splitter and the rule are dropped and
    child [a], text ["text"], text ["&amp;"] remain.  These are the modes
    [ruleRender] picks for a root rendered in full and for a text
    summary. *)
Theorem tokenize_example :
  Template.tokenize "{{a}}||[[r]]text&amp;"
  = [ {| Template.type := "child"; Template.value := "a" |};
      {| Template.type := "splitter"; Template.value := "||" |};
      {| Template.type := "rule"; Template.value := "r" |};
      {| Template.type := "text"; Template.value := "text" |};
      {| Template.type := "text"; Template.value := "&amp;" |} ] /\
  Template.itemRender_tokens "{{a}}||[[r]]text&amp;" (Some "recursive") []
  = Some [ {| Template.type := "child"; Template.value := "a" |};
           {| Template.type := "splitter"; Template.value := "||" |};
           {| Template.type := "rule"; Template.value := "r" |};
           {| Template.type := "text"; Template.value := "text" |};
           {| Template.type := "text"; Template.value := "&amp;" |} ] /\
  Template.itemRender_tokens "{{a}}||[[r]]text&amp;" (Some "text") []
  = Some [ {| Template.type := "child"; Template.value := "a" |};
           {| Template.type := "text"; Template.value := "text" |};
           {| Template.type := "text"; Template.value := "&amp;" |} ] /\
  Template.ruleRender_mode true true = "recursive" /\
  Template.ruleRender_mode false true = "text".
Proof. repeat split; vm_compute; reflexivity. Qed.

(** Malformed sequences give no token of their own: the scan moves on by
    one character. *)
Example tokenize_malformed :
  Template.tokenize "{x}}{{}}[[q]]&;|z"
  = [ {| Template.type := "text"; Template.value := "x}}" |};
      {| Template.type := "text"; Template.value := "}}" |};
      {| Template.type := "rule"; Template.value := "q" |};
      {| Template.type := "text"; Template.value := ";" |};
      {| Template.type := "splitter"; Template.value := "|" |};
      {| Template.type := "text"; Template.value := "z" |} ].
Proof. vm_compute. reflexivity. Qed.

(** ** Counterexamples and instances *)

(** C1, as stated, fails.  A Boolean item whose key is absent from the
    store, or holds [0], normalizes the raw value to [false], a
    structural change, and [getConfig] writes nothing back. *)
Lemma getConfig_skips_falsy_raw_values :
  (changed_structurally VUndef (VBool false) /\
   fst (getConfig integer_StringToNumber BooleanItem (sample_binding, empty_env))
   = inr (VBool false) /\
   store_writes (snd (snd (getConfig integer_StringToNumber BooleanItem
                             (sample_binding, empty_env)))) = []) /\
  (changed_structurally (VNum (Fin 0)) (VBool false) /\
   fst (getConfig integer_StringToNumber BooleanItem
          (sample_binding, stored "r" (VNum (Fin 0))))
   = inr (VBool false) /\
   store_writes (snd (snd (getConfig integer_StringToNumber BooleanItem
                             (sample_binding, stored "r" (VNum (Fin 0)))))) = [] /\
   store (snd (snd (getConfig integer_StringToNumber BooleanItem
                      (sample_binding, stored "r" (VNum (Fin 0)))))) !! "r"
   = Some (VNum (Fin 0))).
Proof.
  split; [split; [|split]|split; [|split; [|split]]];
    try (vm_compute; reflexivity); unfold changed_structurally; vm_compute; discriminate.
Qed.

(** The test of [getConfig] compares the serialization of the raw value
    with the normalized value, not with its serialization.  A stored
    [true] is written again on every read although nothing changed; a
    stored number [5] of a select item with the option ["5"] is left in
    place although it normalizes to the string. *)
Lemma getConfig_compares_with_the_value :
  (~ changed_structurally (VBool true) (VBool true) /\
   store_writes (snd (snd (getConfig integer_StringToNumber BooleanItem
                             (sample_binding, stored "r" (VBool true)))))
   = [("r", VBool true)]) /\
  (changed_structurally (VNum (Fin 5)) (VStr "5") /\
   fst (getConfig integer_StringToNumber (SelectItem (VArr [VObj [("value", VStr "5")]]))
          (sample_binding, stored "r" (VNum (Fin 5))))
   = inr (VStr "5") /\
   store_writes (snd (snd (getConfig integer_StringToNumber
                             (SelectItem (VArr [VObj [("value", VStr "5")]]))
                             (sample_binding, stored "r" (VNum (Fin 5)))))) = []).
Proof.
  split; [split|split; [|split]]; try (vm_compute; reflexivity).
  - intros H. by apply H.
  - unfold changed_structurally. vm_compute. discriminate.
Qed.

(** An instance of C1: a stored [1] of a Boolean item is healed to [true]. *)
Lemma getConfig_self_heals_witness :
  exists b' e',
    getConfig integer_StringToNumber BooleanItem (sample_binding, stored "r" (VNum (Fin 1)))
    = (inr (VBool true), (b', e')) /\
    store_writes e' = [("r", VBool true)] /\
    store e' !! "r" = Some (VBool true).
Proof.
  destruct (getConfig_self_heals integer_StringToNumber BooleanItem sample_binding
              (stored "r" (VNum (Fin 1))) "r" (VBool true))
    as (b' & e' & Hget & _ & _ & Hheal);
    [reflexivity | vm_compute; reflexivity |].
  exists b', e'. split; [exact Hget|].
  destruct Hheal as [Hstore Hwrites].
  - vm_compute; reflexivity.
  - unfold changed_structurally. vm_compute. discriminate.
  - discriminate.
  - intros j _. discriminate.
  - split; [exact Hwrites|]. rewrite Hstore. apply lookup_insert_eq.
Defined.



(** Beyond [2^53] the subtraction rounds, and idempotence is lost: with
    [min] 0, no finite [max] and [step] 3, [2^53 + 2] normalizes to
    [2^53], since [2^53 + 1] is no double, and [2^53] to [2^53 - 2]. *)
Lemma normalize_not_idempotent_beyond_exact_range :
  normalize integer_StringToNumber
    (NumberItem {| min := VNum (Fin 0); max := VNum PInf; step := VNum (Fin 3) |})
    (VNum (Fin (2 ^ 53 + 2)))
  = inr (VNum (Fin (2 ^ 53))) /\
  normalize integer_StringToNumber
    (NumberItem {| min := VNum (Fin 0); max := VNum PInf; step := VNum (Fin 3) |})
    (VNum (Fin (2 ^ 53)))
  = inr (VNum (Fin (2 ^ 53 - 2))).
Proof. split; vm_compute; reflexivity. Qed.



(** Beyond [2^53] the result can leave the grid: with [min] 0, [max]
    [2^54] and [step] 3, [2^53 + 2] normalizes to [2^53], which is no
    multiple of 3. *)
Lemma normalize_off_grid_beyond_exact_range :
  NumberConfigItem_normalize integer_StringToNumber
    {| min := VNum (Fin 0); max := VNum (Fin (2 ^ 54)); step := VNum (Fin 3) |}
    (VNum (Fin (2 ^ 53 + 2)))
  = VNum (Fin (2 ^ 53)) /\
  Z.rem (2 ^ 53) 3 = 2.
Proof. split; vm_compute; reflexivity. Qed.

(** C7, as stated, fails.  A select item declared with the empty option
    list is constructed. *)
Lemma SelectConfigItem_new_accepts_no_options :
  SelectConfigItem_new (sample_select (VArr [])) None None 0%nat
  = (inr (ConfigItemObj (SelectItem (VArr []))
            {| id := Some "s"; configId := 0; configInitialized := false; config := None |}
            []),
     1%nat).
Proof. reflexivity. Qed.

Lemma SelectConfigItem_new_checks_witness :
  SelectConfigItem_new (sample_select sample_options) None None 0%nat
  = (inr (ConfigItemObj (SelectItem sample_options)
            {| id := Some "s"; configId := 0; configInitialized := false; config := None |}
            []),
     1%nat).
Proof.
  apply (SelectConfigItem_new_checks (sample_select sample_options) None None 0%nat 1%nat
           {| id := Some "s"; configId := 0; configInitialized := false; config := None |} []);
    reflexivity.
Defined.

(** C8, as stated, fails.  The select item with the empty option list,
    which the constructor accepts, normalizes [null] to [null], though no
    declared option has that value. *)
Lemma normalize_without_options :
  SelectConfigItem_check (VArr []) = inr tt /\
  normalize integer_StringToNumber (SelectItem (VArr [])) VNull = inr VNull /\
  ~ has_option [] VNull.
Proof.
  split; [reflexivity|]. split; [reflexivity|].
  intros (item & Hin & _). by apply elem_of_nil in Hin.
Qed.

Lemma SelectConfigItem_normalize_fallback_witness :
  exists r,
    normalize integer_StringToNumber (SelectItem sample_options) (VStr "c") = inr r /\
    r = initial (SelectItem sample_options).
Proof.
  assert (SelectConfigItem_check sample_options = inr tt) as Hcheck by reflexivity.
  destruct (SelectConfigItem_normalize_fallback integer_StringToNumber _ (VStr "c") Hcheck)
    as (r & Hr & _ & Hinitial & _).
  exists r. split; [exact Hr|]. apply Hinitial.
  intros (item & Hin & Hvalue).
  repeat (apply elem_of_cons in Hin as [->|Hin]; [discriminate Hvalue|]).
  by apply elem_of_nil in Hin.
Defined.

Lemma structural_error_registers_nothing_witness :
  groupBuilder (sample_decl (Some "g2") (ParentNode 1)) (sample_world true)
  = (inl (TypeError "Group must in some Tab"), sample_world true) /\
  ruleBuilder (sample_decl (Some "r2") (ParentNode 0)) (sample_world true)
  = (inl (TypeError "Rule must in some Group"), sample_world true).
Proof.
  assert (parent_instanceof (heap (sample_world true))
            (r_parent (sample_decl (Some "g2") (ParentNode 1))) is_Tab = false) as H1
    by (vm_compute; reflexivity).
  assert (parent_instanceof (heap (sample_world true))
            (r_parent (sample_decl (Some "r2") (ParentNode 0))) is_Group = false) as H2
    by (vm_compute; reflexivity).
  split.
  - exact (proj1 (structural_error_registers_nothing _ _) H1).
  - exact (proj1 (proj2 (structural_error_registers_nothing _ _) H2)).
Defined.


(** The batch of the sample world: the [init] of rule 2 throws and is
    logged; rule 3, declared after it, has its [css] and [acss] in the
    style sheet and its [init] and [ainit] on the page. *)
Example rule_init_sample :
  fst (rule_init integer_StringToNumber (sample_world true)) = inr tt /\
  rule_style (env (snd (rule_init integer_StringToNumber (sample_world true))))
  = Some [".a{}"; ".x{color:red}" +:+ newline +:+ ".x{display:none}"] /\
  debug_log (env (snd (rule_init integer_StringToNumber (sample_world true))))
  = [(2%nat, Thrown (VStr "boom"))] /\
  page (env (snd (rule_init integer_StringToNumber (sample_world true))))
  = ["b.init"; "b.ainit"].
Proof. repeat split; vm_compute; reflexivity. Qed.

Lemma config_read_failure_aborts_batch_witness :
  rule_init integer_StringToNumber (sample_world false)
  = (inl (Error "id is required to init config"), with_rule_style (sample_world false)).
Proof.
  assert (forEach (execute integer_StringToNumber) [] (with_rule_style (sample_world false))
          = (inr tt, with_rule_style (sample_world false))) as H1 by reflexivity.
  assert (isEnabled integer_StringToNumber 2%nat (with_rule_style (sample_world false))
          = (inl (Error "id is required to init config"),
             with_rule_style (sample_world false)))
    as H2 by (vm_compute; reflexivity).
  destruct (config_read_failure_aborts_batch integer_StringToNumber _ _ _ [] [3%nat] 2%nat _
              H1 H2) as (_ & _ & Hinit & _).
  apply (Hinit (sample_world false)); [reflexivity | vm_compute; reflexivity].
Defined.

Lemma query_depth_first_witness :
  exists result,
    query (Some [0; 1; 0; 3]%nat) (sample_world true) = (inr result, sample_world true) /\
    NoDup result.
Proof.
  destruct (query_depth_first (sample_world true) (Some [0; 1; 0; 3]%nat))
    as (order & result & _ & _ & Hq & Hnodup & _).
  - apply wf_heapb_correct. vm_compute. reflexivity.
  - exists result. split; [exact Hq | exact Hnodup].
Defined.

(** Roots that reach a rule along several paths: each rule once, where
    the walk met it first. *)
Example query_sample :
  fst (query (Some [0; 1; 0; 3]%nat) (sample_world true)) = inr [2; 3]%nat /\
  fst (query (Some [3; 0]%nat) (sample_world true)) = inr [3; 2]%nat /\
  fst (query None (sample_world true)) = inr [2; 3]%nat.
Proof. repeat split; vm_compute; reflexivity. Qed.

(** ** Instances of the further results *)

Lemma setConfig_getConfig_round_trip_witness :
  exists n b1 e1 b2 e2,
    normalize integer_StringToNumber sample_range (VStr "57") = inr n /\
    setConfig integer_StringToNumber sample_range (VStr "57") (sample_binding, empty_env)
    = (inr n, (b1, e1)) /\
    store e1 = <["r" := n]> (store empty_env) /\
    store_writes e1 = ("r", n) :: store_writes empty_env /\
    getConfig integer_StringToNumber sample_range (b1, e1) = (inr n, (b2, e2)) /\
    store e2 !! "r" = Some n.
Proof.
  assert (variant_ok sample_range) as H1 by (vm_compute; reflexivity).
  assert (input_ok integer_StringToNumber sample_range (VStr "57")) as H2
    by (vm_compute; reflexivity).
  assert (binding_key sample_binding = Some "r") as H3 by (vm_compute; reflexivity).
  exact (setConfig_getConfig_round_trip integer_StringToNumber sample_range
           sample_binding empty_env "r" (VStr "57") H1 H2 H3).
Defined.

Lemma config_operations_need_id_witness :
  getConfig integer_StringToNumber BooleanItem (unbound_binding, empty_env)
  = (inl (Error "id is required to init config"), (unbound_binding, empty_env)) /\
  setConfig integer_StringToNumber BooleanItem (VBool true) (unbound_binding, empty_env)
  = (inl (Error "id is required to init config"), (unbound_binding, empty_env)) /\
  addConfigListener (unbound_binding, empty_env)
  = (inl (Error "id is required to init config"), (unbound_binding, empty_env)).
Proof.
  assert (configInitialized unbound_binding = false) as H1 by reflexivity.
  assert (config unbound_binding = None) as H2 by reflexivity.
  assert (id_truthy (id unbound_binding) = false) as H3 by reflexivity.
  exact (config_operations_need_id integer_StringToNumber BooleanItem unbound_binding
           empty_env (VBool true) H1 H2 H3).
Defined.

Lemma getConfig_twice_witness :
  exists e2,
    getConfig integer_StringToNumber sample_range
      (fst (snd (getConfig integer_StringToNumber sample_range
          (sample_binding, stored "r" (VNum (Fin 57))))),
       snd (snd (getConfig integer_StringToNumber sample_range
          (sample_binding, stored "r" (VNum (Fin 57))))))
    = (inr (VNum (Fin 50)),
       (fst (snd (getConfig integer_StringToNumber sample_range
          (sample_binding, stored "r" (VNum (Fin 57))))), e2)) /\
    store e2 = store (snd (snd (getConfig integer_StringToNumber sample_range
          (sample_binding, stored "r" (VNum (Fin 57)))))) /\
    listeners e2 = listeners (snd (snd (getConfig integer_StringToNumber sample_range
          (sample_binding, stored "r" (VNum (Fin 57)))))).
Proof.
  assert (variant_ok sample_range) as H1 by (vm_compute; reflexivity).
  assert (forall key, binding_key sample_binding = Some key ->
            input_ok integer_StringToNumber sample_range
              (default VUndef (store (stored "r" (VNum (Fin 57))) !! key))) as H2.
  { intros key Hkey. assert (key = "r") as -> by (vm_compute in Hkey; congruence).
    vm_compute. reflexivity. }
  assert (getConfig integer_StringToNumber sample_range
            (sample_binding, stored "r" (VNum (Fin 57)))
          = (inr (VNum (Fin 50)),
             (fst (snd (getConfig integer_StringToNumber sample_range
          (sample_binding, stored "r" (VNum (Fin 57))))),
              snd (snd (getConfig integer_StringToNumber sample_range
          (sample_binding, stored "r" (VNum (Fin 57))))))))
    as H3 by (vm_compute; reflexivity).
  exact (getConfig_twice integer_StringToNumber sample_range _ _ _ _ _ H1 H2 H3).
Defined.

Lemma getConfig_default_witness :
  exists b' e',
    getConfig integer_StringToNumber sample_range (sample_binding, empty_env)
    = (inr (initial sample_range), (b', e')) /\
    store e' = store empty_env /\ store_writes e' = store_writes empty_env.
Proof.
  assert (binding_key sample_binding = Some "r") as H1 by (vm_compute; reflexivity).
  assert (store empty_env !! "r" = None) as H2 by (vm_compute; reflexivity).
  assert (sample_range <> PlainItem) as H3 by discriminate.
  assert (forall opts, sample_range = SelectItem opts ->
            SelectConfigItem_check opts = inr tt) as H4 by (intros opts H; discriminate H).
  exact (getConfig_default integer_StringToNumber sample_range sample_binding empty_env
           "r" H1 H2 H3 H4).
Defined.

Lemma normalize_keeps_grid_values_witness :
  NumberConfigItem_normalize integer_StringToNumber
    {| min := VNum (Fin 10); max := VNum (Fin 100); step := VNum (Fin 20) |}
    (VNum (Fin (10 + 2 * 20)))
  = VNum (Fin (10 + 2 * 20)).
Proof.
  apply (normalize_keeps_grid_values integer_StringToNumber 10 100 20 2);
    [lia | lia | lia | vm_compute; reflexivity].
Defined.

Lemma normalize_snaps_down_witness :
  exists z,
    NumberConfigItem_normalize integer_StringToNumber
      {| min := VNum (Fin 10); max := VNum (Fin 100); step := VNum (Fin 20) |} (VStr "57")
    = VNum (Fin z) /\
    clamp 10 100 57 = Z.min 100 (Z.max 10 57) /\
    clamp 10 100 57 - Z.abs 20 < z <= clamp 10 100 57.
Proof.
  apply (normalize_snaps_down integer_StringToNumber 10 100 20 57 (VStr "57"));
    [lia | vm_compute; reflexivity | lia | vm_compute; reflexivity].
Defined.

(** The double [2^60], far beyond [2^53], is kept. *)
Lemma normalize_default_number_witness :
  NumberConfigItem_normalize integer_StringToNumber default_number (VNum (Fin (2 ^ 60)))
  = match ToNumber integer_StringToNumber (VNum (Fin (2 ^ 60))) with
    | Fin x => VNum (Fin (Z.max 0 x))
    | _ => VNum (Fin 0)
    end.
Proof.
  assert (forall x, ToNumber integer_StringToNumber (VNum (Fin (2 ^ 60))) = Fin x ->
            double x) as H.
  { intros x Hx. injection Hx as <-. vm_compute. reflexivity. }
  exact (normalize_default_number integer_StringToNumber (VNum (Fin (2 ^ 60))) H).
Defined.

(** A Tab declared under a Rule: the Rule has no [children] array. *)
Lemma failed_declaration_registers_nothing_witness :
  fst (declare (DeclTab (sample_decl (Some "t2") (ParentNode 2))) sample_tree)
  = inl (TypeError "this.parent.children is undefined") /\
  heap (snd (declare (DeclTab (sample_decl (Some "t2") (ParentNode 2))) sample_tree))
  = heap sample_tree /\
  tabs (snd (declare (DeclTab (sample_decl (Some "t2") (ParentNode 2))) sample_tree))
  = tabs sample_tree /\
  env (snd (declare (DeclTab (sample_decl (Some "t2") (ParentNode 2))) sample_tree))
  = env sample_tree.
Proof.
  assert (declare (DeclTab (sample_decl (Some "t2") (ParentNode 2))) sample_tree
          = (inl (TypeError "this.parent.children is undefined"),
             snd (declare (DeclTab (sample_decl (Some "t2") (ParentNode 2))) sample_tree)))
    as H by (vm_compute; reflexivity).
  split; [by rewrite H|].
  exact (failed_declaration_registers_nothing _ _ _ _ H).
Defined.

Lemma declaration_appends_node_witness :
  exists n cs,
    heap sample_tree !! 1%nat = Some n /\ children n = Some cs /\
    heap (snd (declare (DeclRule (sample_rule_c (ParentNode 1))) sample_tree)) !! 1%nat
    = Some (set_children (Some (cs ++ [5%nat])) n).
Proof.
  assert (declare (DeclRule (sample_rule_c (ParentNode 1))) sample_tree
          = (inr 5%nat, snd (declare (DeclRule (sample_rule_c (ParentNode 1))) sample_tree)))
    as H by (vm_compute; reflexivity).
  destruct (declaration_appends_node _ _ _ _ H) as (_ & _ & _ & _ & Hparent & _).
  exact (Hparent 1%nat eq_refl).
Defined.

Lemma declarations_keep_structure_witness :
  wf_heap (heap sample_tree) /\ registered sample_tree.
Proof.
  assert (wf_heap (heap (set_env sample_store empty_world))) as H1 by apply wf_heap_nil.
  assert (registered (set_env sample_store empty_world)) as H2
    by (intros i n Hn; discriminate Hn).
  exact (declarations_keep_structure sample_declarations _ H1 H2).
Defined.

Lemma query_of_its_result_witness :
  NoDup [2; 3; 4]%nat /\
  query (Some [2; 3; 4]%nat) sample_tree = (inr [2; 3; 4]%nat, sample_tree).
Proof.
  assert (query (Some [0; 1; 0]%nat) sample_tree = (inr [2; 3; 4]%nat, sample_tree))
    as H by (vm_compute; reflexivity).
  destruct (query_of_its_result _ _ _ _ H) as (_ & Hnd & _ & Hq).
  split; [exact Hnd | exact Hq].
Defined.

Lemma query_follows_base_witness :
  exists result1 more,
    query (Some [4]%nat) sample_tree = (inr result1, sample_tree) /\
    [4; 2; 3]%nat = result1 ++ more.
Proof.
  assert (query (Some ([4] ++ [0])%nat) sample_tree = (inr [4; 2; 3]%nat, sample_tree))
    as H by (vm_compute; reflexivity).
  exact (query_follows_base _ _ _ _ _ H).
Defined.

(** A Text without an [id]. *)
Lemma always_items_are_enabled_witness :
  isEnabled integer_StringToNumber 5%nat
    (snd (declare (DeclText (sample_decl None (ParentNode 1))) sample_tree))
  = (inr (VBool true),
     snd (declare (DeclText (sample_decl None (ParentNode 1))) sample_tree)).
Proof.
  assert (declare (DeclText (sample_decl None (ParentNode 1))) sample_tree
          = (inr 5%nat, snd (declare (DeclText (sample_decl None (ParentNode 1))) sample_tree)))
    as H1 by (vm_compute; reflexivity).
  assert (always_declared (DeclText (sample_decl None (ParentNode 1))) = true)
    as H2 by reflexivity.
  exact (always_items_are_enabled integer_StringToNumber _ _ _ _ H1 H2).
Defined.



Lemma tokenize_plain_text_witness :
  Template.tokenize "hello world"
  = if bool_decide ("hello world" = "") then []
    else [ {| Template.type := "text"; Template.value := "hello world" |} ].
Proof.
  assert (all_chars plain_char "hello world" = true) as H by (vm_compute; reflexivity).
  exact (tokenize_plain_text "hello world" H).
Defined.


(** The item [a] built in the context [r]: it becomes [r.a], its nested
    item [b] becomes [a.b], and the item [c] below that [b.c]. *)
Lemma nested_ids_are_one_level_deep_witness :
  item_id sample_nested_built = Some "r.a" /\
  Forall2 (fun kd ki => fst ki = fst kd /\
                        item_id (snd ki) = nested_id (Some "a") (fst kd) (snd kd))
    (d_ref sample_nested) (item_ref sample_nested_built).
Proof.
  assert (configItemBuilder sample_nested None (Some (Some "r")) 0%nat
          = (inr sample_nested_built, 3%nat))
    as H by (vm_compute; reflexivity).
  split; [vm_compute; reflexivity|].
  exact (nested_ids_are_one_level_deep _ _ _ _ _ _ H).
Defined.

Example nested_ids_sample :
  match fst (configItemBuilder sample_nested None (Some (Some "r")) 0%nat) with
  | inr (ConfigItemObj _ a [(_, ConfigItemObj _ b [(_, ConfigItemObj _ c [])])]) =>
      id a = Some "r.a" /\ id b = Some "a.b" /\ id c = Some "b.c"
  | _ => False
  end.
Proof. vm_compute. done. Qed.
